(** * pdt-cdp-ports: discovery parsing, interface normalization, plan building
      and the interactive orchestrator, embedded from the Python sources

    Sources embedded here:
    - [src/ap_renamer/ap_renamer.py]   (power-inline/CDP flow, interactive loop)
    - [src/ap_renamer/lldp_renamer.py] (LLDP flow driven by device policies)
    - [src/ap_renamer/ap_renamer1.py]  (earlier LLDP flow, fixed AP model)

    Text model.  A Python [str] is modelled as a Rocq [string] whose
    characters are the code points 0..255 (Latin-1).  On that range the
    character classes used by the sources are:
    - [str.isspace] / regex [\s]: 9..13, 28..32, 133 and 160;
    - regex [\d]: the ASCII digits;
    - [str.lower]: A..Z and 192..222 (except 215) move up by 32;
    - [str.splitlines] boundaries: 10, 11, 12, 13, 28, 29, 30 and 133,
      with CR LF counted as one boundary;
    - [str.isprintable], which [repr] goes by: 32..126, 161..172 and
      174..255. *)

From Stdlib Require Import Ascii String NArith DecimalString.
From stdpp Require Import base option list strings sorting gmap.

Local Open Scope bool_scope.

(** ** Characters *)

Module Chr.

Definition code (c : ascii) : N := N_of_ascii c.

Definition between (lo hi : N) (c : ascii) : bool :=
  ((lo <=? code c) && (code c <=? hi))%N.

(** [str.isspace] on one character; also the regex class [\s]. *)
Definition is_space (c : ascii) : bool :=
  between 9 13 c || between 28 32 c || (code c =? 133)%N || (code c =? 160)%N.

(** The regex class [\d]. *)
Definition is_digit (c : ascii) : bool := between 48 57 c.

(** A line boundary of [str.splitlines]. *)
Definition is_linebreak (c : ascii) : bool :=
  between 10 13 c || between 28 30 c || (code c =? 133)%N.

(** [str.lower] on one character. *)
Definition lower (c : ascii) : ascii :=
  if between 65 90 c || (between 192 222 c && negb (code c =? 215)%N)
  then ascii_of_N (code c + 32)
  else c.

End Chr.

(** ** Strings: the [str] methods the sources call *)

Module Str.

Definition is_empty (s : string) : bool :=
  match s with EmptyString => true | String _ _ => false end.

(** Python truthiness of a [str]. *)
Definition truthy (s : string) : bool := negb (is_empty s).

Fixpoint lower (s : string) : string :=
  match s with
  | EmptyString => EmptyString
  | String c s' => String (Chr.lower c) (lower s')
  end.

Fixpoint lstrip (s : string) : string :=
  match s with
  | EmptyString => EmptyString
  | String c s' => if Chr.is_space c then lstrip s' else s
  end.

Fixpoint rstrip (s : string) : string :=
  match s with
  | EmptyString => EmptyString
  | String c s' =>
      let r := rstrip s' in
      if Chr.is_space c && is_empty r then EmptyString else String c r
  end.

Definition strip (s : string) : string := rstrip (lstrip s).

(** [s.startswith(p)] *)
Fixpoint startswith (p s : string) : bool :=
  match p with
  | EmptyString => true
  | String a p' =>
      match s with
      | EmptyString => false
      | String c s' => Ascii.eqb a c && startswith p' s'
      end
  end.

(** [p in s] *)
Fixpoint contains (p s : string) : bool :=
  startswith p s ||
  match s with
  | EmptyString => false
  | String _ s' => contains p s'
  end.

(** Puts [c] in front of the first element, as a line or field under
    construction grows by one character. *)
Definition cons_head (c : ascii) (l : list string) : list string :=
  match l with
  | [] => [String c EmptyString]
  | x :: xs => String c x :: xs
  end.

(** [s.splitlines()] *)
Fixpoint splitlines (s : string) : list string :=
  match s with
  | EmptyString => []
  | String c rest =>
      if Chr.is_linebreak c then
        match rest with
        | String c' rest' =>
            if (Chr.code c =? 13)%N && (Chr.code c' =? 10)%N
            then EmptyString :: splitlines rest'
            else EmptyString :: splitlines rest
        | EmptyString => [EmptyString]
        end
      else cons_head c (splitlines rest)
  end.

(** [s.split(sep)] for a non-empty [sep]: [skip] counts the characters
    of a separator occurrence still to be passed over. *)
Fixpoint split_go (sep : string) (skip : nat) (s : string) : list string :=
  match s with
  | EmptyString => [EmptyString]
  | String c s' =>
      match skip with
      | S k => split_go sep k s'
      | O =>
          if startswith sep s
          then EmptyString :: split_go sep (String.length sep - 1) s'
          else cons_head c (split_go sep 0 s')
      end
  end.

Definition split (sep s : string) : list string := split_go sep 0 s.

Fixpoint take (n : nat) (s : string) : string :=
match n, s with
| S k, String c s' => String c (take k s')
| _, _ => EmptyString
end.

(** The last character of [s], as a string; empty when [s] is. *)
Fixpoint last_char (s : string) : string :=
match s with
| EmptyString => EmptyString
| String c EmptyString => s
| String _ s' => last_char s'
end.

(** [s] up to its first comma, and whether a comma was met. *)
Fixpoint until_comma (s : string) : string * bool :=
match s with
| EmptyString => (EmptyString, false)
| String c s' =>
    if (Chr.code c =? 44)%N then (EmptyString, true)
    else let '(pre, found) := until_comma s' in (String c pre, found)
end.

(** Decimal rendering of a length inside an f-string. *)
Definition of_nat (n : nat) : string := NilZero.string_of_uint (Nat.to_uint n).

End Str.

(** ** Regular expressions of the sources, as matchers *)

Module Re.

(** Maximal run of [\S] characters at the start of [s]. *)
Fixpoint take_nonspace (s : string) : string :=
  match s with
  | EmptyString => EmptyString
  | String c s' =>
      if Chr.is_space c then EmptyString else String c (take_nonspace s')
  end.

(** The slot-path pattern is: one or more digits, then any number of
    groups made of a slash and one or more digits.  [slot_rest] is the
    continuation of a match once a digit has been consumed: more digits
    of the current run, or a slash followed by a digit opens the next
    group. *)
Fixpoint slot_rest (s : string) : string :=
  match s with
  | EmptyString => EmptyString
  | String c rest =>
      if Chr.is_digit c then String c (slot_rest rest)
      else if (Chr.code c =? 47)%N then
        match rest with
        | String d rest' =>
            if Chr.is_digit d then String c (String d (slot_rest rest'))
            else EmptyString
        | EmptyString => EmptyString
        end
      else EmptyString
  end.

(** [re.search] of the slot-path pattern in [s]: group 1 of the leftmost
    match, which starts at the first digit. *)
Fixpoint search_slot_path (s : string) : option string :=
  match s with
  | EmptyString => None
  | String c rest =>
      if Chr.is_digit c then Some (String c (slot_rest rest))
      else search_slot_path rest
  end.

(** Case-insensitive literal at the start of [s] (the literal is given in
    lower case); returns what follows it. *)
Fixpoint iliteral (lit s : string) : option string :=
  match lit with
  | EmptyString => Some s
  | String a lit' =>
      match s with
      | EmptyString => None
      | String c s' =>
          if Ascii.eqb (Chr.lower c) a then iliteral lit' s' else None
      end
  end.

End Re.

(** ** [normalize_interface_name] (ap_renamer.py) *)

Definition normalize_interface_name (ifname : string) : string :=
  if Str.is_empty ifname then ifname
  else
    let ifname := Str.strip ifname in
    match Re.search_slot_path ifname with
    | None => ifname
    | Some nums =>
        let low := Str.lower ifname in
        if Str.contains "gig" low || Str.startswith "gi" low
        then "GigabitEthernet" +:+ nums
        else if Str.contains "ten" low || Str.startswith "te" low
        then "TenGigabitEthernet" +:+ nums
        else if Str.contains "fast" low || Str.startswith "fa" low
        then "FastEthernet" +:+ nums
        else ifname
    end.

(** ** Power-inline summary scan: [find_aps_in_cdp] (ap_renamer.py) *)

(** The sentinel given to a matching line with no leading token. *)
Definition unknown_interface : string := "<unknown>".

(** [dev_pat] tried at the start of [s], case-insensitively: either the
    letters C91 followed by any run of non-space characters, or AIR- followed
    by a non-empty run of non-space characters.  The result is the matched
    text. *)
Definition dev_pat_at (s : string) : option string :=
  match Re.iliteral "c91" s with
  | Some rest => Some (Str.take 3 s +:+ Re.take_nonspace rest)
  | None =>
      match Re.iliteral "air-" s with
      | Some rest =>
          let run := Re.take_nonspace rest in
          if Str.is_empty run then None else Some (Str.take 4 s +:+ run)
      | None => None
      end
  end.

(** [dev_pat.search(line)]: the leftmost position where the pattern matches. *)
Fixpoint dev_pat_search (line : string) : option string :=
  match dev_pat_at line with
  | Some m => Some m
  | None =>
      match line with
      | EmptyString => None
      | String _ rest => dev_pat_search rest
      end
  end.

(** [intf_pat.match(line)]: leading white space, then group 1, a non-empty
    run of non-space characters. *)
Definition intf_pat_match (line : string) : option string :=
  let tok := Re.take_nonspace (Str.lstrip line) in
  if Str.is_empty tok then None else Some tok.

(** One turn of the loop over the lines: [None] is the [continue]. *)
Definition find_aps_line (line : string) : option (string * string) :=
  match dev_pat_search line with
  | None => None
  | Some m =>
      let device := Str.strip m in
      let ifname :=
        match intf_pat_match line with
        | Some g => g
        | None => unknown_interface
        end in
      Some (device, normalize_interface_name ifname)
  end.

Definition find_aps_in_cdp (output : string) : list (string * string) :=
  omap find_aps_line (Str.splitlines output).

(** ** CDP neighbor detail: [parse_cdp_neighbors_detail] (ap_renamer.py) *)

(** Group 1 of a pattern of the shape: white space, then a non-empty greedy
    run [run] of a class that also holds the white-space characters.  The
    white space is consumed first; when nothing is left for the run, the
    matcher backtracks and hands the last white-space character to it. *)
Definition spaces_then_run (rest run : string) : option string :=
  if Str.is_empty run then
    let ws := Str.take (String.length rest - String.length (Str.lstrip rest)) rest in
    if Str.is_empty ws then None else Some (Str.last_char ws)
  else Some run.

(** [device_re.match(line)] on a line (no newline inside): white space, the
    literal Device ID: in any case, white space, and group 1, the non-empty
    rest of the line. *)
Definition device_re_match (line : string) : option string :=
  match Re.iliteral "device id:" (Str.lstrip line) with
  | None => None
  | Some rest => spaces_then_run rest (Str.lstrip rest)
  end.

(** [if_re.match(line)]: white space, the literal Interface: in any case,
    white space, group 1 a non-empty run without comma, and a comma. *)
Definition if_re_match (line : string) : option string :=
  match Re.iliteral "interface:" (Str.lstrip line) with
  | None => None
  | Some rest =>
      let '(run, comma) := Str.until_comma (Str.lstrip rest) in
      if comma then spaces_then_run rest run else None
  end.

(** The loop state: the [results] dict and the [current_device] register. *)
Definition cdp_state : Type := gmap string string * option string.

(** The loop body of [parse_cdp_neighbors_detail]. *)
Definition cdp_step (st : cdp_state) (line : string) : cdp_state :=
  let '(results, current_device) := st in
  match device_re_match line with
  | Some g => (results, Some (Str.strip g))
  | None =>
      match current_device with
      | Some dev =>
          if Str.truthy dev then
            match if_re_match line with
            | Some g =>
                let ifname := normalize_interface_name (Str.strip g) in
                (<[ifname := dev]> results, None)
            | None => st
            end
          else st
      | None => st
      end
  end.

Definition cdp_run (lines : list string) : cdp_state :=
  foldl cdp_step (∅, None) lines.

Definition parse_cdp_neighbors_detail (output : string) : gmap string string :=
  (cdp_run (Str.splitlines output)).1.

(** ** LLDP neighbor detail: [parse_lldp_neighbors] (lldp_renamer.py) *)

(** The fixed block separator: a row of 48 dashes. *)
Definition lldp_separator : string :=
  "------------------------------------------------".

(** A neighbor dict with its three keys. *)
Record neighbor : Type := Neighbor {
  local_intf : string;
  system_name : string;
  system_description : string
}.

(** [line.split(label)[1].strip()] for a line that starts with [label]. *)
Definition field_after (label line : string) : string :=
  match Str.split label line with
  | _ :: value :: _ => Str.strip value
  | _ => EmptyString
  end.

(** The inner [while j < len(lines)] loop: the first line, stripped, that
    is not empty after stripping. *)
Fixpoint next_nonempty (following : list string) : option string :=
  match following with
  | [] => None
  | l :: rest =>
      let next_line := Str.strip l in
      if Str.truthy next_line then Some next_line else next_nonempty rest
  end.

(** The three variables a block's scan assigns. *)
Record lldp_vars : Type := LldpVars {
  v_local_intf : option string;
  v_system_name : string;
  v_system_desc : string
}.

Definition lldp_vars_init : lldp_vars := LldpVars None EmptyString EmptyString.

(** The [while i < len(lines)] loop: [lines] is what remains from index
    [i] on, so the tail is what the description lookup walks over. *)
Fixpoint lldp_scan (lines : list string) (vars : lldp_vars) : lldp_vars :=
  match lines with
  | [] => vars
  | l :: following =>
      let line := Str.strip l in
      let vars' :=
        if Str.startswith "Local Intf:" line then
          LldpVars (Some (field_after "Local Intf:" line))
                   (v_system_name vars) (v_system_desc vars)
        else if Str.startswith "System Name:" line then
          LldpVars (v_local_intf vars)
                   (field_after "System Name:" line) (v_system_desc vars)
        else if Str.startswith "System Description:" line then
          match next_nonempty following with
          | Some next_line =>
              LldpVars (v_local_intf vars) (v_system_name vars) next_line
          | None => vars
          end
        else vars in
      lldp_scan following vars'
  end.

Definition lldp_block_lines (block : string) : list string :=
  map Str.rstrip (Str.splitlines block).

(** One turn of the loop over the blocks: the record appended, if any. *)
Definition lldp_block (block : string) : option neighbor :=
  let vars := lldp_scan (lldp_block_lines block) lldp_vars_init in
  match v_local_intf vars with
  | Some intf =>
      if Str.truthy intf
      then Some (Neighbor intf (v_system_name vars) (v_system_desc vars))
      else None
  | None => None
  end.

Definition parse_lldp_neighbors (output : string) : list neighbor :=
  omap lldp_block (Str.split lldp_separator output).

(** ** The earlier LLDP parser (ap_renamer1.py) *)

Module ApRenamer1.

(** Its neighbor dict has two keys. *)
Record neighbor1 : Type := Neighbor1 {
  local_intf1 : string;
  system_description1 : string
}.

Fixpoint lldp_scan1 (lines : list string) (vars : option string * string)
  : option string * string :=
  match lines with
  | [] => vars
  | l :: following =>
      let line := Str.strip l in
      let vars' :=
        if Str.startswith "Local Intf:" line then
          (Some (field_after "Local Intf:" line), vars.2)
        else if Str.startswith "System Description:" line then
          match next_nonempty following with
          | Some next_line => (vars.1, next_line)
          | None => vars
          end
        else vars in
      lldp_scan1 following vars'
  end.

(** The record is appended under [if local_intf and system_desc]. *)
Definition lldp_block1 (block : string) : option neighbor1 :=
  let vars := lldp_scan1 (lldp_block_lines block) (None, EmptyString) in
  match vars.1 with
  | Some intf =>
      if Str.truthy intf && Str.truthy vars.2
      then Some (Neighbor1 intf vars.2)
      else None
  | None => None
  end.

Definition parse_lldp_neighbors1 (output : string) : list neighbor1 :=
  omap lldp_block1 (Str.split lldp_separator output).

End ApRenamer1.

(** ** Device policies and first-match selection (lldp_renamer.py) *)

Record device_policy : Type := DevicePolicy {
  policy_name : string;
  policy_match : neighbor -> bool;
  policy_config : list string
}.

Definition DEVICE_POLICIES : list device_policy :=
  [ DevicePolicy "Arista Leaf Switch"
      (fun n => String.eqb (system_name n) "LEAF1")
      [ "description config tool LEAF1";
        "switchport mode access";
        "switchport access vlan 1";
        "spanning-tree portfast";
        "spanning-tree bpduguard enable" ];
    DevicePolicy "Arista Access Point"
      (fun n => Str.contains "ARISTA AP" (system_description n))
      [ "description Arista_AP_Config_tool";
        "switchport trunk allowed vlan 1,4091";
        "switchport mode trunk";
        "power inline auto";
        "spanning-tree portfast trunk";
        "spanning-tree bpduguard enable" ] ].

(** The inner [for policy in DEVICE_POLICIES] loop with its [break]: the
    policy whose block is appended for neighbor [n], if any. *)
Fixpoint match_policy (n : neighbor) (policies : list device_policy)
  : option device_policy :=
  match policies with
  | [] => None
  | policy :: later =>
      if policy_match policy n then Some policy else match_policy n later
  end.

(** What [config_cmds.extend] receives for a matched policy. *)
Definition policy_block (n : neighbor) (policy : device_policy) : list string :=
  ("interface " +:+ local_intf n) :: policy_config policy ++ ["exit"].

(** The commands one neighbor adds to [config_cmds]. *)
Definition neighbor_cmds (policies : list device_policy) (n : neighbor)
  : list string :=
  match match_policy n policies with
  | Some policy => policy_block n policy
  | None => []
  end.

(** The outer [for n in neighbors] loop. *)
Definition build_config_cmds (policies : list device_policy)
  (neighbors : list neighbor) : list string :=
  foldl (fun config_cmds n => config_cmds ++ neighbor_cmds policies n) [] neighbors.

(** ** Grouping and the per-interface command batch (ap_renamer.py, main) *)

(** [interfaces.setdefault(intf, []).append(dev)] *)
Definition setdefault_append (interfaces : gmap string (list string))
  (intf dev : string) : gmap string (list string) :=
  <[intf := default [] (interfaces !! intf) ++ [dev]]> interfaces.

(** The grouping loop over [aps], a list of (device, interface) pairs. *)
Definition group_by_interface (aps : list (string * string))
  : gmap string (list string) :=
  foldl (fun interfaces '(dev, intf) => setdefault_append interfaces intf dev) ∅ aps.

(** [sorted(interfaces.keys())]: strings ordered by code points. *)
Definition sorted_keys (interfaces : gmap string (list string)) : list string :=
  merge_sort String.le (map_to_list interfaces).*1.

(** [x or y] on values that are [None] or a string. *)
Definition py_or (x y : option string) : option string :=
  match x with
  | Some s => if Str.truthy s then x else y
  | None => y
  end.

(** [interfaces.get(intf, [None])[0]].  Every list stored by the grouping
    loop has received an element, so the empty list is never indexed. *)
Definition first_device (interfaces : gmap string (list string)) (intf : string)
  : option string :=
  match interfaces !! intf with
  | Some devs => head devs
  | None => None
  end.

(** [desc = cdp_map.get(intf) or (interfaces.get(intf, [None])[0])] *)
Definition resolve_desc (cdp_map : gmap string string)
  (interfaces : gmap string (list string)) (intf : string) : option string :=
  py_or (cdp_map !! intf) (first_device interfaces intf).

(** Truthiness of a flag that is [None] or a bool. *)
Definition flag_on (flag : option bool) : bool := default false flag.

(** The description line, under [if do_desc:] and [if desc:]. *)
Definition desc_line (do_desc : bool) (desc : option string) : list string :=
  if do_desc then
    match desc with
    | Some d => if Str.truthy d then ["description " +:+ d] else []
    | None => []
    end
  else [].

(** [cfg_commands] as the apply loop builds it for one interface. *)
Definition cfg_commands (cdp_map : gmap string string)
  (interfaces : gmap string (list string))
  (do_default : option bool) (do_desc : bool) (user_lines : list string)
  (intf : string) : list string :=
  (if flag_on do_default then ["default interface " +:+ intf] else [])
  ++ ["interface " +:+ intf]
  ++ desc_line do_desc (resolve_desc cdp_map interfaces intf)
  ++ user_lines.

(** The interfaces the preview and the apply loop act on: the sorted keys
    that pass the test against the sentinel. *)
Definition planned_interfaces (interfaces : gmap string (list string))
  : list string :=
  filter (fun intf => intf ≠ unknown_interface) (sorted_keys interfaces).

(** The plan as a mapping from interface to its command batch. *)
Definition configuration_plan (cdp_map : gmap string string)
  (interfaces : gmap string (list string))
  (do_default : option bool) (do_desc : bool) (user_lines : list string)
  : list (string * list string) :=
  map (fun intf =>
         (intf, cfg_commands cdp_map interfaces do_default do_desc user_lines intf))
      (planned_interfaces interfaces).

(** ** The interactive run: operator, device session and trace

    The operator's answers are the lines still to be read from standard
    input; reading past the end raises [EOFError], as [input()] does.  The
    device session (netmiko's [ConnectHandler] object) is an oracle: its
    k-th call either returns text or raises.  Every interaction is recorded
    as an event, in the order it happens. *)

Inductive exn_class : Type :=
| EOFError
| NetmikoTimeoutException
| NetmikoAuthenticationException
| OtherException.

(** A raised exception (all four classes derive from [Exception]) with the
    text [str(e)] gives. *)
Record exn : Type := Exn { exn_kind : exn_class; exn_text : string }.

Inductive reply : Type :=
| Reply (out : string)
| Raises (e : exn).

Inductive event : Type :=
| EvPrint (text : string)
| EvInput (prompt : string) (answer : option string)
| EvGetpass (prompt : string) (answer : option string)
| EvConnect (host username password : string)
| EvSendCommand (cmd : string)
| EvSendConfigSet (cmds : list string)
| EvSaveConfig
| EvDisconnect.

(** The variables [main] keeps from one switch to the next. *)
Record session_state : Type := SessionState {
  credentials : option (string * string);
  prev_user_lines : option (list string);
  prev_do_default : option bool;
  prev_do_desc : option bool
}.

Definition session_state_init : session_state :=
  SessionState None None None None.

Record world : Type := World {
  w_stdin : list string;
  w_device : nat -> reply;
  w_calls : nat;
  w_saved : session_state
}.

Inductive result (A : Type) : Type :=
| Val (a : A)
| Raise (e : exn).
Arguments Val {A} a.
Arguments Raise {A} e.

(** A step of the program: its result, the world after it and the events
    it produced. *)
Definition M (A : Type) : Type := world -> result A * world * list event.

Definition outcome {A} (x : result A * world * list event) : result A := x.1.1.
Definition final {A} (x : result A * world * list event) : world := x.1.2.
Definition events {A} (x : result A * world * list event) : list event := x.2.

Definition ret {A} (a : A) : M A := fun w => (Val a, w, []).

Definition bind {A B} (m : M A) (f : A -> M B) : M B :=
  fun w =>
    match m w with
    | (Val a, w1, t1) =>
        match f a w1 with (r, w2, t2) => (r, w2, t1 ++ t2) end
    | (Raise e, w1, t1) => (Raise e, w1, t1)
    end.

#[global] Instance M_ret : MRet M := @ret.
#[global] Instance M_bind : MBind M := fun A B f m => bind m f.

(** [try: m except Exception as e: handler e] *)
Definition catch {A} (m : M A) (handler : exn -> M A) : M A :=
  fun w =>
    match m w with
    | (Val a, w1, t1) => (Val a, w1, t1)
    | (Raise e, w1, t1) =>
        match handler e w1 with (r, w2, t2) => (r, w2, t1 ++ t2) end
    end.

(** [try: m finally: cleanup]; also run when [m] leaves through
    [continue] or [return], which are results of [m] here. *)
Definition try_finally {A} (m : M A) (cleanup : M unit) : M A :=
  fun w =>
    match m w with
    | (r, w1, t1) =>
        match cleanup w1 with
        | (Val _, w2, t2) => (r, w2, t1 ++ t2)
        | (Raise e, w2, t2) => (Raise e, w2, t1 ++ t2)
        end
    end.

(** [for x in xs: body x] *)
Fixpoint mfor {A} (xs : list A) (body : A -> M unit) : M unit :=
  match xs with
  | [] => ret tt
  | x :: rest => body x ;; mfor rest body
  end.

Definition print (text : string) : M unit :=
  fun w => (Val tt, w, [EvPrint text]).

Definition eof_error : exn := Exn EOFError "EOF when reading a line".

Definition set_stdin (w : world) (rest : list string) : world :=
  World rest (w_device w) (w_calls w) (w_saved w).

Definition input (prompt : string) : M string :=
  fun w =>
    match w_stdin w with
    | [] => (Raise eof_error, w, [EvInput prompt None])
    | a :: rest => (Val a, set_stdin w rest, [EvInput prompt (Some a)])
    end.

Definition getpass (prompt : string) : M string :=
  fun w =>
    match w_stdin w with
    | [] => (Raise eof_error, w, [EvGetpass prompt None])
    | a :: rest => (Val a, set_stdin w rest, [EvGetpass prompt (Some a)])
    end.

(** One call on the device session: the oracle's next reply. *)
Definition device_call (ev : event) : M string :=
  fun w =>
    let w' := World (w_stdin w) (w_device w) (S (w_calls w)) (w_saved w) in
    match w_device w (w_calls w) with
    | Reply out => (Val out, w', [ev])
    | Raises e => (Raise e, w', [ev])
    end.

Definition ConnectHandler (host username password : string) : M unit :=
  device_call (EvConnect host username password) ;; mret tt.
Definition send_command (cmd : string) : M string :=
  device_call (EvSendCommand cmd).
Definition send_config_set (cmds : list string) : M string :=
  device_call (EvSendConfigSet cmds).
Definition save_config : M unit := device_call EvSaveConfig ;; mret tt.
Definition disconnect : M unit := device_call EvDisconnect ;; mret tt.

Definition get_saved : M session_state := fun w => (Val (w_saved w), w, []).
Definition put_saved (st : session_state) : M unit :=
  fun w => (Val tt, World (w_stdin w) (w_device w) (w_calls w) st, []).

(** [input(prompt).strip().lower()] *)
Definition ask (prompt : string) : M string :=
  a ← input prompt; mret (Str.lower (Str.strip a)).

(** How a device iteration ends: [continue], [return], or running on to
    the statement after it. *)
Inductive flow : Type := Continue | Return | Next.

(** The closing question of an iteration, with its [continue] and
    [return]. *)
Definition ask_again (prompt : string) : M flow :=
  again ← ask prompt;
  mret (if String.eqb again "y" then Continue else Return).

Definition nl : string := String "010" EmptyString.

(** *** ap_renamer.py, [main]: one turn of the [while True] loop *)

Definition prompt_credentials : M (string * string) :=
  username ← input "Username: ";
  let username := Str.strip username in
  password ← getpass "Password: ";
  st ← get_saved;
  put_saved (SessionState (Some (username, password)) (prev_user_lines st)
                          (prev_do_default st) (prev_do_desc st)) ;;
  mret (username, password).

(** Credentials: reuse or ask. *)
Definition obtain_credentials : M (string * string) :=
  st ← get_saved;
  match credentials st with
  | None => prompt_credentials
  | Some stored =>
      use_creds ← ask "Use previous credentials? [Y/n]: ";
      if String.eqb use_creds "n" then prompt_credentials else mret stored
  end.

(** The loop reading configuration lines until a lone period or the end
    of input: the lines kept, the input left, and the reads made. *)
Fixpoint read_lines (stdin : list string)
  : list string * list string * list event :=
  match stdin with
  | [] => ([], [], [EvInput EmptyString None])
  | line :: rest =>
      if String.eqb (Str.strip line) "."
      then ([], rest, [EvInput EmptyString (Some line)])
      else
        match read_lines rest with
        | (user_lines, rest', evs) =>
            (Str.rstrip line :: user_lines, rest',
             EvInput EmptyString (Some line) :: evs)
        end
  end.

Definition read_user_lines : M (list string) :=
  fun w =>
    match read_lines (w_stdin w) with
    | (user_lines, rest, evs) => (Val user_lines, set_stdin w rest, evs)
    end.

(** What the apply loop needs: [do_desc], [user_lines], [do_default]. *)
Definition config : Type := bool * list string * option bool.

(** An explicit release followed by the closing question, as the four
    early ways out of the [try] block do after their notice. *)
Definition leave_switch (notice : string) : M flow :=
  print notice ;;
  disconnect ;;
  ask_again "Configure another switch? [y/N]: ".

(** Prompting for a new configuration (the source has this block twice,
    for a declined reuse and for no previous configuration). *)
Definition prompt_new_config : M (flow + config) :=
  desc_choice ← ask "Apply CDP neighbor name as interface description? [Y/n]: ";
  let do_desc := negb (String.eqb desc_choice "n") in
  print "Enter the configuration lines to apply to each interface." ;;
  print "End input with a single period '.' on a line by itself." ;;
  user_lines ← read_user_lines;
  let ask_default : M (flow + config) :=
    default_choice ← ask "Default interfaces before applying config? [y/N]: ";
    mret (inr (do_desc, user_lines, Some (String.eqb default_choice "y"))) in
  match user_lines with
  | [] =>
      if do_desc then
        print "No configuration lines provided; will apply CDP description(s) only." ;;
        ask_default
      else
        fl ← leave_switch "No configuration lines provided; nothing to do.";
        mret (inl fl)
  | _ :: _ => ask_default
  end.

(** Decide whether to reuse previous config lines. *)
Definition choose_config : M (flow + config) :=
  st ← get_saved;
  match prev_user_lines st with
  | Some lines =>
      reuse_cfg ← ask "Reuse previous configuration lines? [Y/n]: ";
      if negb (String.eqb reuse_cfg "n")
      then mret (inr (default false (prev_do_desc st), lines, prev_do_default st))
      else prompt_new_config
  | None => prompt_new_config
  end.

(** Optionally save these lines for next switches. *)
Definition save_for_reuse (cfg : config) : M unit :=
  let '(do_desc, user_lines, do_default) := cfg in
  save_cfg ← ask "Save these configuration lines for reuse on next switches? [y/N]: ";
  if String.eqb save_cfg "y" then
    st ← get_saved;
    put_saved (SessionState (credentials st) (Some user_lines) do_default (Some do_desc))
  else mret tt.

(** The report of the interfaces found. *)
Definition report_found (interfaces : gmap string (list string)) : M unit :=
  let total_aps := sum_list (length <$> (map_to_list interfaces).*2) in
  print ("Found " +:+ Str.of_nat total_aps +:+ " AP(s).") ;;
  print "Interfaces with APs:" ;;
  mfor (sorted_keys interfaces) (fun intf =>
    mfor (default [] (interfaces !! intf)) (fun d =>
      print ("  " +:+ intf +:+ " - " +:+ d))).

(** Show planned commands. *)
Definition preview (cdp_map : gmap string string)
  (interfaces : gmap string (list string)) (cfg : config) : M unit :=
  let '(do_desc, user_lines, do_default) := cfg in
  print (nl +:+ "Planned changes for each interface:") ;;
  mfor (sorted_keys interfaces) (fun intf =>
    if String.eqb intf unknown_interface then
      print "  Skipping unknown interface"
    else
      (if flag_on do_default then print ("  default interface " +:+ intf)
       else mret tt) ;;
      print ("  interface " +:+ intf) ;;
      mfor (desc_line do_desc (resolve_desc cdp_map interfaces intf))
           (fun l => print ("    " +:+ l)) ;;
      mfor user_lines (fun l => print ("    " +:+ l))).

(** Apply changes per interface. *)
Definition apply_interface (cdp_map : gmap string string)
  (interfaces : gmap string (list string)) (cfg : config) (intf : string)
  : M unit :=
  let '(do_desc, user_lines, do_default) := cfg in
  if String.eqb intf unknown_interface then
    print "Skipping unknown interface"
  else
    print (nl +:+ "Applying changes to " +:+ intf +:+ "...") ;;
    catch
      (send_config_set
         (cfg_commands cdp_map interfaces do_default do_desc user_lines intf) ;;
       print ("Applied " +:+ Str.of_nat (length user_lines)
              +:+ " config lines to " +:+ intf))
      (fun e => print ("Error configuring " +:+ intf +:+ ": " +:+ exn_text e)).

Definition apply_changes (cdp_map : gmap string string)
  (interfaces : gmap string (list string)) (cfg : config) : M unit :=
  mfor (sorted_keys interfaces) (apply_interface cdp_map interfaces cfg).

(** From the configuration choice to the end of the [try] block. *)
Definition configure (cdp_map : gmap string string)
  (interfaces : gmap string (list string)) : M flow :=
  chosen ← choose_config;
  match chosen with
  | inl fl => mret fl
  | inr cfg =>
      save_for_reuse cfg ;;
      preview cdp_map interfaces cfg ;;
      confirm ← ask "Proceed with applying these changes? [y/N]: ";
      if negb (String.eqb confirm "y") then leave_switch "Cancelled by user."
      else
        apply_changes cdp_map interfaces cfg ;;
        print "Configuration complete." ;;
        mret Next
  end.

(** The body of the [try] block. *)
Definition session_body : M flow :=
  output ← send_command "show power inline";
  let aps := find_aps_in_cdp output in
  match aps with
  | [] => leave_switch "No APs found with 'AIR-' or 'C91' in power inline."
  | _ :: _ =>
      let interfaces := group_by_interface aps in
      cdp_map ← catch
        (cdp_detail ← send_command "show cdp neighbors detail";
         mret (parse_cdp_neighbors_detail cdp_detail))
        (fun _ => mret ∅);
      report_found interfaces ;;
      proceed ← ask "Configure these interfaces? [y/N]: ";
      if negb (String.eqb proceed "y")
      then leave_switch "Skipping configuration on this switch."
      else configure cdp_map interfaces
  end.

(** The [finally] clause: a disconnect whose own failure is passed over. *)
Definition release : M unit := catch disconnect (fun _ => mret tt).

(** The [try ... finally] statement: the scope of an open session. *)
Definition session_scope : M flow := try_finally session_body release.

Definition connection_failed (e : exn) : M flow :=
  match exn_kind e with
  | NetmikoTimeoutException | NetmikoAuthenticationException =>
      print ("Connection error: " +:+ exn_text e)
  | _ => print ("Unexpected error: " +:+ exn_text e)
  end ;;
  ask_again "Try another switch? [y/N]: ".

Definition main_iteration : M flow :=
  ip ← input "Switch IP (blank to exit): ";
  let ip := Str.strip ip in
  if Str.is_empty ip then print "Exiting." ;; mret Return
  else
    '(username, password) ← obtain_credentials;
    ssh ← catch (ConnectHandler ip username password ;; mret None)
                (fun e => mret (Some e));
    match ssh with
    | Some e => connection_failed e
    | None =>
        fl ← session_scope;
        match fl with
        | Next => ask_again "Configure another switch? [y/N]: "
        | _ => mret fl
        end
    end.

(** The [while True] loop; every turn reads at least the switch address,
    so one turn more than there are input lines is never exceeded. *)
Fixpoint main_loop (turns : nat) : M unit :=
  match turns with
  | O => mret tt
  | S k =>
      fl ← main_iteration;
      match fl with
      | Continue => main_loop k
      | _ => mret tt
      end
  end.

Definition main : M unit :=
  fun w => main_loop (S (length (w_stdin w))) w.

(** *** lldp_renamer.py, [main]: one switch, no exception handling *)

Definition match_notice (n : neighbor) (policy : device_policy) : string :=
  "Matched " +:+ policy_name policy +:+ " on " +:+ local_intf n
  +:+ " (system: " +:+ system_name n +:+ ")".

(** The loop over the neighbors, with the notice printed at each match. *)
Fixpoint match_neighbors (policies : list device_policy)
  (neighbors : list neighbor) (config_cmds : list string) : M (list string) :=
  match neighbors with
  | [] => mret config_cmds
  | n :: rest =>
      match match_policy n policies with
      | Some policy =>
          print (match_notice n policy) ;;
          match_neighbors policies rest (config_cmds ++ policy_block n policy)
      | None => match_neighbors policies rest config_cmds
      end
  end.

(** What [main] does once the session is open. *)
Definition lldp_session : M unit :=
  print "Collecting LLDP neighbors..." ;;
  lldp_output ← send_command "show lldp neighbors detail";
  let neighbors := parse_lldp_neighbors lldp_output in
  match neighbors with
  | [] => print "No LLDP neighbors found." ;; disconnect
  | _ :: _ =>
      config_cmds ← match_neighbors DEVICE_POLICIES neighbors [];
      match config_cmds with
      | [] => print "No matching device policies found." ;; disconnect
      | _ :: _ =>
          print (nl +:+ "Applying configuration...") ;;
          out ← send_config_set config_cmds;
          print out ;;
          save_config ;;
          disconnect ;;
          print (nl +:+ "Done.")
      end
  end.

(** [sys.exit(0)] on a blank address ends the run. *)
Definition lldp_main : M unit :=
  ip ← input "Switch IP (blank to exit): ";
  let ip := Str.strip ip in
  if Str.is_empty ip then mret tt
  else
    username ← input "Username: ";
    password ← getpass "Password: ";
    print (nl +:+ "Connecting to switch...") ;;
    ConnectHandler ip username password ;;
    lldp_session.

(** ** The earlier tool's [main] (ap_renamer1.py) *)

(** *** [repr] of a list of [str], as an f-string renders it *)

Module Repr.

Definition single_quote : ascii := "039".
Definition double_quote : ascii := "034".
Definition backslash : ascii := "092".

(** [str.isprintable] on one character. *)
Definition printable (c : ascii) : bool :=
  Chr.between 32 126 c || Chr.between 161 172 c || Chr.between 174 255 c.

Definition hex_digit (n : N) : ascii :=
  if (n <? 10)%N then ascii_of_N (48 + n) else ascii_of_N (87 + n).

(** The two-digit escape of a character that is not printable. *)
Definition hex_escape (c : ascii) : string :=
  String backslash
    (String "x"
       (String (hex_digit (Chr.code c / 16))
          (String (hex_digit (Chr.code c mod 16)) EmptyString))).

Definition escape (quote c : ascii) : string :=
  if Ascii.eqb c quote || Ascii.eqb c backslash
  then String backslash (String c EmptyString)
  else if (Chr.code c =? 9)%N then String backslash "t"
  else if (Chr.code c =? 10)%N then String backslash "n"
  else if (Chr.code c =? 13)%N then String backslash "r"
  else if printable c then String c EmptyString
  else hex_escape c.

Fixpoint escape_all (quote : ascii) (s : string) : string :=
  match s with
  | EmptyString => EmptyString
  | String c s' => escape quote c +:+ escape_all quote s'
  end.

Fixpoint has_char (q : ascii) (s : string) : bool :=
  match s with
  | EmptyString => false
  | String c s' => Ascii.eqb c q || has_char q s'
  end.

(** Single quotes, unless the text holds one and no double quote. *)
Definition quote_of (s : string) : ascii :=
  if has_char single_quote s && negb (has_char double_quote s)
  then double_quote else single_quote.

(** [repr(s)] *)
Definition repr_str (s : string) : string :=
  let q := quote_of s in
  String q (escape_all q s +:+ String q EmptyString).

Fixpoint join (sep : string) (l : list string) : string :=
  match l with
  | [] => EmptyString
  | [x] => x
  | x :: rest => x +:+ sep +:+ join sep rest
  end.

(** [repr(l)] for a list of [str] *)
Definition repr_list (l : list string) : string :=
  "[" +:+ join ", " (map repr_str l) +:+ "]".

End Repr.

(** What [config_cmds.extend] receives for one interface. *)
Definition ap1_block (intf : string) : list string :=
  [ "interface " +:+ intf;
    "description Arista_AP_Config_tool";
    "switchport trunk allowed vlan 1,4091";
    "switchport mode trunk";
    "power inline auto";
    "spanning-tree portfast trunk";
    "spanning-tree bpduguard enable";
    "exit" ].

(** The list comprehension: the interfaces whose description names the
    access-point model. *)
Definition ap1_interfaces (neighbors : list ApRenamer1.neighbor1) : list string :=
  ApRenamer1.local_intf1 <$>
    filter (fun n => Str.contains "ARISTA AP C-130"
                                  (ApRenamer1.system_description1 n) = true)
           neighbors.

(** The loop [for intf in ap_interfaces]. *)
Definition ap1_config_cmds (ap_interfaces : list string) : list string :=
  foldl (fun config_cmds intf => config_cmds ++ ap1_block intf) [] ap_interfaces.

(** What [main] does once the session is open. *)
Definition ap1_session : M unit :=
  print "Collecting LLDP neighbors..." ;;
  lldp_output ← send_command "show lldp neighbors detail";
  let neighbors := ApRenamer1.parse_lldp_neighbors1 lldp_output in
  let ap_interfaces := ap1_interfaces neighbors in
  match ap_interfaces with
  | [] => print "No Arista APs found via LLDP." ;; disconnect
  | _ :: _ =>
      print (nl +:+ "Found Arista APs on interfaces: "
             +:+ Repr.repr_list ap_interfaces) ;;
      let config_cmds := ap1_config_cmds ap_interfaces in
      print (nl +:+ "Applying configuration...") ;;
      out ← send_config_set config_cmds;
      print out ;;
      save_config ;;
      disconnect ;;
      print (nl +:+ "Done.")
  end.

(** [sys.exit(0)] on a blank address ends the run. *)
Definition ap1_main : M unit :=
  ip ← input "Switch IP (blank to exit): ";
  let ip := Str.strip ip in
  if Str.is_empty ip then mret tt
  else
    username ← input "Username: ";
    password ← getpass "Password: ";
    print (nl +:+ "Connecting to switch...") ;;
    ConnectHandler ip username password ;;
    ap1_session.

(** * Specification-side definitions

    The definitions of this part follow the wording of the specification;
    the theorems compare them with the embedded code above. *)

(** ** Interface Name Normalizer (specification 4.1) *)

(** A slot path: digits, then any number of groups of a slash and digits. *)
Inductive slot_path : string -> Prop :=
| slot_last (c : ascii) :
    Chr.is_digit c = true -> slot_path (String c EmptyString)
| slot_digit (c : ascii) (s : string) :
    Chr.is_digit c = true -> slot_path s -> slot_path (String c s)
| slot_group (c : ascii) (s : string) :
    Chr.is_digit c = true -> slot_path s ->
    slot_path (String c (String "/" s)).

(** No digit occurs in [s]. *)
Fixpoint digit_free (s : string) : bool :=
  match s with
  | EmptyString => true
  | String c s' => negb (Chr.is_digit c) && digit_free s'
  end.

(** What follows a maximal slot path: neither a digit, nor a slash and a
    digit. *)
Definition run_ends (post : string) : bool :=
  match post with
  | EmptyString => true
  | String c EmptyString => negb (Chr.is_digit c)
  | String c (String d _) =>
      negb (Chr.is_digit c) && negb (Ascii.eqb c "/" && Chr.is_digit d)
  end.

(** The prefix rules in their precedence, on the lower-cased token [low];
    [token] is the trimmed original, returned when no rule applies. *)
Definition classify_prefix (low nums token : string) : string :=
  if Str.contains "gig" low || Str.startswith "gi" low
  then "GigabitEthernet" +:+ nums
  else if Str.contains "ten" low || Str.startswith "te" low
  then "TenGigabitEthernet" +:+ nums
  else if Str.contains "fast" low || Str.startswith "fa" low
  then "FastEthernet" +:+ nums
  else token.

(** ** CDP neighbor detail as a state machine (specification 4.2, 9) *)

(** The single-slot register: idle, or holding a device identity. *)
Inductive cdp_register : Type :=
| Idle
| HaveDeviceId (device_id : string).

(** The classification of a line that drives the transitions; the values
    are trimmed. *)
Inductive cdp_line : Type :=
| DeviceIdLine (value : string)
| InterfaceLine (value : string)
| OtherLine.

Definition classify_cdp_line (line : string) : cdp_line :=
  match device_re_match line with
  | Some g => DeviceIdLine (Str.strip g)
  | None =>
      match if_re_match line with
      | Some g => InterfaceLine (Str.strip g)
      | None => OtherLine
      end
  end.

(** A device-id line sets the register; a value that is blank leaves no
    device identity in it. *)
Definition set_register (value : string) : cdp_register :=
  if Str.is_empty value then Idle else HaveDeviceId value.

(** The machine: the entries it emits, in the order of the text. *)
Fixpoint cdp_machine (reg : cdp_register) (lines : list string)
  : list (string * string) :=
  match lines with
  | [] => []
  | line :: rest =>
      match classify_cdp_line line with
      | DeviceIdLine value => cdp_machine (set_register value) rest
      | InterfaceLine value =>
          match reg with
          | HaveDeviceId device_id =>
              (normalize_interface_name value, device_id) :: cdp_machine Idle rest
          | Idle => cdp_machine Idle rest
          end
      | OtherLine => cdp_machine reg rest
      end
  end.

(** Entries written into a mapping one after the other: a later entry for
    a key replaces the earlier one. *)
Definition write_entries (m : gmap string string) (entries : list (string * string))
  : gmap string string :=
  foldl (fun m e => <[e.1 := e.2]> m) m entries.

(** The text of the specification's example, two lines. *)
Definition cdp_detail_example : string :=
  "Device ID: SW-CORE-1" +:+ String "010"
  "  Interface: GigabitEthernet1/0/1,  Port ID (outgoing port): Gi0/1".

(** Two blocks that name the same interface, in its short and long form. *)
Definition cdp_detail_two_blocks : string :=
  "Device ID: AP-OLD" +:+ String "010"
  "  Interface: Gi1/0/1,  Port ID (outgoing port): Gi0" +:+ String "010"
  "Device ID: AP-NEW" +:+ String "010"
  "  Interface: GigabitEthernet1/0/1,  Port ID (outgoing port): Gi0".

(** ** LLDP detail blocks (specification 4.2) *)

(** The line, once trimmed, starts with the field label. *)
Definition is_field (label line : string) : bool :=
  Str.startswith label (Str.strip line).

(** The values of the lines carrying [label], in the order of the block. *)
Fixpoint field_values (label : string) (lines : list string) : list string :=
  match lines with
  | [] => []
  | l :: rest =>
      if is_field label l
      then field_after label (Str.strip l) :: field_values label rest
      else field_values label rest
  end.

(** The first non-empty line among [following], trimmed. *)
Definition first_nonempty (following : list string) : option string :=
  head (filter (fun l => l ≠ EmptyString) (map Str.strip following)).

(** For every description label line that has a non-empty line after it,
    that line: the candidates for the system description, in order. *)
Fixpoint description_values (lines : list string) : list string :=
  match lines with
  | [] => []
  | l :: following =>
      (if is_field "System Description:" l
       then option_list (first_nonempty following)
       else [])
      ++ description_values following
  end.

(** The record of a block whose lines are [lines]: present when the last
    local-interface field has a non-empty value; name and description are
    the last value found, or the empty string. *)
Definition block_record (lines : list string) : option neighbor :=
  match last (field_values "Local Intf:" lines) with
  | Some intf =>
      if Str.truthy intf then
        Some (Neighbor intf
                (default EmptyString (last (field_values "System Name:" lines)))
                (default EmptyString (last (description_values lines))))
      else None
  | None => None
  end.

(** The earlier parser keeps a record only with a non-empty description. *)
Definition block_record1 (lines : list string) : option ApRenamer1.neighbor1 :=
  match block_record lines with
  | Some r =>
      if Str.truthy (system_description r)
      then Some (ApRenamer1.Neighbor1 (local_intf r) (system_description r))
      else None
  | None => None
  end.

(** Sample LLDP texts: a block whose description label carries text of its
    own before the value line, and a block with no line after the label. *)
Definition lldp_block_example : string :=
  "Local Intf: Gi1/0/24" +:+ String "010"
  "System Name: AP-ROOF-3" +:+ String "010"
  "System Description: on the label line" +:+ String "010"
  "   " +:+ String "010"
  "  ARISTA AP C-130".

Definition lldp_block_label_only : string :=
  "Local Intf: Gi1/0/24" +:+ String "010"
  "System Description: ARISTA AP C-130".

(** ** Configuration plan (specification 4.4) *)

(** The device identities observed for [intf] in the summary scan, in the
    order of the scan. *)
Definition devices_seen (aps : list (string * string)) (intf : string)
  : list string :=
  (filter (fun p => p.2 = intf) aps).*1.

(** The summary lines and the detail mapping of the specification's
    end-to-end scenario. *)
Definition scenario_summary : string :=
  "Gi1/0/1   auto   on   15.4   AIR-AP1815   4   30.0" +:+ String "010"
  "Gi1/0/2   auto   on   15.4   C9115   4   30.0".

Definition scenario_detail_map : gmap string string :=
  {[ "GigabitEthernet1/0/1" := "lobby-ap" ]}.

(** ** Preview and apply phase (specification 4.5) *)

(** Calls on the device session, as opposed to prompts and notices. *)
Definition is_device_event (e : event) : bool :=
  match e with
  | EvConnect _ _ _ | EvSendCommand _ | EvSendConfigSet _
  | EvSaveConfig | EvDisconnect => true
  | EvPrint _ | EvInput _ _ | EvGetpass _ _ => false
  end.

Definition device_events (t : list event) : list event :=
  filter (fun e => is_device_event e = true) t.

(** The lines of the preview for one interface. *)
Definition preview_lines (cdp_map : gmap string string)
  (interfaces : gmap string (list string)) (cfg : config) (intf : string)
  : list string :=
  let '(do_desc, user_lines, do_default) := cfg in
  if String.eqb intf unknown_interface then ["  Skipping unknown interface"]
  else
    (if flag_on do_default then ["  default interface " +:+ intf] else [])
    ++ ["  interface " +:+ intf]
    ++ map (fun l => "    " +:+ l)
           (desc_line do_desc (resolve_desc cdp_map interfaces intf))
    ++ map (fun l => "    " +:+ l) user_lines.

(** The rendered preview, line by line. *)
Definition preview_text (cdp_map : gmap string string)
  (interfaces : gmap string (list string)) (cfg : config) : list string :=
  (nl +:+ "Planned changes for each interface:")
  :: concat (map (preview_lines cdp_map interfaces cfg) (sorted_keys interfaces)).

(** The notice that closes the attempt on one interface, by the reply of
    the device to the batch. *)
Definition apply_notice (user_lines : list string) (intf : string) (r : reply)
  : string :=
  match r with
  | Reply _ =>
      "Applied " +:+ Str.of_nat (length user_lines) +:+ " config lines to " +:+ intf
  | Raises e => "Error configuring " +:+ intf +:+ ": " +:+ exn_text e
  end.

(** The events of the apply loop over [keys], when the next call on the
    device is its call number [calls]. *)
Fixpoint apply_events (cmds_of : string -> list string) (user_lines : list string)
  (device : nat -> reply) (calls : nat) (keys : list string) : list event :=
  match keys with
  | [] => []
  | intf :: rest =>
      if String.eqb intf unknown_interface then
        EvPrint "Skipping unknown interface"
        :: apply_events cmds_of user_lines device calls rest
      else
        EvPrint (nl +:+ "Applying changes to " +:+ intf +:+ "...")
        :: EvSendConfigSet (cmds_of intf)
        :: EvPrint (apply_notice user_lines intf (device calls))
        :: apply_events cmds_of user_lines device (S calls) rest
  end.

(** ** Release of the device session (specification 4.5, 5) *)

Definition is_disconnect (e : event) : bool :=
  match e with
  | EvDisconnect => true
  | _ => false
  end.

(** How many times [disconnect] was called in a trace. *)
Definition disconnects (t : list event) : nat :=
  length (filter (fun e => is_disconnect e = true) t).

(** A result that left the [try] block through [continue] or [return]. *)
Definition early_flow (fl : flow) : bool :=
  match fl with
  | Next => false
  | Continue | Return => true
  end.

Definition early_choice (c : flow + config) : bool :=
  match c with
  | inl fl => early_flow fl
  | inr _ => false
  end.

(** A run of [session_scope] in which no neighbor is found: the operator
    answers the closing question with n and the device returns empty
    output to every call. *)
Definition world_no_neighbors : world :=
  World ["n"] (fun _ => Reply EmptyString) 0 session_state_init.

(** A run of [lldp_session] whose first command on the session raises. *)
Definition world_command_fails : world :=
  World [] (fun _ => Raises (Exn OtherException "timed out")) 0 session_state_init.

(** The end-to-end scenario of the specification as one run of [main]: the
    detail text names the neighbor of the first port, the operator asks for
    the description, one line and a defaulted interface, and the device
    raises on the first batch. *)
Definition scenario_detail : string :=
  "Device ID: lobby-ap" +:+ String "010"
  "  Interface: GigabitEthernet1/0/1,  Port ID (outgoing port): Gi0".

Definition scenario_device (call : nat) : reply :=
  match call with
  | 1 => Reply scenario_summary
  | 2 => Reply scenario_detail
  | 3 => Raises (Exn OtherException "timed out")
  | _ => Reply EmptyString
  end.

Definition world_first_batch_fails : world :=
  World ["10.0.0.1"; "admin"; "secret"; "y"; ""; "switchport mode access"; ".";
         "y"; "n"; "y"; "n"]
        scenario_device 0 session_state_init.

(** ** Persisted session state (specification 3, 4.5) *)

Definition save_prompt : string :=
  "Save these configuration lines for reuse on next switches? [y/N]: ".

Definition reuse_credentials_prompt : string :=
  "Use previous credentials? [Y/n]: ".

(** The stored configuration: lines and the two toggles. *)
Definition saved_config (st : session_state)
  : option (list string) * option bool * option bool :=
  (prev_user_lines st, prev_do_default st, prev_do_desc st).

(** The answer, as the program reads it, is [lit]. *)
Definition answers (lit a : string) : Prop := Str.lower (Str.strip a) = lit.

(** Over a stretch of a run the stored configuration is unchanged, unless
    the save prompt was answered with y in it. *)
Definition config_saved_on_request (w w' : world) (t : list event) : Prop :=
  saved_config (w_saved w') = saved_config (w_saved w)
  \/ exists a, EvInput save_prompt (Some a) ∈ t /\ answers "y" a.

(** Over a stretch of a run the stored credentials are unchanged, unless
    none were stored or their reuse was declined; they are then the
    credentials typed. *)
Definition credentials_replaced_when_typed (w w' : world) (t : list event) : Prop :=
  credentials (w_saved w') = credentials (w_saved w)
  \/ ((credentials (w_saved w) = None
       \/ exists a, EvInput reuse_credentials_prompt (Some a) ∈ t /\ answers "n" a)
      /\ exists u p,
           EvInput "Username: " (Some u) ∈ t /\
           EvGetpass "Password: " (Some p) ∈ t /\
           credentials (w_saved w') = Some (Str.strip u, p)).

(** A turn of the loop with stored credentials whose reuse the operator
    declines; the connection then fails and the operator stops. *)
Definition world_new_credentials : world :=
  World ["10.0.0.1"; "n"; "root"; "new-secret"; "n"]
        (fun _ => Raises (Exn NetmikoTimeoutException "timed out"))
        0
        (SessionState (Some ("admin", "old-secret")) None None None).


(** * Notions used in the proofs *)

(** A line given by [splitlines] holds no line boundary, in particular no
    newline: on such lines the dot of a regular expression matches every
    character. *)
Fixpoint no_linebreak (s : string) : bool :=
  match s with
  | EmptyString => true
  | String c s' => negb (Chr.is_linebreak c) && no_linebreak s'
  end.

(** The characters of a slot path are digits and slashes. *)
Definition slot_char (c : ascii) : bool := Chr.is_digit c || Ascii.eqb c "/".

(** [s] consists of digits and slashes. *)
Fixpoint all_slot_chars (s : string) : bool :=
  match s with
  | EmptyString => true
  | String c s' => slot_char c && all_slot_chars s'
  end.

(** The register of the code, read as a state of the machine. *)
Definition register_of (current_device : option string) : cdp_register :=
  match current_device with
  | Some dev => set_register dev
  | None => Idle
  end.

(** The last value found, or the value held before. *)
Definition pick_last {A} (found : list A) (before : A) : A :=
  default before (last found).

(** The world after one more call on the device. *)
Definition called (w : world) : world :=
  World (w_stdin w) (w_device w) (S (w_calls w)) (w_saved w).

(** The flow chosen by an answer to a closing question. *)
Definition again_flow (a : string) : flow :=
  if String.eqb (Str.lower (Str.strip a)) "y" then Continue else Return.

(** A relation between the world before a step, the world after it and
    the events in between, which holds of a step that does nothing and
    composes along consecutive steps. *)
Class TraceRel (R : world -> world -> list event -> Prop) : Prop := {
  rel_nothing : forall w, R w w [];
  rel_compose : forall w w1 w2 t1 t2,
    R w w1 t1 -> R w1 w2 t2 -> R w w2 (t1 ++ t2)
}.

(** Every run of [m] is in the relation. *)
Definition holds (R : world -> world -> list event -> Prop) {A} (m : M A) : Prop :=
  forall w, R w (final (m w)) (events (m w)).

(** Steps whose events all satisfy [P], whatever they do to the world. *)
Definition emitting (P : event -> Prop) : world -> world -> list event -> Prop :=
  fun _ _ t => Forall P t.

(** No [disconnect] is called. *)
Abbreviation quiet := (emitting (fun e => is_disconnect e = false)).

(** A program that has released the session once exactly when its result
    is an early way out, and at most once when it raises. *)
Definition releases_once_if {A} (early : A -> bool) (m : M A) : Prop :=
  forall w,
    match outcome (m w) with
    | Val a => disconnects (events (m w)) = if early a then 1 else 0
    | Raise _ => disconnects (events (m w)) <= 1
    end.

(** No call is made on the device session. *)
Abbreviation offline := (emitting (fun e => is_device_event e = false)).

(** Relations that hold of every step leaving the stored state alone. *)
Class KeepsRel (R : world -> world -> list event -> Prop) : Prop :=
  keeps_rel : forall w w' t, w_saved w' = w_saved w -> R w w' t.

(** The input left never grows. *)
Definition input_consumed (w w' : world) (_ : list event) : Prop :=
  length (w_stdin w') <= length (w_stdin w).


(** * Notions of the further properties *)

(** No character of [s] is white space. *)
Fixpoint no_space (s : string) : bool :=
  match s with
  | EmptyString => true
  | String c s' => negb (Chr.is_space c) && no_space s'
  end.

(** The text after a token ends the token: nothing, or white space. *)
Definition token_ends (post : string) : Prop :=
  post = EmptyString \/ exists c r, post = String c r /\ Chr.is_space c = true.

(** The lines of a detail text on which the device-id pattern matches. *)
Definition device_id_lines (output : string) : list string :=
  filter (fun line => is_Some (device_re_match line)) (Str.splitlines output).

(** The line of the report for one pair of the summary scan. *)
Definition report_line (ap : string * string) : string :=
  "  " +:+ ap.2 +:+ " - " +:+ ap.1.

(** The pairs held by a grouping, read key by key along [keys]. *)
Definition grouped_pairs (interfaces : gmap string (list string))
  (keys : list string) : list (string * string) :=
  keys ≫= (fun intf => (fun dev => (dev, intf)) <$> default [] (interfaces !! intf)).

(** A line of the preview shows a command: the command after two or four
    spaces. *)
Definition shows (shown cmd : string) : Prop :=
  shown = "  " +:+ cmd \/ shown = "    " +:+ cmd.

(** ** Notions on traces *)

Definition is_connect (e : event) : bool :=
  match e with
  | EvConnect _ _ _ => true
  | _ => false
  end.

Definition is_config_set (e : event) : bool :=
  match e with
  | EvSendConfigSet _ => true
  | _ => false
  end.

(** No batch of configuration commands is sent. *)
Abbreviation silent := (emitting (fun e => is_config_set e = false)).

(** No connection is opened. *)
Abbreviation connectionless := (emitting (fun e => is_connect e = false)).

Definition configure_prompt : string := "Configure these interfaces? [y/N]: ".

Definition proceed_prompt : string :=
  "Proceed with applying these changes? [y/N]: ".

(** Every batch of the trace comes after a y given at [prompt]. *)
Definition confirmed_at (prompt : string) (t : list event) : Prop :=
  forall i cmds,
    t !! i = Some (EvSendConfigSet cmds) ->
    exists j a,
      j < i /\ t !! j = Some (EvInput prompt (Some a)) /\ answers "y" a.

Definition confirmed_by (prompt : string) (_ _ : world) (t : list event) : Prop :=
  confirmed_at prompt t.

(** Every batch of the trace comes after a y given at [prompt] on the
    switch it is sent to: the y lies between the batch and the last
    connection opened before it. *)
Definition confirmed_since_connect (prompt : string) (t : list event) : Prop :=
  forall i cmds,
    t !! i = Some (EvSendConfigSet cmds) ->
    exists c j a,
      c < j < i
      /\ (exists ip username password,
            t !! c = Some (EvConnect ip username password))
      /\ (forall k e, c < k < i -> t !! k = Some e -> is_connect e = false)
      /\ t !! j = Some (EvInput prompt (Some a)) /\ answers "y" a.

Definition confirmed_on_switch (prompt : string) (_ _ : world) (t : list event)
  : Prop :=
  confirmed_since_connect prompt t.

(** What [main] of ap_renamer.py may ask of a session besides opening it,
    sending batches and closing it: the two show commands. *)
Definition read_only_call (e : event) : Prop :=
  match e with
  | EvSaveConfig => False
  | EvSendCommand cmd =>
      cmd = "show power inline" \/ cmd = "show cdp neighbors detail"
  | _ => True
  end.

(** ** Notions on the stored state *)

(** The stored credentials are left as they are. *)
Definition credentials_kept (w w' : world) (_ : list event) : Prop :=
  credentials (w_saved w') = credentials (w_saved w).

(** Whenever configuration lines are stored, so are both toggles. *)
Definition toggles_stored (st : session_state) : Prop :=
  is_Some (prev_user_lines st) ->
  is_Some (prev_do_default st) /\ is_Some (prev_do_desc st).

Definition toggles_kept (w w' : world) (_ : list event) : Prop :=
  toggles_stored (w_saved w) -> toggles_stored (w_saved w').

(** A property of the value a program returns, if it returns one. *)
Definition returns {A} (Q : A -> Prop) (m : M A) : Prop :=
  forall w,
    match outcome (m w) with
    | Val a => Q a
    | Raise _ => True
    end.

(** The default toggle of a chosen configuration is a bool, not [None]. *)
Definition default_chosen (chosen : flow + config) : Prop :=
  match chosen with
  | inl _ => True
  | inr (_, _, do_default) => is_Some do_default
  end.

(** A world in which lines and toggles are stored, at the question whether
    to reuse them. *)
Definition world_stored_config : world :=
  World ["y"; "n"; "n"; "n"] (fun _ => Reply EmptyString) 0
        (SessionState (Some ("admin", "secret")) (Some ["switchport mode access"])
                      (Some true) (Some false)).

(** ** Runs that cannot be told apart *)

(** Two worlds with the same input, stored state and number of calls
    made, whose sessions give the same replies to the calls still to come. *)
Definition same_from (w1 w2 : world) : Prop :=
  w_stdin w1 = w_stdin w2 /\ w_calls w1 = w_calls w2 /\ w_saved w1 = w_saved w2
  /\ forall k, w_calls w1 <= k -> w_device w1 k = w_device w2 k.

(** A program that runs alike in such worlds. *)
Definition uniform {A} (m : M A) : Prop :=
  forall w1 w2,
    same_from w1 w2 ->
    outcome (m w1) = outcome (m w2) /\ events (m w1) = events (m w2)
    /\ same_from (final (m w1)) (final (m w2)).

(** The world whose session gives [r] to call number [call]. *)
Definition with_reply (w : world) (call : nat) (r : reply) : world :=
  World (w_stdin w)
        (fun k => if decide (k = call) then r else w_device w k)
        (w_calls w) (w_saved w).

(** A session on which the summary names two devices and the detail
    command raises; the operator declines to configure. *)
Definition world_detail_fails : world :=
  World ["n"; "n"]
        (fun call =>
           match call with
           | 0 => Reply scenario_summary
           | 1 => Raises (Exn OtherException "timed out")
           | _ => Reply EmptyString
           end)
        0 session_state_init.

(** ** Notions on the LLDP tools *)

(** The notices of the matching loop: one for each neighbor some policy
    matches. *)
Definition match_notices (policies : list device_policy)
  (neighbors : list neighbor) : list string :=
  omap (fun n => match_notice n <$> match_policy n policies) neighbors.

(** The calls of a completed session that found the commands [cmds] to
    send: the neighbor command, then either the disconnect alone or the
    batch, the saving of the configuration and the disconnect. *)
Definition session_calls (cmds : list string) : list event :=
  EvSendCommand "show lldp neighbors detail"
  :: match cmds with
     | [] => [EvDisconnect]
     | _ :: _ => [EvSendConfigSet cmds; EvSaveConfig; EvDisconnect]
     end.

(** The end of both LLDP tools once there are commands to send. *)
Definition send_and_save (config_cmds : list string) : M unit :=
  print (nl +:+ "Applying configuration...") ;;
  out ← send_config_set config_cmds;
  print out ;;
  save_config ;;
  disconnect ;;
  print (nl +:+ "Done.").

(** The record of the earlier parser for a record of the later one. *)
Definition earlier_record (r : neighbor) : option ApRenamer1.neighbor1 :=
  if Str.truthy (system_description r)
  then Some (ApRenamer1.Neighbor1 (local_intf r) (system_description r))
  else None.

(** A neighbor on which the two tools decide alike: it is not the leaf
    switch, and if it is an access point it is one of the model the
    earlier tool looks for. *)
Definition plain_neighbor (n : neighbor) : Prop :=
  system_name n ≠ "LEAF1"
  /\ (Str.contains "ARISTA AP" (system_description n) = true ->
      Str.contains "ARISTA AP C-130" (system_description n) = true).

(** A neighbor output with the leaf switch on one port and an access point
    on another, and a session that returns it. *)
Definition lldp_leaf_output : string :=
  "Local Intf: Et1" +:+ String "010"
  "System Name: LEAF1" +:+ String "010"
  "System Description:" +:+ String "010"
  "  Arista Networks EOS" +:+ String "010"
  lldp_separator +:+ String "010"
  "Local Intf: Et2" +:+ String "010"
  "System Name: AP-7" +:+ String "010"
  "System Description:" +:+ String "010"
  "  ARISTA AP C-130".

Definition world_lldp_leaf : world :=
  World [] (fun call => match call with
                        | 0 => Reply lldp_leaf_output
                        | _ => Reply EmptyString
                        end)
        0 session_state_init.


(** A step that leaves the session as it is. *)
Definition session_untouched (w w' : world) (_ : list event) : Prop :=
  w_device w' = w_device w /\ w_calls w' = w_calls w.


(** ** Notions on failures *)

(** A program that raises nothing but the end of input. *)
Definition only_eof {A} (m : M A) : Prop :=
  forall w e, outcome (m w) = Raise e -> e = eof_error.

(** Each call on the session is a device event of the trace. *)
Definition calls_counted (w w' : world) (t : list event) : Prop :=
  w_device w' = w_device w
  /\ w_calls w' = w_calls w + length (device_events t).

(** The calls whose failure is passed on by the [try] block. *)
Definition fatal_call (ev : event) : Prop :=
  ev = EvSendCommand "show power inline" \/ ev = EvDisconnect.

(** A program that raises, besides the end of input, only what the
    session raised at a fatal call, the last event of the run. *)
Definition aborts_on_fatal {A} (m : M A) : Prop :=
  forall w e,
    outcome (m w) = Raise e ->
    e = eof_error
    \/ exists t ev,
         events (m w) = t ++ [ev] /\ fatal_call ev /\
         w_device w (w_calls w + length (device_events t)) = Raises e.

(** In the run [x] from [w], every disconnect is one that raised [e]:
    the session was not closed. *)
Definition left_open {A} (w : world) (e : exn)
  (x : result A * world * list event) : Prop :=
  forall k,
    device_events (events x) !! k = Some EvDisconnect ->
    w_device w (w_calls w + k) = Raises e.

(** A session that takes the neighbor command and refuses the batch. *)
Definition world_batch_refused : world :=
  World [] (fun call => match call with
                        | 0 => Reply lldp_leaf_output
                        | _ => Raises (Exn OtherException "timed out")
                        end)
        0 session_state_init.
(** * Properties *)

#[local] Arguments String.append !_ _ / : simpl nomatch.
#[local] Arguments Str.startswith !_ !_ / : simpl nomatch.

(** ** Characters and strings *)


Lemma truthy_true (s : string) : Str.truthy s = true <-> s ≠ EmptyString.
Proof. destruct s; cbn; split; intros H; try done. Qed.

Lemma digit_not_space (c : ascii) : Chr.is_digit c = true -> Chr.is_space c = false.
Proof. destruct c as [[] [] [] [] [] [] [] []]; vm_compute; congruence. Qed.

Lemma digit_lower (c : ascii) : Chr.is_digit c = true -> Chr.lower c = c.
Proof. destruct c as [[] [] [] [] [] [] [] []]; vm_compute; congruence. Qed.

Lemma digit_not_slash (c : ascii) : Chr.is_digit c = true -> (Chr.code c =? 47)%N = false.
Proof. destruct c as [[] [] [] [] [] [] [] []]; vm_compute; congruence. Qed.

Lemma slash_code (c : ascii) : (Chr.code c =? 47)%N = Ascii.eqb c "/".
Proof. destruct c as [[] [] [] [] [] [] [] []]; reflexivity. Qed.

Lemma startswith_cons (a c : ascii) (p s : string) :
  Str.startswith (String a p) (String c s) = Ascii.eqb a c && Str.startswith p s.
Proof. reflexivity. Qed.

Lemma startswith_nil_r (a : ascii) (p : string) :
  Str.startswith (String a p) EmptyString = false.
Proof. reflexivity. Qed.

Lemma app_empty_r (s : string) : s +:+ EmptyString = s.
Proof. induction s as [|c s IH]; simpl; [reflexivity | by rewrite IH]. Qed.

Lemma app_assoc_str (a b c : string) : (a +:+ b) +:+ c = a +:+ b +:+ c.
Proof. induction a as [|x a IH]; simpl; [reflexivity | by rewrite IH]. Qed.

(** ** The slot-path search *)

Lemma slot_path_head (s : string) :
  slot_path s -> exists c r, s = String c r /\ Chr.is_digit c = true.
Proof. destruct 1; eauto. Qed.

(** The search passes over a digit-free prefix. *)
Lemma search_skips_digit_free (pre s : string) :
  digit_free pre = true ->
  Re.search_slot_path (pre +:+ s) = Re.search_slot_path s.
Proof.
  induction pre as [|c pre IH]; simpl; [done|].
  intros [Hc Hpre]%andb_true_iff.
  apply negb_true_iff in Hc. rewrite Hc. auto.
Qed.

Lemma slot_rest_ends (post : string) :
  run_ends post = true -> Re.slot_rest post = EmptyString.
Proof.
  destruct post as [|c [|d post]]; simpl; [done| |].
  - intros Hc%negb_true_iff. rewrite Hc. by destruct (Chr.code c =? 47)%N.
  - intros [Hc Hd]%andb_true_iff. apply negb_true_iff in Hc. rewrite Hc.
    rewrite slash_code. destruct (Ascii.eqb c "/"); [|done].
    simpl in Hd. apply negb_true_iff in Hd. by rewrite Hd.
Qed.

(** On a slot path followed by an end of run, the continuation consumes
    the slot path and nothing more. *)
Lemma slot_rest_complete (s post : string) :
  slot_path s -> run_ends post = true ->
  forall c r, s = String c r -> Re.slot_rest (r +:+ post) = r.
Proof.
  intros Hs Hpost. induction Hs as [c Hc|c s Hc Hs IH|c s Hc Hs IH];
    intros c' r [= <- <-].
  - simpl. by apply slot_rest_ends.
  - destruct (slot_path_head _ Hs) as (d & r & -> & Hd).
    simpl. rewrite Hd. f_equal. exact (IH d r eq_refl).
  - destruct (slot_path_head _ Hs) as (d & r & -> & Hd).
    simpl. rewrite Hd. by rewrite (IH d r eq_refl).
Qed.

Lemma search_slot_path_complete (pre nums post : string) :
  digit_free pre = true -> slot_path nums -> run_ends post = true ->
  Re.search_slot_path (pre +:+ nums +:+ post) = Some nums.
Proof.
  intros Hpre Hnums Hpost. rewrite search_skips_digit_free by done.
  destruct (slot_path_head _ Hnums) as (c & r & -> & Hc).
  simpl. rewrite Hc. f_equal. f_equal. by eapply slot_rest_complete.
Qed.

Lemma search_slot_path_none (s : string) :
  Re.search_slot_path s = None <-> digit_free s = true.
Proof.
  induction s as [|c s IH]; simpl; [done|].
  destruct (Chr.is_digit c); simpl; [split; discriminate | exact IH].
Qed.

(** The continuation always stops at an end of run, and what it consumed
    extends a digit to a slot path. *)
Lemma slot_rest_sound_aux (n : nat) (s : string) :
  String.length s <= n ->
  (forall c, Chr.is_digit c = true -> slot_path (String c (Re.slot_rest s))) /\
  exists post, s = Re.slot_rest s +:+ post /\ run_ends post = true.
Proof.
  assert (Hone : forall c, Chr.is_digit c = true -> slot_path (String c EmptyString))
    by (intros; by apply slot_last).
  revert s. induction n as [|n IH]; intros s Hlen.
  { destruct s; simpl in *; [|lia]. split; [done | by exists EmptyString]. }
  destruct s as [|c s]; [split; [done | by exists EmptyString]|].
  simpl in Hlen. simpl. destruct (Chr.is_digit c) eqn:Hc.
  - destruct (IH s ltac:(lia)) as [Hp (post & Heq & Hpost)]. split.
    + intros c' Hc'. apply slot_digit; auto.
    + exists post. split; [simpl; by f_equal | done].
  - rewrite slash_code. destruct (Ascii.eqb c "/") eqn:Hsl.
    + apply Ascii.eqb_eq in Hsl as ->.
      destruct s as [|d s].
      { split; [done | by exists "/"]. }
      destruct (Chr.is_digit d) eqn:Hd.
      * simpl in Hlen. destruct (IH s ltac:(lia)) as [Hp (post & Heq & Hpost)]. split.
        -- intros c' Hc'. apply slot_group; auto.
        -- exists post. split; [simpl; by do 2 f_equal | done].
      * split; [done|]. exists (String "/" (String d s)).
        split; [done|]. simpl. by rewrite Hd.
    + split; [done|]. exists (String c s). split; [done|].
      simpl. rewrite Hc. simpl. destruct s; [done|]. by rewrite Hsl.
Qed.

Lemma search_slot_path_sound (s nums : string) :
  Re.search_slot_path s = Some nums ->
  exists pre post,
    s = pre +:+ nums +:+ post /\ digit_free pre = true /\
    slot_path nums /\ run_ends post = true.
Proof.
  induction s as [|c s IH]; simpl; [done|].
  destruct (Chr.is_digit c) eqn:Hc.
  - intros [= <-].
    destruct (slot_rest_sound_aux (String.length s) s (le_n _)) as [Hp (post & Heq & Hpost)].
    exists EmptyString, post. simpl. split; [by f_equal|]. auto.
  - intros (pre & post & -> & Hpre & Hnums & Hpost)%IH.
    exists (String c pre), post. simpl. rewrite Hc. auto.
Qed.

(** ** Normalizer: agreement with the specification's algorithm (C4) *)

Lemma normalize_unfold (raw : string) :
  normalize_interface_name raw =
    match Re.search_slot_path (Str.strip raw) with
    | None => Str.strip raw
    | Some nums => classify_prefix (Str.lower (Str.strip raw)) nums (Str.strip raw)
    end.
Proof.
  unfold normalize_interface_name, classify_prefix.
  destruct raw as [|c raw]; [reflexivity|]. reflexivity.
Qed.

(** C4.  For every input token [raw], with [token] its trimmed form:
    when [token] holds no digit run, [normalize_interface_name] returns
    [token] unchanged; otherwise [token] splits in exactly one way into a
    digit-free part, a slot path (digits and slash-separated digit groups)
    that is maximal, and a rest, and the result is the prefix rules applied
    in their precedence to the lower-cased token: gig or a leading gi gives
    GigabitEthernet, else ten or a leading te gives TenGigabitEthernet, else
    fast or a leading fa gives FastEthernet, each followed by the slot
    path, else the trimmed token itself.  The four sample tokens of the
    specification evaluate as listed. *)
Theorem normalize_follows_spec_algorithm :
  (forall raw : string,
     let token := Str.strip raw in
     (digit_free token = true /\ normalize_interface_name raw = token)
     \/
     (exists pre nums post,
        token = pre +:+ nums +:+ post /\
        digit_free pre = true /\ slot_path nums /\ run_ends post = true /\
        (forall pre' nums' post',
           token = pre' +:+ nums' +:+ post' ->
           digit_free pre' = true -> slot_path nums' -> run_ends post' = true ->
           nums' = nums) /\
        normalize_interface_name raw =
          classify_prefix (Str.lower token) nums token))
  /\ normalize_interface_name "Gi1/0/38" = "GigabitEthernet1/0/38"
  /\ normalize_interface_name "Te2/1" = "TenGigabitEthernet2/1"
  /\ normalize_interface_name "Fa0/3" = "FastEthernet0/3"
  /\ normalize_interface_name "Port-channel5" = "Port-channel5".
Proof.
  split; [|repeat split; reflexivity].
  intros raw token. rewrite normalize_unfold. fold token.
  destruct (Re.search_slot_path token) as [nums|] eqn:Hsearch.
  - right. destruct (search_slot_path_sound _ _ Hsearch)
      as (pre & post & Htok & Hpre & Hnums & Hpost).
    exists pre, nums, post. repeat split; try done.
    intros pre' nums' post' Htok' Hpre' Hnums' Hpost'.
    pose proof (search_slot_path_complete _ _ _ Hpre' Hnums' Hpost') as Hc.
    rewrite <- Htok', Hsearch in Hc. congruence.
  - left. split; [by apply search_slot_path_none | done].
Qed.

(** ** The text model: what the sources may rely on *)

Lemma cons_head_no_linebreak (c : ascii) (ls : list string) :
  Chr.is_linebreak c = false ->
  Forall (fun l => no_linebreak l = true) ls ->
  Forall (fun l => no_linebreak l = true) (Str.cons_head c ls).
Proof.
  intros Hc [|l ls' Hl Hls]; simpl.
  - repeat constructor. simpl. by rewrite Hc.
  - constructor; [|done]. simpl. by rewrite Hc.
Qed.

Lemma splitlines_no_linebreak_aux (n : nat) (s : string) :
  String.length s <= n ->
  Forall (fun l => no_linebreak l = true) (Str.splitlines s).
Proof.
  revert s. induction n as [|n IH]; intros s Hlen.
  { destruct s; simpl in *; [constructor | lia]. }
  destruct s as [|c rest]; [constructor|]. simpl in Hlen.
  cbn [Str.splitlines]. destruct (Chr.is_linebreak c) eqn:Hc.
  - destruct rest as [|c' rest']; [by repeat constructor|].
    simpl in Hlen.
    destruct ((Chr.code c =? 13)%N && (Chr.code c' =? 10)%N);
      (constructor; [done | apply IH; simpl; lia]).
  - apply cons_head_no_linebreak; [done | apply IH; lia].
Qed.

(** The lines of a text hold no line boundary. *)
Lemma splitlines_no_linebreak (s l : string) :
  l ∈ Str.splitlines s -> no_linebreak l = true.
Proof.
  intros Hin.
  pose proof (splitlines_no_linebreak_aux (String.length s) s (le_n _)) as H.
  rewrite Forall_forall in H. by apply H.
Qed.

(** [split] never gives an empty list, and on a string that starts with
    the separator the list has a second element: the index 1 that the LLDP
    scan reads always exists. *)
Lemma split_go_nonempty (sep : string) (s : string) :
  forall skip, Str.split_go sep skip s ≠ [].
Proof.
  induction s as [|c s IH]; intros skip; [done|].
  cbn [Str.split_go]. destruct skip as [|k]; [|apply IH].
  destruct (Str.startswith sep (String c s)); [done|].
  unfold Str.cons_head. by destruct (Str.split_go sep 0 s).
Qed.

Lemma split_after_label (label line : string) :
  label ≠ EmptyString -> Str.startswith label line = true ->
  exists value rest, Str.split label line = EmptyString :: value :: rest.
Proof.
  intros Hl Hs. destruct label as [|a label]; [done|].
  destruct line as [|c line]; [done|].
  unfold Str.split. cbn [Str.split_go]. rewrite Hs.
  pose proof (split_go_nonempty (String a label) line
                (String.length (String a label) - 1)) as Hne.
  destruct (Str.split_go _ _ line) as [|value rest]; [done|]. eauto.
Qed.

(** ** Trimming *)

Lemma rstrip_idemp (s : string) : Str.rstrip (Str.rstrip s) = Str.rstrip s.
Proof.
  induction s as [|c s IH]; [done|]. cbn [Str.rstrip].
  destruct (Chr.is_space c && Str.is_empty (Str.rstrip s)) eqn:E; [done|].
  cbn [Str.rstrip]. rewrite IH. by rewrite E.
Qed.

Lemma lstrip_head (s : string) :
  Str.lstrip s = EmptyString \/
  exists c r, Str.lstrip s = String c r /\ Chr.is_space c = false.
Proof.
  induction s as [|c s IH]; [by left|]. simpl.
  destruct (Chr.is_space c) eqn:Hc; [exact IH|]. right. eauto.
Qed.

Lemma strip_head (s : string) :
  Str.strip s = EmptyString \/
  exists c r, Str.strip s = String c r /\ Chr.is_space c = false.
Proof.
  unfold Str.strip. destruct (lstrip_head s) as [-> | (c & r & -> & Hc)]; [by left|].
  right. cbn [Str.rstrip]. rewrite Hc. simpl. eauto.
Qed.

Lemma strip_idemp (s : string) : Str.strip (Str.strip s) = Str.strip s.
Proof.
  destruct (strip_head s) as [H | (c & r & H & Hc)]; rewrite H; [done|].
  unfold Str.strip at 1. simpl. rewrite Hc. rewrite <- H.
  unfold Str.strip. apply rstrip_idemp.
Qed.

(** ** Sample evaluations of the text model *)

Example splitlines_crlf :
  Str.splitlines ("a" +:+ String "013" (String "010" (String "010" "b"))) = ["a"; ""; "b"].
Proof. reflexivity. Qed.

Example splitlines_trailing_newline :
  Str.splitlines ("a" +:+ String "010" "") = ["a"]
  /\ Str.splitlines (String "010" "") = [""]
  /\ Str.splitlines "" = [].
Proof. repeat split; reflexivity. Qed.

Example split_on_dashes :
  Str.split "--" "a--b---c" = ["a"; "b"; "-c"]
  /\ Str.split "--" "" = [""]
  /\ Str.split "--" "-----" = [""; ""; "-"].
Proof. repeat split; reflexivity. Qed.

Example strip_both_ends :
  Str.strip ("  " +:+ String "009" "Gi1/0/1 " +:+ String "160" "") = "Gi1/0/1".
Proof. reflexivity. Qed.

Example of_nat_decimal : Str.of_nat 12 = "12" /\ Str.of_nat 0 = "0".
Proof. split; reflexivity. Qed.

Example slot_path_first_run :
  Re.search_slot_path "x12/3/b4" = Some "12/3"
  /\ Re.search_slot_path "a1//2" = Some "1"
  /\ Re.search_slot_path "1/2/3/" = Some "1/2/3"
  /\ Re.search_slot_path "Port-channel" = None.
Proof. repeat split; reflexivity. Qed.

(** The examples of the docstring of [normalize_interface_name]. *)
Example normalize_docstring :
  normalize_interface_name "Gi1/0/38" = "GigabitEthernet1/0/38"
  /\ normalize_interface_name "Gig 1/0/38" = "GigabitEthernet1/0/38"
  /\ normalize_interface_name "GigabitEthernet1/0/38" = "GigabitEthernet1/0/38".
Proof. repeat split; reflexivity. Qed.

Example device_pattern_samples :
  dev_pat_search "xAIR-C91 q" = Some "AIR-C91"
  /\ dev_pat_search "AIR- x" = None
  /\ dev_pat_search "Gi1/0/2 auto on c9115axi-b 4" = Some "c9115axi-b"
  /\ dev_pat_search "AIR-" = None.
Proof. repeat split; reflexivity. Qed.

(** Backtracking of the white space before a group: a blank value is
    matched as its last white-space character, no value is no match. *)
Example device_re_samples :
  device_re_match "Device ID: " = Some " "
  /\ device_re_match "Device ID:" = None
  /\ device_re_match "  device id:x y  " = Some "x y  "
  /\ device_re_match "Device  ID: x" = None.
Proof. repeat split; reflexivity. Qed.

Example if_re_samples :
  if_re_match "Interface: ," = Some " "
  /\ if_re_match "Interface:," = None
  /\ if_re_match "Interface: a b , c" = Some "a b "
  /\ if_re_match "Interface: abc" = None
  /\ if_re_match "interface:a,b,c" = Some "a".
Proof. repeat split; reflexivity. Qed.

Example field_after_samples :
  field_after "Local Intf:" "Local Intf: Gi1/0/24" = "Gi1/0/24"
  /\ field_after "Local Intf:" "Local Intf: Et1 Local Intf: Et2" = "Et1"
  /\ field_after "Local Intf:" "Local Intf:" = "".
Proof. repeat split; reflexivity. Qed.

Example sorted_keys_by_code_point :
  sorted_keys (group_by_interface
                 [("a", "Gi1/0/2"); ("b", "<unknown>"); ("c", "Gi1/0/10"); ("d", "Gi1/0/2")])
  = ["<unknown>"; "Gi1/0/10"; "Gi1/0/2"].
Proof. by vm_compute. Qed.

(** ** Normalizer: long forms as inputs (C3) *)

Lemma slot_path_chars (s : string) : slot_path s -> all_slot_chars s = true.
Proof.
  induction 1 as [c Hc|c s Hc _ IH|c s Hc _ IH]; simpl; unfold slot_char;
    rewrite Hc; simpl; auto.
Qed.

Lemma slot_char_lower (c : ascii) : slot_char c = true -> Chr.lower c = c.
Proof. destruct c as [[] [] [] [] [] [] [] []]; vm_compute; congruence. Qed.

Lemma slot_char_not_space (c : ascii) : slot_char c = true -> Chr.is_space c = false.
Proof. destruct c as [[] [] [] [] [] [] [] []]; vm_compute; congruence. Qed.

Lemma slot_char_not_letter (c : ascii) :
  slot_char c = true ->
  Ascii.eqb c "g" = false /\ Ascii.eqb c "t" = false /\ Ascii.eqb c "f" = false.
Proof. destruct c as [[] [] [] [] [] [] [] []]; vm_compute; auto; congruence. Qed.

Lemma lower_slot_chars (s : string) : all_slot_chars s = true -> Str.lower s = s.
Proof.
  induction s as [|c s IH]; simpl; [done|].
  intros [Hc Hs]%andb_true_iff. by rewrite slot_char_lower, IH.
Qed.

Lemma lower_app (a b : string) : Str.lower (a +:+ b) = Str.lower a +:+ Str.lower b.
Proof. induction a as [|c a IH]; simpl; [done | by rewrite IH]. Qed.

Lemma rstrip_slot_path (s : string) : slot_path s -> Str.rstrip s = s.
Proof.
  induction 1 as [c Hc|c s Hc Hs IH|c s Hc Hs IH]; simpl.
  - by rewrite digit_not_space.
  - rewrite IH. destruct (slot_path_head _ Hs) as (d & r & -> & _).
    simpl. by rewrite andb_false_r.
  - rewrite IH. destruct (slot_path_head _ Hs) as (d & r & -> & _).
    simpl. by rewrite !andb_false_r.
Qed.

Lemma rstrip_app_fixed (a b : string) :
  Str.rstrip b = b -> b ≠ EmptyString -> Str.rstrip (a +:+ b) = a +:+ b.
Proof.
  intros Hb Hne. induction a as [|c a IH]; simpl; [done|].
  rewrite IH. destruct (a +:+ b) eqn:Hab; [|by rewrite andb_false_r].
  destruct a; simpl in Hab; [congruence | discriminate].
Qed.

(** A keyword whose first letter is neither a digit nor a slash does not
    start, nor occur in, a string of digits and slashes. *)
Lemma prefix_slot_chars (k1 : ascii) (k s : string) :
  all_slot_chars s = true -> slot_char k1 = false ->
  Str.startswith (String k1 k) s = false.
Proof.
  destruct s as [|c s]; simpl; [done|].
  intros [Hc _]%andb_true_iff Hk.
  destruct (Ascii.eqb_spec k1 c) as [->|Hne]; [congruence | done].
Qed.

Lemma contains_slot_chars (k1 : ascii) (k s : string) :
  all_slot_chars s = true -> slot_char k1 = false ->
  Str.contains (String k1 k) s = false.
Proof.
  intros Hs Hk. induction s as [|c s IH]; [done|].
  cbn [Str.contains]. rewrite prefix_slot_chars by done.
  simpl in Hs. apply andb_true_iff in Hs as [_ Hs]. simpl. auto.
Qed.

Lemma search_long_form (pfx nums : string) :
  digit_free pfx = true -> slot_path nums ->
  Re.search_slot_path (pfx +:+ nums) = Some nums.
Proof.
  intros Hp Hn.
  rewrite <- (app_empty_r nums) at 1.
  by apply search_slot_path_complete.
Qed.

(** What the normalizer returns on each of the three long forms. *)
Lemma normalize_long_forms (nums : string) :
  slot_path nums ->
  normalize_interface_name ("GigabitEthernet" +:+ nums) = "GigabitEthernet" +:+ nums /\
  normalize_interface_name ("TenGigabitEthernet" +:+ nums) = "GigabitEthernet" +:+ nums /\
  normalize_interface_name ("FastEthernet" +:+ nums) = "FastEthernet" +:+ nums.
Proof.
  intros Hn.
  pose proof (slot_path_chars _ Hn) as Hchars.
  pose proof (lower_slot_chars _ Hchars) as Hlow.
  assert (Hne : nums ≠ EmptyString)
    by (destruct (slot_path_head _ Hn) as (c & r & -> & _); done).
  pose proof (rstrip_slot_path _ Hn) as Hr.
  repeat split; rewrite normalize_unfold; unfold Str.strip.
  - change (Str.lstrip ("GigabitEthernet" +:+ nums)) with ("GigabitEthernet" +:+ nums).
    rewrite rstrip_app_fixed, search_long_form by done.
    unfold classify_prefix. rewrite lower_app. reflexivity.
  - change (Str.lstrip ("TenGigabitEthernet" +:+ nums)) with ("TenGigabitEthernet" +:+ nums).
    rewrite rstrip_app_fixed, search_long_form by done.
    unfold classify_prefix. rewrite lower_app. reflexivity.
  - change (Str.lstrip ("FastEthernet" +:+ nums)) with ("FastEthernet" +:+ nums).
    rewrite rstrip_app_fixed, search_long_form by done.
    unfold classify_prefix. rewrite lower_app, Hlow.
    assert (Hg : Str.contains "gig" (Str.lower "FastEthernet" +:+ nums) = false).
    { simpl. by rewrite ?contains_slot_chars, ?prefix_slot_chars by done. }
    assert (Ht : Str.contains "ten" (Str.lower "FastEthernet" +:+ nums) = false).
    { simpl. by rewrite ?contains_slot_chars, ?prefix_slot_chars by done. }
    rewrite Hg, Ht. simpl. reflexivity.
Qed.

(** Outside the TenGigabitEthernet class the normalizer is idempotent:
    applying it to its own result changes nothing, unless the result is a
    TenGigabitEthernet name. *)
Theorem normalize_idempotent_unless_ten (x : string) :
  normalize_interface_name (normalize_interface_name x) = normalize_interface_name x
  \/ exists nums,
       slot_path nums /\ normalize_interface_name x = "TenGigabitEthernet" +:+ nums.
Proof.
  rewrite (normalize_unfold x).
  destruct (Re.search_slot_path (Str.strip x)) as [nums|] eqn:Hsearch.
  - destruct (search_slot_path_sound _ _ Hsearch) as (_ & _ & _ & _ & Hn & _).
    destruct (normalize_long_forms nums Hn) as (Hgig & _ & Hfast).
    unfold classify_prefix.
    destruct (Str.contains "gig" _ || Str.startswith "gi" _) eqn:Eg; [by left|].
    destruct (Str.contains "ten" _ || Str.startswith "te" _) eqn:Et.
    { right. by exists nums. }
    destruct (Str.contains "fast" _ || Str.startswith "fa" _) eqn:Ef; [by left|].
    left. rewrite normalize_unfold, strip_idemp, Hsearch.
    unfold classify_prefix. by rewrite Eg, Et, Ef.
  - left. by rewrite normalize_unfold, strip_idemp, Hsearch.
Qed.

(** C3 (evidence of the defect).  Whenever the normalizer classifies a
    token as TenGigabitEthernet, applying it to its own result gives the
    GigabitEthernet name with the same slot path, a different interface:
    the long form contains the letters gig, and the gig rule is tried
    before the ten rule.  So normalize(normalize(x)) differs from
    normalize(x) on every such token, among them the short form Te2/1, and
    the long form TenGigabitEthernet2/1 is not kept by the normalizer. *)
Theorem normalize_ten_not_idempotent (x nums : string) :
  slot_path nums ->
  normalize_interface_name x = "TenGigabitEthernet" +:+ nums ->
  normalize_interface_name (normalize_interface_name x) = "GigabitEthernet" +:+ nums
  /\ normalize_interface_name (normalize_interface_name x) ≠ normalize_interface_name x.
Proof.
  intros Hn Hx. rewrite Hx.
  destruct (normalize_long_forms nums Hn) as (_ & Hten & _).
  rewrite Hten. split; [done | discriminate].
Qed.

Lemma slot_path_2_1 : slot_path "2/1".
Proof. apply slot_group; [done|]. by apply slot_last. Qed.

Lemma normalize_ten_not_idempotent_witness :
  normalize_interface_name "Te2/1" = "TenGigabitEthernet2/1"
  /\ normalize_interface_name (normalize_interface_name "Te2/1") = "GigabitEthernet2/1"
  /\ normalize_interface_name (normalize_interface_name "Te2/1")
     ≠ normalize_interface_name "Te2/1".
Proof.
  split; [reflexivity|].
  exact (normalize_ten_not_idempotent "Te2/1" "2/1" slot_path_2_1 eq_refl).
Defined.

(** ** Policy matcher (C2) *)

Lemma match_policy_app (n : neighbor) (before later : list device_policy) :
  Forall (fun p => policy_match p n = false) before ->
  match_policy n (before ++ later) = match_policy n later.
Proof.
  induction 1 as [|p before Hp _ IH]; simpl; [done|]. by rewrite Hp.
Qed.

Lemma match_policy_none (n : neighbor) (policies : list device_policy) :
  match_policy n policies = None <->
  Forall (fun p => policy_match p n = false) policies.
Proof.
  induction policies as [|p ps IH]; simpl.
  - split; [constructor | done].
  - destruct (policy_match p n) eqn:Hp.
    + split; [done | intros H; inversion H; congruence].
    + rewrite IH. split; [by constructor | by inversion 1].
Qed.

Lemma match_policy_some (n : neighbor) (policies : list device_policy)
  (policy : device_policy) :
  match_policy n policies = Some policy ->
  exists before later,
    policies = before ++ policy :: later /\
    Forall (fun p => policy_match p n = false) before /\
    policy_match policy n = true.
Proof.
  induction policies as [|p ps IH]; simpl; [done|].
  destruct (policy_match p n) eqn:Hp.
  - intros [= <-]. by exists [], ps.
  - intros (before & later & -> & Hb & Hm)%IH.
    exists (p :: before), later. split; [done|]. split; [by constructor | done].
Qed.

(** The loop of [main] collects, neighbor after neighbor, what
    [neighbor_cmds] gives. *)
Lemma build_config_cmds_concat (policies : list device_policy)
  (neighbors : list neighbor) :
  build_config_cmds policies neighbors = concat (map (neighbor_cmds policies) neighbors).
Proof.
  unfold build_config_cmds.
  assert (H : forall acc,
    foldl (fun cmds n => cmds ++ neighbor_cmds policies n) acc neighbors
    = acc ++ concat (map (neighbor_cmds policies) neighbors)).
  { induction neighbors as [|n ns IH]; intros acc; simpl.
    - by rewrite app_nil_r.
    - by rewrite IH, <- app_assoc. }
  apply (H []).
Qed.

(** C2.  For every neighbor and every ordered policy list: when the list
    splits into policies that do not match, a policy that matches, and any
    later policies, the matcher returns that policy and the commands
    emitted for the neighbor are its interface line, that policy's config
    lines and the closing exit, whatever the later policies would do;
    when no policy matches the matcher returns none and nothing is emitted;
    and whatever the matcher returns is a policy of the list that matches
    and is preceded only by policies that do not.  The commands of a whole
    run are the concatenation of these blocks, one at most per neighbor. *)
Theorem policy_first_match_law (n : neighbor) (policies : list device_policy) :
  (forall before policy later,
     policies = before ++ policy :: later ->
     Forall (fun p => policy_match p n = false) before ->
     policy_match policy n = true ->
     match_policy n policies = Some policy /\
     neighbor_cmds policies n =
       ("interface " +:+ local_intf n) :: policy_config policy ++ ["exit"])
  /\ (Forall (fun p => policy_match p n = false) policies ->
      match_policy n policies = None /\ neighbor_cmds policies n = [])
  /\ (forall policy,
        match_policy n policies = Some policy ->
        exists before later,
          policies = before ++ policy :: later /\
          Forall (fun p => policy_match p n = false) before /\
          policy_match policy n = true)
  /\ (forall neighbors,
        build_config_cmds policies neighbors =
          concat (map (neighbor_cmds policies) neighbors)).
Proof.
  split; [|split; [|split]].
  - intros before policy later -> Hbefore Hmatch.
    assert (Hfound : match_policy n (before ++ policy :: later) = Some policy).
    { rewrite match_policy_app by done. simpl. by rewrite Hmatch. }
    split; [done|]. unfold neighbor_cmds. by rewrite Hfound.
  - intros Hnone. apply match_policy_none in Hnone.
    split; [done|]. unfold neighbor_cmds. by rewrite Hnone.
  - apply match_policy_some.
  - apply build_config_cmds_concat.
Qed.

(** A neighbor that both policies of [DEVICE_POLICIES] match receives the
    configuration of the first one only. *)
Lemma policy_first_match_law_witness :
  neighbor_cmds DEVICE_POLICIES (Neighbor "Et1" "LEAF1" "ARISTA AP C-130") =
    [ "interface Et1"; "description config tool LEAF1"; "switchport mode access";
      "switchport access vlan 1"; "spanning-tree portfast";
      "spanning-tree bpduguard enable"; "exit" ]
  /\ Forall (fun p => policy_match p (Neighbor "Et1" "LEAF1" "ARISTA AP C-130") = true)
            DEVICE_POLICIES.
Proof.
  split; [|repeat constructor].
  destruct (policy_first_match_law (Neighbor "Et1" "LEAF1" "ARISTA AP C-130")
              DEVICE_POLICIES) as (Hfirst & _).
  exact (proj2 (Hfirst [] _ _ eq_refl (Forall_nil_2 _) eq_refl)).
Defined.

(** ** CDP neighbor detail parser (C5) *)

Lemma cdp_run_machine (lines : list string) (results : gmap string string)
  (current_device : option string) :
  (foldl cdp_step (results, current_device) lines).1 =
    write_entries results (cdp_machine (register_of current_device) lines).
Proof.
  revert results current_device.
  induction lines as [|line rest IH]; intros results current_device; [done|].
  cbn [foldl cdp_machine]. unfold cdp_step at 2, classify_cdp_line.
  destruct (device_re_match line) as [g|]; [by rewrite IH|].
  destruct current_device as [dev|]; cbn [register_of].
  - unfold set_register, Str.truthy. destruct (Str.is_empty dev) eqn:Hdev; cbn [negb].
    + rewrite IH. cbn [register_of]. unfold set_register. rewrite Hdev.
      by destruct (if_re_match line).
    + destruct (if_re_match line) as [g|]; rewrite IH; [done|].
      cbn [register_of]. unfold set_register. by rewrite Hdev.
  - rewrite IH. cbn [register_of]. by destruct (if_re_match line).
Qed.

Lemma write_entries_snoc (m : gmap string string) (entries : list (string * string))
  (k v : string) :
  write_entries m (entries ++ [(k, v)]) = <[k := v]> (write_entries m entries).
Proof. unfold write_entries. by rewrite foldl_app. Qed.

(** The value read back for a key is the one of the last entry written
    for it. *)
Lemma write_entries_lookup (entries : list (string * string)) (k : string) :
  write_entries ∅ entries !! k = snd <$> last (filter (fun e => e.1 = k) entries).
Proof.
  induction entries as [|[k' v'] entries IH] using rev_ind; [done|].
  rewrite write_entries_snoc, filter_app. cbn [filter list_filter].
  destruct (decide ((k', v').1 = k)) as [Hk|Hk]; simpl in Hk.
  - subst. by rewrite lookup_insert_eq, last_snoc.
  - rewrite lookup_insert_ne by done. by rewrite app_nil_r.
Qed.

(** C5.  For every input text the CDP neighbor detail parser returns what
    the single-register machine produces on the lines of the text: a line
    matching the device-id pattern sets the register to its trimmed value;
    a later line matching the interface pattern, met while the register
    holds a device identity, emits the entry from the normalized interface
    to that identity and clears the register; any other line changes
    nothing.  The entries are written into one mapping in the order they
    are emitted, so the value kept for an interface is the one of the last
    entry emitted for it.  On the example text of the specification the
    result is the single entry GigabitEthernet1/0/1 to SW-CORE-1, and two
    blocks naming the same interface leave the later device. *)
Theorem cdp_detail_parser_register_machine :
  (forall output : string,
     parse_cdp_neighbors_detail output =
       write_entries ∅ (cdp_machine Idle (Str.splitlines output)))
  /\ (forall (entries : list (string * string)) (k : string),
        write_entries ∅ entries !! k =
          snd <$> last (filter (fun e => e.1 = k) entries))
  /\ parse_cdp_neighbors_detail cdp_detail_example =
       {[ "GigabitEthernet1/0/1" := "SW-CORE-1" ]}
  /\ parse_cdp_neighbors_detail cdp_detail_two_blocks =
       {[ "GigabitEthernet1/0/1" := "AP-NEW" ]}.
Proof.
  split; [|split; [|split]].
  - intros output. unfold parse_cdp_neighbors_detail, cdp_run.
    by rewrite cdp_run_machine.
  - apply write_entries_lookup.
  - unfold parse_cdp_neighbors_detail, cdp_run. rewrite cdp_run_machine.
    vm_compute cdp_machine. cbn [write_entries foldl fst snd].
    by rewrite insert_empty.
  - unfold parse_cdp_neighbors_detail, cdp_run. rewrite cdp_run_machine.
    vm_compute cdp_machine. cbn [write_entries foldl fst snd].
    by rewrite insert_insert_eq, insert_empty.
Qed.

(** ** LLDP detail parser (C6) *)

Lemma next_nonempty_first (following : list string) :
  next_nonempty following = first_nonempty following.
Proof.
  unfold first_nonempty.
  induction following as [|l rest IH]; [done|].
  cbn [next_nonempty map]. destruct (Str.strip l) eqn:Hl; cbn [Str.truthy Str.is_empty negb].
  - rewrite filter_cons_False by (intros H; by apply H). exact IH.
  - by rewrite filter_cons_True by done.
Qed.

(** The three labels exclude one another, so the chain of tests of the
    scan is a choice between independent cases. *)
Lemma labels_exclusive (s : string) :
  (Str.startswith "Local Intf:" s = true ->
     Str.startswith "System Name:" s = false /\
     Str.startswith "System Description:" s = false)
  /\ (Str.startswith "System Name:" s = true ->
        Str.startswith "System Description:" s = false).
Proof.
  split.
  - destruct s as [|c s]; [done|]. rewrite !startswith_cons.
    destruct (Ascii.eqb_spec "L" c) as [<-|]; [|done]. by simpl.
  - do 7 (destruct s as [|? s]; [done|]; rewrite !startswith_cons;
          match goal with
          | |- context [Ascii.eqb ?x ?y] => destruct (Ascii.eqb_spec x y) as [<-|]
          end; [|done]; cbn [andb]).
    destruct s as [|c s]; [done|]. rewrite !startswith_cons.
    destruct (Ascii.eqb_spec "N" c) as [<-|]; [|done]. by simpl.
Qed.

Lemma pick_last_cons {A} (x : A) (found : list A) (before : A) :
  pick_last (x :: found) before = pick_last found x.
Proof. unfold pick_last. rewrite last_cons. by destruct (last found). Qed.

Lemma pick_last_option {A} (x : A) (found : list A) (before : option A) :
  match last (x :: found) with Some v => Some v | None => before end =
  match last found with Some v => Some v | None => Some x end.
Proof. rewrite last_cons. by destruct (last found). Qed.

(** The scan leaves in each variable the last value found for it, or what
    the variable held before. *)
Lemma lldp_scan_last (lines : list string) (vars : lldp_vars) :
  lldp_scan lines vars =
    LldpVars
      (match last (field_values "Local Intf:" lines) with
       | Some v => Some v
       | None => v_local_intf vars
       end)
      (pick_last (field_values "System Name:" lines) (v_system_name vars))
      (pick_last (description_values lines) (v_system_desc vars)).
Proof.
  revert vars. induction lines as [|l rest IH]; intros vars.
  { by destruct vars. }
  cbn [lldp_scan field_values description_values]. rewrite IH. clear IH.
  unfold is_field. rewrite next_nonempty_first.
  destruct (labels_exclusive (Str.strip l)) as [Hli Hsn].
  destruct (Str.startswith "Local Intf:" (Str.strip l)) eqn:E1.
  - destruct (Hli eq_refl) as [-> ->]. cbn [v_local_intf v_system_name v_system_desc app].
    by rewrite pick_last_option.
  - destruct (Str.startswith "System Name:" (Str.strip l)) eqn:E2.
    + rewrite (Hsn eq_refl). cbn [v_local_intf v_system_name v_system_desc app].
      by rewrite pick_last_cons.
    + destruct (Str.startswith "System Description:" (Str.strip l)) eqn:E3; [|done].
      destruct (first_nonempty rest) as [d|]; [|done].
      change (option_list (Some d) ++ description_values rest)
        with (d :: description_values rest).
      cbn [v_local_intf v_system_name v_system_desc]. by rewrite pick_last_cons.
Qed.

Lemma lldp_block_record (block : string) :
  lldp_block block = block_record (lldp_block_lines block).
Proof.
  unfold lldp_block, block_record. rewrite lldp_scan_last.
  cbn [v_local_intf v_system_name v_system_desc lldp_vars_init].
  by destruct (last (field_values "Local Intf:" _)).
Qed.

Lemma lldp_scan1_last (lines : list string) (vars : option string * string) :
  ApRenamer1.lldp_scan1 lines vars =
    (match last (field_values "Local Intf:" lines) with
     | Some v => Some v
     | None => vars.1
     end,
     pick_last (description_values lines) vars.2).
Proof.
  revert vars. induction lines as [|l rest IH]; intros vars.
  { by destruct vars. }
  cbn [ApRenamer1.lldp_scan1 field_values description_values]. rewrite IH. clear IH.
  unfold is_field. rewrite next_nonempty_first.
  destruct (labels_exclusive (Str.strip l)) as [Hli _].
  destruct (Str.startswith "Local Intf:" (Str.strip l)) eqn:E1.
  - destruct (Hli eq_refl) as [_ ->]. cbn [fst snd app].
    by rewrite pick_last_option.
  - destruct (Str.startswith "System Description:" (Str.strip l)) eqn:E3; [|done].
    destruct (first_nonempty rest) as [d|]; [|done].
    change (option_list (Some d) ++ description_values rest)
      with (d :: description_values rest).
    cbn [fst snd]. by rewrite pick_last_cons.
Qed.

Lemma lldp_block1_record (block : string) :
  ApRenamer1.lldp_block1 block = block_record1 (lldp_block_lines block).
Proof.
  unfold ApRenamer1.lldp_block1, block_record1, block_record.
  rewrite lldp_scan1_last. cbn [fst snd].
  destruct (last (field_values "Local Intf:" _)) as [intf|]; [|done].
  unfold pick_last. destruct (Str.truthy intf); [|done].
  cbn [system_description local_intf andb]. done.
Qed.

Lemma field_values_found (label : string) (lines : list string) (v : string) :
  last (field_values label lines) = Some v ->
  exists l, l ∈ lines /\ is_field label l = true.
Proof.
  intros Hlast. assert (Hne : field_values label lines ≠ []).
  { intros H. by rewrite H in Hlast. }
  clear Hlast. induction lines as [|l rest IH]; [done|].
  simpl in Hne. destruct (is_field label l) eqn:Hl.
  - exists l. split; [by left | done].
  - destruct (IH Hne) as (l' & Hin & Hf). exists l'. split; [by right | done].
Qed.

Lemma description_values_source (lines : list string) (d : string) :
  d ∈ description_values lines ->
  exists before l following,
    lines = before ++ l :: following /\
    is_field "System Description:" l = true /\
    first_nonempty following = Some d.
Proof.
  induction lines as [|l rest IH]; cbn [description_values].
  { by intros ?%elem_of_nil. }
  intros [Hhere|Hlater]%elem_of_app.
  - destruct (is_field "System Description:" l) eqn:Hl; [|by apply elem_of_nil in Hhere].
    destruct (first_nonempty rest) as [d'|] eqn:Hd; [|by apply elem_of_nil in Hhere].
    apply list_elem_of_singleton in Hhere as ->. by exists [], l, rest.
  - destruct (IH Hlater) as (before & l' & following & -> & Hl' & Hd).
    by exists (l :: before), l', following.
Qed.

Lemma field_values_none (label : string) (lines : list string) :
  Forall (fun l => is_field label l = false) lines -> field_values label lines = [].
Proof. induction 1 as [|l rest Hl _ IH]; simpl; [done | by rewrite Hl]. Qed.

Lemma description_values_none (lines : list string) :
  Forall (fun l => is_field "System Description:" l = false) lines ->
  description_values lines = [].
Proof. induction 1 as [|l rest Hl _ IH]; simpl; [done | by rewrite Hl]. Qed.

Lemma omap_pointwise {A B} (f g : A -> option B) (l : list A) :
  (forall x, f x = g x) -> omap f l = omap g l.
Proof.
  intros H. induction l as [|x l IH]; [done|].
  simpl. rewrite H. destruct (g x); [f_equal|]; exact IH.
Qed.

(** C6, as the code has it.  For every input text the LLDP detail parser
    of lldp_renamer.py yields, block after block, the record of the block:
    a record is present exactly when the last local-interface field of the
    block has a non-empty value, so every record comes from a block where
    such a field was found, while a field with an empty value gives no
    record; the system name and the system description are the empty string
    when no such field or label is in the block; a non-empty description is
    always the first non-empty line that follows a description label line,
    never text of the label line.  The parser of ap_renamer1.py keeps,
    of these records, those with a non-empty description. *)
Theorem lldp_parser_block_records :
  (forall output : string,
     parse_lldp_neighbors output =
       omap (fun block => block_record (lldp_block_lines block))
            (Str.split lldp_separator output))
  /\ (forall output : string,
        ApRenamer1.parse_lldp_neighbors1 output =
          omap (fun block => block_record1 (lldp_block_lines block))
               (Str.split lldp_separator output))
  /\ (forall lines : list string,
        is_Some (block_record lines) <->
        exists intf,
          last (field_values "Local Intf:" lines) = Some intf /\ intf ≠ EmptyString)
  /\ (forall (lines : list string) (r : neighbor),
        block_record lines = Some r ->
        (exists l, l ∈ lines /\ is_field "Local Intf:" l = true)
        /\ local_intf r ≠ EmptyString
        /\ (Forall (fun l => is_field "System Name:" l = false) lines ->
            system_name r = EmptyString)
        /\ (Forall (fun l => is_field "System Description:" l = false) lines ->
            system_description r = EmptyString)
        /\ (system_description r ≠ EmptyString ->
            exists before l following,
              lines = before ++ l :: following /\
              is_field "System Description:" l = true /\
              first_nonempty following = Some (system_description r)))
  /\ parse_lldp_neighbors lldp_block_example =
       [Neighbor "Gi1/0/24" "AP-ROOF-3" "ARISTA AP C-130"]
  /\ parse_lldp_neighbors lldp_block_label_only =
       [Neighbor "Gi1/0/24" EmptyString EmptyString].
Proof.
  split; [|split; [|split; [|split; [|split; reflexivity]]]].
  - intros output. apply omap_pointwise, lldp_block_record.
  - intros output. apply omap_pointwise, lldp_block1_record.
  - intros lines. unfold block_record.
    destruct (last (field_values "Local Intf:" lines)) as [intf|].
    + destruct (Str.truthy intf) eqn:Htruthy.
      * split; [|by eauto]. intros _. exists intf. split; [done | by apply truthy_true].
      * split; [by intros [? ?]|]. intros (? & [= <-] & Hne%truthy_true). congruence.
    + split; [by intros [? ?] | by intros (? & ? & _)].
  - intros lines r. unfold block_record.
    destruct (last (field_values "Local Intf:" lines)) as [intf|] eqn:Hintf; [|done].
    destruct (Str.truthy intf) eqn:Htruthy; [|done].
    intros [= <-]. cbn [local_intf system_name system_description].
    split; [by eapply field_values_found|].
    split; [by apply truthy_true|].
    split; [|split].
    + intros Hnone. by rewrite field_values_none.
    + intros Hnone. by rewrite description_values_none.
    + destruct (last (description_values lines)) as [d|] eqn:Hd; [|done].
      intros _. apply description_values_source. simpl.
      apply last_Some in Hd as [l' ->]. apply elem_of_app. right. by left.
Qed.

(** C6 as stated fails.  In lldp_renamer.py a block whose local-interface
    field has an empty value yields no record although the field was found;
    in ap_renamer1.py a block with a local-interface field and no system
    description yields no record either, where the claim expects a record
    with an empty description (lldp_renamer.py gives that record). *)
Lemma lldp_record_not_exactly_when_field_found :
  (is_field "Local Intf:" "Local Intf:" = true
   /\ parse_lldp_neighbors "Local Intf:" = [])
  /\ (is_field "Local Intf:" "Local Intf: Gi1/0/24" = true
      /\ ApRenamer1.parse_lldp_neighbors1 "Local Intf: Gi1/0/24" = []
      /\ parse_lldp_neighbors "Local Intf: Gi1/0/24" =
           [Neighbor "Gi1/0/24" EmptyString EmptyString]).
Proof. repeat split; reflexivity. Qed.

(** ** Grouping, sorted keys and the command batch (C1) *)

Lemma setdefault_append_lookup (interfaces : gmap string (list string))
  (intf dev k : string) :
  setdefault_append interfaces intf dev !! k =
    if decide (intf = k)
    then Some (default [] (interfaces !! intf) ++ [dev])
    else interfaces !! k.
Proof. unfold setdefault_append. apply lookup_insert. Qed.

Lemma group_by_interface_snoc (aps : list (string * string)) (dev intf : string) :
  group_by_interface (aps ++ [(dev, intf)]) =
    setdefault_append (group_by_interface aps) intf dev.
Proof. unfold group_by_interface. by rewrite foldl_app. Qed.

Lemma devices_seen_snoc (aps : list (string * string)) (dev intf k : string) :
  devices_seen (aps ++ [(dev, intf)]) k =
    devices_seen aps k ++ (if decide (intf = k) then [dev] else []).
Proof.
  unfold devices_seen. rewrite filter_app, fmap_app. f_equal.
  cbn [filter list_filter]. by destruct (decide ((dev, intf).2 = k)), (decide (intf = k)).
Qed.

(** The grouping maps an interface to the devices seen on it, in order,
    and has no entry for an interface on which none was seen. *)
Lemma group_by_interface_lookup (aps : list (string * string)) (k : string) :
  group_by_interface aps !! k =
    match devices_seen aps k with
    | [] => None
    | devs => Some devs
    end.
Proof.
  induction aps as [|[dev intf] aps IH] using rev_ind; [done|].
  rewrite group_by_interface_snoc, setdefault_append_lookup, devices_seen_snoc.
  destruct (decide (intf = k)) as [->|Hne].
  - rewrite IH. destruct (devices_seen aps k); simpl; done.
  - by rewrite IH, app_nil_r.
Qed.

Lemma first_device_seen (aps : list (string * string)) (intf : string) :
  first_device (group_by_interface aps) intf = head (devices_seen aps intf).
Proof.
  unfold first_device. rewrite group_by_interface_lookup.
  by destruct (devices_seen aps intf).
Qed.

Lemma devices_seen_elem (aps : list (string * string)) (dev intf : string) :
  dev ∈ devices_seen aps intf <-> (dev, intf) ∈ aps.
Proof.
  unfold devices_seen. rewrite list_elem_of_fmap. split.
  - intros ([d i] & -> & [Hi Hin]%list_elem_of_filter). simpl in Hi. by subst.
  - intros Hin. exists (dev, intf). split; [done|]. by apply list_elem_of_filter.
Qed.

Lemma sorted_keys_elem (interfaces : gmap string (list string)) (intf : string) :
  intf ∈ sorted_keys interfaces <-> is_Some (interfaces !! intf).
Proof.
  unfold sorted_keys. rewrite merge_sort_Permutation, list_elem_of_fmap. split.
  - intros ([k v] & -> & Hin%elem_of_map_to_list). by exists v.
  - intros [v Hv]. exists (intf, v). split; [done | by apply elem_of_map_to_list].
Qed.

Lemma sorted_keys_NoDup (interfaces : gmap string (list string)) :
  NoDup (sorted_keys interfaces).
Proof.
  unfold sorted_keys. rewrite merge_sort_Permutation. apply NoDup_fst_map_to_list.
Qed.

Lemma sorted_keys_sorted (interfaces : gmap string (list string)) :
  StronglySorted String.le (sorted_keys interfaces).
Proof. apply StronglySorted_merge_sort; apply _. Qed.

Lemma filter_keeps_sorted {A} (R : relation A) (P : A -> Prop)
  `{forall x, Decision (P x)} (l : list A) :
  StronglySorted R l -> StronglySorted R (filter P l).
Proof.
  induction 1 as [|x l Hl IH Hx]; [constructor|].
  rewrite filter_cons. destruct (decide (P x)); [|done].
  constructor; [done|]. rewrite Forall_forall in *.
  intros y [_ Hy]%list_elem_of_filter. by apply Hx.
Qed.

Lemma planned_interfaces_elem (interfaces : gmap string (list string)) (intf : string) :
  intf ∈ planned_interfaces interfaces <->
  is_Some (interfaces !! intf) /\ intf ≠ unknown_interface.
Proof.
  unfold planned_interfaces. rewrite list_elem_of_filter, sorted_keys_elem. tauto.
Qed.

Lemma planned_group_elem (aps : list (string * string)) (intf : string) :
  intf ∈ planned_interfaces (group_by_interface aps) <->
  (exists dev, (dev, intf) ∈ aps) /\ intf ≠ unknown_interface.
Proof.
  rewrite planned_interfaces_elem, group_by_interface_lookup.
  split; intros [H Hne]; (split; [|done]).
  - destruct (devices_seen aps intf) as [|dev devs] eqn:Hd; [by destruct H|].
    exists dev. apply devices_seen_elem. rewrite Hd. by left.
  - destruct H as [dev Hdev%devices_seen_elem].
    destruct (devices_seen aps intf); [by apply elem_of_nil in Hdev | done].
Qed.

(** *** Identities are never empty *)

Lemma lower_c_not_space (c : ascii) :
  Chr.lower c = "c"%char \/ Chr.lower c = "a"%char -> Chr.is_space c = false.
Proof.
  destruct c as [[] [] [] [] [] [] [] []]; vm_compute; intros [H|H]; congruence.
Qed.

Lemma strip_keeps_nonspace_head (c : ascii) (s : string) :
  Chr.is_space c = false -> Str.strip (String c s) ≠ EmptyString.
Proof.
  intros Hc. unfold Str.strip. simpl. rewrite Hc. simpl. by rewrite Hc.
Qed.

Lemma iliteral_cons (a c : ascii) (lit s : string) :
  Re.iliteral (String a lit) (String c s) =
    if Ascii.eqb (Chr.lower c) a then Re.iliteral lit s else None.
Proof. reflexivity. Qed.

Lemma dev_pat_at_head (s m : string) :
  dev_pat_at s = Some m ->
  exists c r, m = String c r /\ Chr.is_space c = false.
Proof.
  unfold dev_pat_at. destruct s as [|c s]; [done|].
  rewrite !iliteral_cons.
  change (Str.take 3 (String c s)) with (String c (Str.take 2 s)).
  change (Str.take 4 (String c s)) with (String c (Str.take 3 s)).
  destruct (Ascii.eqb_spec (Chr.lower c) "c") as [Hc|_].
  - assert (Hsp : Chr.is_space c = false) by (apply lower_c_not_space; by left).
    destruct (Re.iliteral "91" s) as [rest|].
    + intros H. injection H as H. subst m. simpl. eauto.
    + destruct (Ascii.eqb (Chr.lower c) "a"); [|done].
      destruct (Re.iliteral "ir-" s) as [rest|]; [|done].
      destruct (Str.is_empty (Re.take_nonspace rest)); [done|].
      intros H. injection H as H. subst m. simpl. eauto.
  - destruct (Ascii.eqb_spec (Chr.lower c) "a") as [Ha|_]; [|done].
    assert (Hsp : Chr.is_space c = false) by (apply lower_c_not_space; by right).
    destruct (Re.iliteral "ir-" s) as [rest|]; [|done].
    destruct (Str.is_empty (Re.take_nonspace rest)); [done|].
    intros H. injection H as H. subst m. simpl. eauto.
Qed.

Lemma dev_pat_search_head (line m : string) :
  dev_pat_search line = Some m ->
  exists c r, m = String c r /\ Chr.is_space c = false.
Proof.
  induction line as [|c line IH]; cbn [dev_pat_search].
  - destruct (dev_pat_at EmptyString) eqn:H; [|done].
    intros [= <-]. by eapply dev_pat_at_head.
  - destruct (dev_pat_at (String c line)) eqn:H; [|exact IH].
    intros [= <-]. by eapply dev_pat_at_head.
Qed.

(** Every device identity of the summary scan is a non-empty string. *)
Lemma find_aps_devices_nonempty (output dev intf : string) :
  (dev, intf) ∈ find_aps_in_cdp output -> dev ≠ EmptyString.
Proof.
  unfold find_aps_in_cdp. rewrite list_elem_of_omap.
  intros (line & _ & Hline). unfold find_aps_line in Hline.
  destruct (dev_pat_search line) as [m|] eqn:Hm; [|done].
  injection Hline as <- _.
  destruct (dev_pat_search_head _ _ Hm) as (c & r & -> & Hc).
  by apply strip_keeps_nonspace_head.
Qed.

Lemma cdp_machine_devices_nonempty (lines : list string) (reg : cdp_register)
  (k d : string) :
  (forall d0, reg = HaveDeviceId d0 -> d0 ≠ EmptyString) ->
  (k, d) ∈ cdp_machine reg lines -> d ≠ EmptyString.
Proof.
  revert reg. induction lines as [|line rest IH]; intros reg Hreg; cbn [cdp_machine].
  { by intros ?%elem_of_nil. }
  destruct (classify_cdp_line line) as [value|value|].
  - apply IH. unfold set_register. intros d0.
    destruct (Str.is_empty value) eqn:Hv; [done|].
    intros [= <-]. intros ->. done.
  - destruct reg as [|d1].
    + by apply IH.
    + intros [[= -> ->]|Hin]%elem_of_cons; [by apply Hreg|].
      revert Hin. by apply IH.
  - by apply IH.
Qed.

(** Every hostname in the detail mapping is a non-empty string. *)
Lemma cdp_map_values_nonempty (detail k host : string) :
  parse_cdp_neighbors_detail detail !! k = Some host -> host ≠ EmptyString.
Proof.
  unfold parse_cdp_neighbors_detail, cdp_run.
  rewrite cdp_run_machine, write_entries_lookup. cbn [register_of].
  destruct (last _) as [[k' d]|] eqn:Hlast; [|done].
  intros [= <-]. apply last_Some_elem_of in Hlast.
  apply list_elem_of_filter in Hlast as [_ Hin].
  eapply (cdp_machine_devices_nonempty _ Idle k'); [done | exact Hin].
Qed.

Lemma configuration_plan_elem (cdp_map : gmap string string)
  (interfaces : gmap string (list string)) (do_default : option bool)
  (do_desc : bool) (user_lines : list string) (intf : string) (cmds : list string) :
  (intf, cmds) ∈ configuration_plan cdp_map interfaces do_default do_desc user_lines
  <-> intf ∈ planned_interfaces interfaces /\
      cmds = cfg_commands cdp_map interfaces do_default do_desc user_lines intf.
Proof.
  unfold configuration_plan. rewrite list_elem_of_fmap. split.
  - by intros (i & [= -> ->] & Hin).
  - intros [Hin ->]. by exists intf.
Qed.

(** C1.  With the interfaces grouped from the summary scan of any output
    and the detail mapping parsed from any detail text, the command batch
    built for an interface is, in this order: the default-interface line
    when the default flag is on, the interface line, the description line
    when the description flag is on, and the user-supplied lines.  The
    description text is the hostname of the detail mapping for that
    interface when there is one, otherwise the first device identity
    observed for the interface in the summary scan, and the line is left
    out when there is neither.  Every interface with a discovered neighbor,
    the sentinel for an unknown interface apart, has exactly this batch in
    the plan, and the plan holds nothing else.  The end-to-end scenario of
    the specification evaluates to its two listed command sequences. *)
Theorem plan_builder_command_sequence :
  (forall (output detail : string) (do_default : option bool) (do_desc : bool)
          (user_lines : list string) (intf : string),
     let aps := find_aps_in_cdp output in
     let cdp_map := parse_cdp_neighbors_detail detail in
     cfg_commands cdp_map (group_by_interface aps) do_default do_desc user_lines intf =
       (if flag_on do_default then ["default interface " +:+ intf] else [])
       ++ ["interface " +:+ intf]
       ++ (if do_desc then
             match cdp_map !! intf with
             | Some hostname => ["description " +:+ hostname]
             | None =>
                 match head (devices_seen aps intf) with
                 | Some dev => ["description " +:+ dev]
                 | None => []
                 end
             end
           else [])
       ++ user_lines)
  /\ (forall (output : string) (cdp_map : gmap string string)
             (do_default : option bool) (do_desc : bool)
             (user_lines : list string) (intf : string) (cmds : list string),
        let aps := find_aps_in_cdp output in
        (intf, cmds) ∈ configuration_plan cdp_map (group_by_interface aps)
                         do_default do_desc user_lines
        <-> ((exists dev, (dev, intf) ∈ aps) /\ intf ≠ unknown_interface) /\
            cmds = cfg_commands cdp_map (group_by_interface aps)
                     do_default do_desc user_lines intf)
  /\ (forall (cdp_map : gmap string string) (interfaces : gmap string (list string))
             (do_default : option bool) (do_desc : bool) (user_lines : list string),
        NoDup (configuration_plan cdp_map interfaces do_default do_desc user_lines).*1
        /\ StronglySorted String.le
             (configuration_plan cdp_map interfaces do_default do_desc user_lines).*1)
  /\ find_aps_in_cdp scenario_summary =
       [("AIR-AP1815", "GigabitEthernet1/0/1"); ("C9115", "GigabitEthernet1/0/2")]
  /\ configuration_plan scenario_detail_map
       (group_by_interface (find_aps_in_cdp scenario_summary))
       (Some false) true ["power inline auto"] =
       [ ("GigabitEthernet1/0/1",
          ["interface GigabitEthernet1/0/1"; "description lobby-ap"; "power inline auto"]);
         ("GigabitEthernet1/0/2",
          ["interface GigabitEthernet1/0/2"; "description C9115"; "power inline auto"]) ].
Proof.
  split; [|split; [|split; [|split]]].
  - intros output detail do_default do_desc user_lines intf aps cdp_map.
    unfold cfg_commands, desc_line, resolve_desc, py_or.
    rewrite first_device_seen. fold aps.
    do 2 f_equal. f_equal. destruct do_desc; [|done].
    destruct (cdp_map !! intf) as [hostname|] eqn:Hhost.
    + apply cdp_map_values_nonempty in Hhost.
      apply truthy_true in Hhost. rewrite Hhost. by rewrite Hhost.
    + destruct (head (devices_seen aps intf)) as [dev|] eqn:Hdev; [|done].
      apply head_Some_elem_of, devices_seen_elem, find_aps_devices_nonempty in Hdev.
      apply truthy_true in Hdev. by rewrite Hdev.
  - intros output cdp_map do_default do_desc user_lines intf cmds aps.
    by rewrite configuration_plan_elem, planned_group_elem.
  - intros cdp_map interfaces do_default do_desc user_lines.
    unfold configuration_plan. rewrite <- list_fmap_compose.
    assert (Hid : forall l : list string,
              (fst ∘ (fun intf =>
                 (intf, cfg_commands cdp_map interfaces do_default do_desc user_lines intf)))
              <$> l = l).
    { intros l. induction l as [|x l IH]; [done|]. simpl. by f_equal. }
    rewrite Hid. unfold planned_interfaces. split.
    + apply NoDup_filter, sorted_keys_NoDup.
    + apply filter_keeps_sorted, sorted_keys_sorted.
  - by vm_compute.
  - by vm_compute.
Qed.

(** ** The sentinel in the summary scan *)





(** Every list stored by the grouping loop holds at least one device. *)
Lemma group_by_interface_nonempty (aps : list (string * string))
  (intf : string) (devs : list string) :
  group_by_interface aps !! intf = Some devs -> devs ≠ [].
Proof.
  rewrite group_by_interface_lookup.
  destruct (devices_seen aps intf); [done|]. by intros [= <-].
Qed.

(** ** Reasoning about runs *)

Lemma bind_run {A B} (m : M A) (f : A -> M B) (w : world) :
  (m ≫= f) w =
    match m w with
    | (Val a, w1, t1) =>
        match f a w1 with (r, w2, t2) => (r, w2, t1 ++ t2) end
    | (Raise e, w1, t1) => (Raise e, w1, t1)
    end.
Proof. reflexivity. Qed.

Lemma ret_run {A} (a : A) (w : world) : (mret a : M A) w = (Val a, w, []).
Proof. reflexivity. Qed.

Lemma print_run (text : string) (w : world) :
  print text w = (Val tt, w, [EvPrint text]).
Proof. reflexivity. Qed.

Lemma device_call_run (ev : event) (w : world) :
  device_call ev w =
    (match w_device w (w_calls w) with
     | Reply out => Val out
     | Raises e => Raise e
     end, called w, [ev]).
Proof. unfold device_call. by destruct (w_device w (w_calls w)). Qed.

Lemma device_unit_run (ev : event) (w : world) :
  (device_call ev ;; mret tt) w =
    (match w_device w (w_calls w) with
     | Reply _ => Val tt
     | Raises e => Raise e
     end, called w, [ev]).
Proof.
  rewrite bind_run, device_call_run. by destruct (w_device w (w_calls w)).
Qed.

Lemma disconnect_run (w : world) :
  disconnect w =
    (match w_device w (w_calls w) with
     | Reply _ => Val tt
     | Raises e => Raise e
     end, called w, [EvDisconnect]).
Proof. apply device_unit_run. Qed.

Lemma ask_run (prompt : string) (w : world) :
  ask prompt w =
    match w_stdin w with
    | [] => (Raise eof_error, w, [EvInput prompt None])
    | a :: rest =>
        (Val (Str.lower (Str.strip a)), set_stdin w rest, [EvInput prompt (Some a)])
    end.
Proof. unfold ask. rewrite bind_run. unfold input. by destruct (w_stdin w). Qed.

Lemma ask_again_run (prompt : string) (w : world) :
  ask_again prompt w =
    match w_stdin w with
    | [] => (Raise eof_error, w, [EvInput prompt None])
    | a :: rest => (Val (again_flow a), set_stdin w rest, [EvInput prompt (Some a)])
    end.
Proof.
  unfold ask_again. rewrite bind_run, ask_run. by destruct (w_stdin w).
Qed.

Section TraceRelations.

Context (R : world -> world -> list event -> Prop) `{!TraceRel R}.

Lemma holds_ret {A} (a : A) : holds R (mret a : M A).
Proof. intros w. apply rel_nothing. Qed.

Lemma holds_bind {A B} (m : M A) (f : A -> M B) :
  holds R m -> (forall a, holds R (f a)) -> holds R (m ≫= f).
Proof.
  intros Hm Hf w. rewrite bind_run. specialize (Hm w).
  destruct (m w) as [[[a|e] w1] t1]; [|done].
  specialize (Hf a w1). destruct (f a w1) as [[r w2] t2].
  by eapply rel_compose.
Qed.

Lemma holds_catch {A} (m : M A) (handler : exn -> M A) :
  holds R m -> (forall e, holds R (handler e)) -> holds R (catch m handler).
Proof.
  intros Hm Hh w. unfold catch. specialize (Hm w).
  destruct (m w) as [[[a|e] w1] t1]; [done|].
  specialize (Hh e w1). destruct (handler e w1) as [[r w2] t2].
  by eapply rel_compose.
Qed.

Lemma holds_try_finally {A} (m : M A) (cleanup : M unit) :
  holds R m -> holds R cleanup -> holds R (try_finally m cleanup).
Proof.
  intros Hm Hc w. unfold try_finally. specialize (Hm w).
  destruct (m w) as [[r w1] t1]. specialize (Hc w1).
  destruct (cleanup w1) as [[[[]|e] w2] t2]; by eapply rel_compose.
Qed.

Lemma holds_mfor {A} (xs : list A) (body : A -> M unit) :
  (forall x, holds R (body x)) -> holds R (mfor xs body).
Proof.
  intros Hb. induction xs as [|x xs IH]; cbn [mfor].
  - apply holds_ret.
  - apply holds_bind; [apply Hb | by intros _].
Qed.

End TraceRelations.

#[global] Instance emitting_rel (P : event -> Prop) : TraceRel (emitting P).
Proof.
  split; unfold emitting.
  - intros _. constructor.
  - intros _ _ _ t1 t2 H1 H2. by apply Forall_app.
Qed.

Lemma emitting_print (P : event -> Prop) (text : string) :
  P (EvPrint text) -> holds (emitting P) (print text).
Proof. intros H w. by repeat constructor. Qed.

Lemma emitting_input (P : event -> Prop) (prompt : string) :
  (forall a, P (EvInput prompt a)) -> holds (emitting P) (input prompt).
Proof.
  intros H w. unfold input, emitting. destruct (w_stdin w); by repeat constructor.
Qed.

Lemma emitting_getpass (P : event -> Prop) (prompt : string) :
  (forall a, P (EvGetpass prompt a)) -> holds (emitting P) (getpass prompt).
Proof.
  intros H w. unfold getpass, emitting. destruct (w_stdin w); by repeat constructor.
Qed.

Lemma emitting_device_call (P : event -> Prop) (ev : event) :
  P ev -> holds (emitting P) (device_call ev).
Proof.
  intros H w. unfold device_call, emitting.
  destruct (w_device w (w_calls w)); by repeat constructor.
Qed.

Lemma emitting_get_saved (P : event -> Prop) : holds (emitting P) get_saved.
Proof. intros w. constructor. Qed.

Lemma emitting_put_saved (P : event -> Prop) (st : session_state) :
  holds (emitting P) (put_saved st).
Proof. intros w. constructor. Qed.

Lemma read_lines_inputs (P : event -> Prop) (stdin : list string) :
  (forall a, P (EvInput EmptyString a)) -> Forall P (read_lines stdin).2.
Proof.
  intros H. induction stdin as [|line rest IH]; cbn [read_lines].
  - by repeat constructor.
  - destruct (String.eqb (Str.strip line) "."); [by repeat constructor|].
    destruct (read_lines rest) as [[ls rest'] evs]. by constructor.
Qed.

Lemma emitting_read_user_lines (P : event -> Prop) :
  (forall a, P (EvInput EmptyString a)) -> holds (emitting P) read_user_lines.
Proof.
  intros H w. unfold read_user_lines, emitting.
  pose proof (read_lines_inputs P (w_stdin w) H) as Hr.
  by destruct (read_lines (w_stdin w)) as [[ls rest] evs].
Qed.

(** ** The preview and the apply loop (C8, C9) *)

Lemma eqb_unknown (intf : string) :
  String.eqb intf unknown_interface = bool_decide (intf = unknown_interface).
Proof.
  destruct (String.eqb_spec intf unknown_interface) as [->|Hne].
  - by rewrite bool_decide_eq_true_2.
  - by rewrite bool_decide_eq_false_2.
Qed.

Lemma filter_known_cons (intf : string) (rest : list string) :
  filter (fun i => i ≠ unknown_interface) (intf :: rest) =
    if String.eqb intf unknown_interface
    then filter (fun i => i ≠ unknown_interface) rest
    else intf :: filter (fun i => i ≠ unknown_interface) rest.
Proof.
  rewrite filter_cons, eqb_unknown.
  destruct (decide (intf ≠ unknown_interface)) as [Hne|Heq].
  - by rewrite bool_decide_eq_false_2.
  - rewrite bool_decide_eq_true_2; [done|]. by destruct (decide (intf = unknown_interface)).
Qed.

(** A loop whose body only prints runs to its end and leaves the world as
    it was. *)
Lemma mfor_prints {A} (xs : list A) (body : A -> M unit) (lines : A -> list string) :
  (forall x w, body x w = (Val tt, w, map EvPrint (lines x))) ->
  forall w, mfor xs body w = (Val tt, w, map EvPrint (concat (map lines xs))).
Proof.
  intros Hbody. induction xs as [|x xs IH]; intros w; [done|].
  cbn [mfor]. rewrite bind_run, Hbody, IH. cbn [map concat].
  by rewrite fmap_app.
Qed.

Lemma mfor_print_each (xs : list string) (f : string -> string) (w : world) :
  mfor xs (fun l => print (f l)) w = (Val tt, w, map EvPrint (map f xs)).
Proof.
  rewrite (mfor_prints xs _ (fun l => [f l])) by done.
  do 2 f_equal. induction xs as [|x xs IH]; [done|]. simpl. by f_equal.
Qed.

Lemma preview_run (cdp_map : gmap string string)
  (interfaces : gmap string (list string)) (cfg : config) (w : world) :
  preview cdp_map interfaces cfg w =
    (Val tt, w, map EvPrint (preview_text cdp_map interfaces cfg)).
Proof.
  destruct cfg as [[do_desc user_lines] do_default].
  unfold preview, preview_text. rewrite bind_run. cbn [print].
  rewrite (mfor_prints _ _ (preview_lines cdp_map interfaces (do_desc, user_lines, do_default))).
  { done. }
  intros intf w'. unfold preview_lines.
  destruct (String.eqb intf unknown_interface); [done|].
  assert (Hd : (if flag_on do_default
                then print ("  default interface " +:+ intf) else mret tt) w'
               = (Val tt, w', map EvPrint
                    (if flag_on do_default then ["  default interface " +:+ intf] else []))).
  { by destruct (flag_on do_default). }
  rewrite bind_run, Hd. cbv beta iota.
  rewrite bind_run. cbn [print]. cbv beta iota.
  rewrite bind_run, !mfor_print_each. cbv beta iota.
  by rewrite !fmap_app.
Qed.

Lemma apply_interface_run (cdp_map : gmap string string)
  (interfaces : gmap string (list string)) (do_desc : bool)
  (user_lines : list string) (do_default : option bool) (intf : string) (w : world) :
  apply_interface cdp_map interfaces (do_desc, user_lines, do_default) intf w =
    if String.eqb intf unknown_interface then
      (Val tt, w, [EvPrint "Skipping unknown interface"])
    else
      (Val tt, World (w_stdin w) (w_device w) (S (w_calls w)) (w_saved w),
       [ EvPrint (nl +:+ "Applying changes to " +:+ intf +:+ "...");
         EvSendConfigSet
           (cfg_commands cdp_map interfaces do_default do_desc user_lines intf);
         EvPrint (apply_notice user_lines intf (w_device w (w_calls w))) ]).
Proof.
  unfold apply_interface. destruct (String.eqb intf unknown_interface); [done|].
  rewrite bind_run. cbn [print]. unfold catch. rewrite bind_run.
  unfold send_config_set, device_call.
  by destruct (w_device w (w_calls w)).
Qed.

Lemma apply_loop_run (cdp_map : gmap string string)
  (interfaces : gmap string (list string)) (do_desc : bool)
  (user_lines : list string) (do_default : option bool) (keys : list string) :
  forall w,
    mfor keys (apply_interface cdp_map interfaces (do_desc, user_lines, do_default)) w =
      (Val tt,
       World (w_stdin w) (w_device w)
             (w_calls w + length (filter (fun i => i ≠ unknown_interface) keys))
             (w_saved w),
       apply_events (cfg_commands cdp_map interfaces do_default do_desc user_lines)
                    user_lines (w_device w) (w_calls w) keys).
Proof.
  induction keys as [|intf rest IH]; intros w.
  { cbn [mfor filter list_filter length apply_events]. rewrite ret_run.
    rewrite Nat.add_0_r. by destruct w. }
  cbn [mfor apply_events]. rewrite bind_run, apply_interface_run, filter_known_cons.
  destruct (String.eqb intf unknown_interface).
  - by rewrite IH.
  - rewrite IH. cbn [w_stdin w_device w_calls w_saved length].
    by rewrite Nat.add_succ_r.
Qed.

Lemma apply_events_device (cmds_of : string -> list string) (user_lines : list string)
  (device : nat -> reply) (keys : list string) :
  forall calls,
    device_events (apply_events cmds_of user_lines device calls keys) =
      map (fun intf => EvSendConfigSet (cmds_of intf))
          (filter (fun i => i ≠ unknown_interface) keys).
Proof.
  unfold device_events.
  induction keys as [|intf rest IH]; intros calls; [done|].
  cbn [apply_events]. rewrite filter_known_cons.
  destruct (String.eqb intf unknown_interface).
  - rewrite filter_cons_False by done. apply IH.
  - rewrite filter_cons_False by done. rewrite filter_cons_True by done.
    rewrite filter_cons_False by done. cbn [map]. f_equal. apply IH.
Qed.

Lemma apply_events_notice (cmds_of : string -> list string) (user_lines : list string)
  (device : nat -> reply) (keys : list string) :
  forall calls k intf,
    filter (fun i => i ≠ unknown_interface) keys !! k = Some intf ->
    EvPrint (apply_notice user_lines intf (device (calls + k)))
      ∈ apply_events cmds_of user_lines device calls keys.
Proof.
  induction keys as [|i rest IH]; intros calls k intf; [done|].
  rewrite filter_known_cons. cbn [apply_events].
  destruct (String.eqb i unknown_interface).
  - intros H. right. by apply IH.
  - destruct k as [|k]; simpl.
    + intros [= ->]. rewrite Nat.add_0_r. do 2 right. by left.
    + intros H. do 3 right. rewrite <- Nat.add_succ_comm. by apply IH.
Qed.

Lemma apply_events_skip (cmds_of : string -> list string) (user_lines : list string)
  (device : nat -> reply) (keys : list string) :
  forall calls,
    unknown_interface ∈ keys ->
    EvPrint "Skipping unknown interface"
      ∈ apply_events cmds_of user_lines device calls keys.
Proof.
  induction keys as [|i rest IH]; intros calls; [by intros ?%elem_of_nil|].
  cbn [apply_events]. destruct (String.eqb_spec i unknown_interface) as [Heq|Hne].
  - intros _. by left.
  - intros [Heq|Hin]%elem_of_cons; [by symmetry in Heq|]. do 3 right. by apply IH.
Qed.

(** C8.  Whatever the device replies, the apply loop runs to its end
    without raising; the calls it makes on the device session are exactly
    one [send_config_set] per planned interface, in the sorted order and
    with the batch built for that interface, so a failure on one interface
    neither stops the interfaces after it nor is followed by any command
    that would undo it; and the attempt on the k-th planned interface ends
    with a notice that reports the exception when the device raised one,
    and the number of lines applied otherwise. *)
Theorem apply_isolates_interface_failures
  (cdp_map : gmap string string) (interfaces : gmap string (list string))
  (do_desc : bool) (user_lines : list string) (do_default : option bool)
  (w : world) :
  let cfg := (do_desc, user_lines, do_default) in
  let cmds_of := cfg_commands cdp_map interfaces do_default do_desc user_lines in
  let run := apply_changes cdp_map interfaces cfg w in
  outcome run = Val tt
  /\ device_events (events run) =
       map (fun intf => EvSendConfigSet (cmds_of intf)) (planned_interfaces interfaces)
  /\ w_calls (final run) = w_calls w + length (planned_interfaces interfaces)
  /\ (forall k intf e,
        planned_interfaces interfaces !! k = Some intf ->
        w_device w (w_calls w + k) = Raises e ->
        EvPrint ("Error configuring " +:+ intf +:+ ": " +:+ exn_text e) ∈ events run)
  /\ (forall k intf out,
        planned_interfaces interfaces !! k = Some intf ->
        w_device w (w_calls w + k) = Reply out ->
        EvPrint ("Applied " +:+ Str.of_nat (length user_lines)
                 +:+ " config lines to " +:+ intf) ∈ events run).
Proof.
  intros cfg cmds_of run. subst run cfg. unfold apply_changes.
  rewrite apply_loop_run. fold cmds_of. unfold outcome, final, events.
  cbn [fst snd w_calls]. fold (planned_interfaces interfaces).
  split; [done|]. split; [apply apply_events_device|]. split; [done|].
  split.
  - intros k intf e Hk He.
    pose proof (apply_events_notice cmds_of user_lines (w_device w)
                  (sorted_keys interfaces) (w_calls w) k intf Hk) as Hin.
    by rewrite He in Hin.
  - intros k intf out Hk Hout.
    pose proof (apply_events_notice cmds_of user_lines (w_device w)
                  (sorted_keys interfaces) (w_calls w) k intf Hk) as Hin.
    by rewrite Hout in Hin.
Qed.

Lemma elem_of_concat {A} (x : A) (ls : list (list A)) :
  x ∈ concat ls <-> exists l, x ∈ l /\ l ∈ ls.
Proof.
  induction ls as [|l ls IH]; simpl.
  - split; [by intros ?%elem_of_nil | by intros (l & _ & ?%elem_of_nil)].
  - rewrite elem_of_app, IH. split.
    + intros [Hx | (l' & Hx & Hl')]; [exists l | exists l']; split; try done;
        [by left | by right].
    + intros (l' & Hx & [-> | Hl']%elem_of_cons); [by left | right; by exists l'].
Qed.

Lemma preview_lines_known (cdp_map : gmap string string)
  (interfaces : gmap string (list string)) (cfg : config) (intf line : string) :
  line ∈ preview_lines cdp_map interfaces cfg intf ->
  line ≠ "  interface " +:+ unknown_interface /\
  line ≠ "  default interface " +:+ unknown_interface.
Proof.
  destruct cfg as [[do_desc user_lines] do_default]. unfold preview_lines.
  destruct (String.eqb_spec intf unknown_interface) as [Heq|Hne].
  { intros ->%list_elem_of_singleton. split; discriminate. }
  rewrite !elem_of_app, !list_elem_of_fmap, list_elem_of_singleton.
  intros [Hd | [-> | [(l & -> & _) | (l & -> & _)]]].
  - destruct (flag_on do_default); [|by apply elem_of_nil in Hd].
    apply list_elem_of_singleton in Hd as ->. split; [discriminate|].
    simpl. intros [= H]. by apply Hne.
  - split; [|discriminate]. simpl. intros [= H]. by apply Hne.
  - split; discriminate.
  - split; discriminate.
Qed.

(** C9.  Whatever the discovery result, the sentinel for an unknown
    interface is not an interface of the plan; every batch the apply loop
    sends is the batch of an interface of the discovery result other than
    the sentinel; the rendered preview has neither an interface line nor a
    default-interface line for the sentinel; and when the sentinel is among
    the interfaces found, the preview and the apply loop each print their
    notice that the unknown interface is skipped. *)
Theorem unknown_interface_excluded_and_reported
  (cdp_map : gmap string string) (interfaces : gmap string (list string))
  (do_desc : bool) (user_lines : list string) (do_default : option bool)
  (w : world) :
  let cfg := (do_desc, user_lines, do_default) in
  let cmds_of := cfg_commands cdp_map interfaces do_default do_desc user_lines in
  let shown := events (preview cdp_map interfaces cfg w) in
  let applied := events (apply_changes cdp_map interfaces cfg w) in
  (unknown_interface ∉
     (configuration_plan cdp_map interfaces do_default do_desc user_lines).*1)
  /\ (forall cmds,
        EvSendConfigSet cmds ∈ applied ->
        exists intf,
          intf ≠ unknown_interface /\ is_Some (interfaces !! intf) /\
          cmds = cmds_of intf)
  /\ (EvPrint ("  interface " +:+ unknown_interface) ∉ shown)
  /\ (EvPrint ("  default interface " +:+ unknown_interface) ∉ shown)
  /\ (is_Some (interfaces !! unknown_interface) ->
      EvPrint "  Skipping unknown interface" ∈ shown /\
      EvPrint "Skipping unknown interface" ∈ applied).
Proof.
  intros cfg cmds_of shown applied. subst shown applied cfg.
  rewrite preview_run. unfold apply_changes. rewrite apply_loop_run.
  fold cmds_of. unfold events. cbn [snd].
  split; [|split; [|split; [|split]]].
  - unfold configuration_plan. rewrite <- list_fmap_compose.
    intros (intf & Heq & [_ Hne]%planned_interfaces_elem)%list_elem_of_fmap.
    simpl in Heq. congruence.
  - intros cmds Hin.
    assert (Hdev : EvSendConfigSet cmds ∈
              device_events (apply_events cmds_of user_lines (w_device w) (w_calls w)
                               (sorted_keys interfaces))).
    { unfold device_events. by apply list_elem_of_filter. }
    rewrite apply_events_device in Hdev.
    apply list_elem_of_fmap in Hdev as (intf & [= ->] & Hintf).
    fold (planned_interfaces interfaces) in Hintf.
    apply planned_interfaces_elem in Hintf as [Hsome Hne]. by exists intf.
  - intros (line & [= <-] & Hin)%list_elem_of_fmap. unfold preview_text in Hin.
    apply elem_of_cons in Hin as [Hhead|Hin]; [discriminate|].
    apply elem_of_concat in Hin as (ls & Hline & (intf & -> & _)%list_elem_of_fmap).
    by destruct (preview_lines_known _ _ _ _ _ Hline).
  - intros (line & [= <-] & Hin)%list_elem_of_fmap. unfold preview_text in Hin.
    apply elem_of_cons in Hin as [Hhead|Hin]; [discriminate|].
    apply elem_of_concat in Hin as (ls & Hline & (intf & -> & _)%list_elem_of_fmap).
    by destruct (preview_lines_known _ _ _ _ _ Hline).
  - intros Hsome%sorted_keys_elem. split.
    + apply list_elem_of_fmap. exists "  Skipping unknown interface". split; [done|].
      unfold preview_text. right. apply elem_of_concat.
      exists (preview_lines cdp_map interfaces (do_desc, user_lines, do_default)
                unknown_interface).
      split; [by left|]. apply list_elem_of_fmap. by exists unknown_interface.
    + by apply apply_events_skip.
Qed.

(** ** Release of the session on every path (C7) *)

Create HintDb programs discriminated.
#[local] Hint Unfold ask ask_again send_command send_config_set save_config
  disconnect ConnectHandler save_for_reuse report_found preview apply_changes
  apply_interface prompt_credentials obtain_credentials connection_failed
  : programs.

(** One step of a proof that every run of a program is in a relation:
    follow the structure of the program. *)
Ltac holds_step_with prim unf :=
  lazymatch goal with
  | |- holds _ (mret _) => apply holds_ret; apply _
  | |- holds _ (_ ≫= _) => apply holds_bind; [apply _ | | intros ?]
  | |- holds _ (catch _ _) => apply holds_catch; [apply _ | | intros ?]
  | |- holds _ (try_finally _ _) => apply holds_try_finally; [apply _ | | ]
  | |- holds _ (mfor _ _) => apply holds_mfor; [apply _ | intros ?]
  | |- holds _ (if ?b then _ else _) => destruct b
  | |- holds _ (match ?x with _ => _ end) => destruct x
  | |- holds _ _ => first [ prim | unf ]
  end.

Ltac holds_step prim :=
  holds_step_with prim ltac:(progress autounfold with programs).

Ltac emitting_prim :=
  first [ apply emitting_print; done
        | apply emitting_input; intros ?; done
        | apply emitting_getpass; intros ?; done
        | apply emitting_device_call; done
        | apply emitting_get_saved
        | apply emitting_put_saved
        | apply emitting_read_user_lines; intros ?; done ].

Ltac emitting := repeat holds_step emitting_prim.

Lemma disconnects_app (t1 t2 : list event) :
  disconnects (t1 ++ t2) = disconnects t1 + disconnects t2.
Proof. unfold disconnects. by rewrite filter_app, length_app. Qed.

Lemma quiet_disconnects (t : list event) :
  Forall (fun e => is_disconnect e = false) t -> disconnects t = 0.
Proof.
  unfold disconnects. induction 1 as [|e t He _ IH]; [done|].
  rewrite filter_cons_False; [done|]. by rewrite He.
Qed.

Lemma quiet_run {A} (m : M A) (w : world) :
  holds quiet m -> disconnects (events (m w)) = 0.
Proof. intros H. apply quiet_disconnects, H. Qed.

Lemma releases_bind_quiet {A B} (early : B -> bool) (m : M A) (f : A -> M B) :
  holds quiet m -> (forall a, releases_once_if early (f a)) ->
  releases_once_if early (m ≫= f).
Proof.
  intros Hm Hf w. rewrite bind_run. pose proof (quiet_run m w Hm) as Hq.
  destruct (m w) as [[[a|e] w1] t1]; unfold outcome, events in *; cbn [fst snd] in *.
  - specialize (Hf a w1). destruct (f a w1) as [[r w2] t2].
    unfold outcome, events in *. cbn [fst snd] in *.
    rewrite disconnects_app, Hq. exact Hf.
  - lia.
Qed.

Lemma releases_quiet {A} (early : A -> bool) (m : M A) :
  holds quiet m -> (forall w a, outcome (m w) = Val a -> early a = false) ->
  releases_once_if early m.
Proof.
  intros Hm He w. rewrite (quiet_run m w Hm).
  destruct (outcome (m w)) as [a|e] eqn:Ho; [|lia]. by rewrite (He w a Ho).
Qed.

Lemma ask_again_early (prompt : string) (w : world) (fl : flow) :
  outcome (ask_again prompt w) = Val fl -> early_flow fl = true.
Proof.
  rewrite ask_again_run. destruct (w_stdin w) as [|a rest]; [done|].
  intros [= <-]. unfold again_flow. by destruct (String.eqb _ _).
Qed.

Lemma leave_switch_releases (notice : string) :
  releases_once_if early_flow (leave_switch notice).
Proof.
  intros w. unfold leave_switch.
  rewrite bind_run, print_run, bind_run, disconnect_run.
  destruct (w_device w (w_calls w)) as [out|e];
    [|unfold outcome, events, disconnects; simpl; lia].
  pose proof (ask_again_early "Configure another switch? [y/N]: " (called w)) as Hfl.
  assert (Hq : holds quiet (ask_again "Configure another switch? [y/N]: "))
    by emitting.
  specialize (Hq (called w)). apply quiet_disconnects in Hq.
  destruct (ask_again _ (called w)) as [[[fl|e] w2] t2];
    unfold outcome, events in *; cbn [fst snd] in *.
  - rewrite (Hfl fl eq_refl). unfold disconnects in *. simpl. by rewrite Hq.
  - unfold disconnects in *. simpl. rewrite Hq. lia.
Qed.

Lemma releases_map {A B} (early : A -> bool) (early' : B -> bool)
  (m : M A) (g : A -> B) :
  releases_once_if early m -> (forall a, early' (g a) = early a) ->
  releases_once_if early' (m ≫= fun a => mret (g a)).
Proof.
  intros Hm Hg w. rewrite bind_run. specialize (Hm w).
  destruct (m w) as [[[a|e] w1] t1]; unfold outcome, events in *;
    cbn [fst snd] in *; [|done].
  rewrite ret_run. cbn [fst snd]. by rewrite app_nil_r, Hg.
Qed.

Lemma releases_bind_choice (m : M (flow + config)) (f : config -> M flow) :
  releases_once_if early_choice m ->
  (forall cfg, releases_once_if early_flow (f cfg)) ->
  releases_once_if early_flow
    (chosen ← m; match chosen with inl fl => mret fl | inr cfg => f cfg end).
Proof.
  intros Hm Hf w. rewrite bind_run. specialize (Hm w).
  destruct (m w) as [[[[fl|cfg]|e] w1] t1]; unfold outcome, events in *;
    cbn [fst snd early_choice] in *; [| |done].
  - rewrite ret_run. cbn [fst snd]. by rewrite app_nil_r.
  - specialize (Hf cfg w1). destruct (f cfg w1) as [[r w2] t2].
    unfold outcome, events in *. cbn [fst snd] in *.
    by rewrite disconnects_app, Hm.
Qed.

Lemma ask_default_releases (do_desc : bool) (user_lines : list string) :
  releases_once_if early_choice
    (default_choice ← ask "Default interfaces before applying config? [y/N]: ";
     mret (inr (do_desc, user_lines, Some (String.eqb default_choice "y")))).
Proof.
  apply releases_quiet; [by emitting|].
  intros w a. rewrite bind_run, ask_run.
  destruct (w_stdin w); [done|]. by intros [= <-].
Qed.

Lemma prompt_new_config_releases : releases_once_if early_choice prompt_new_config.
Proof.
  unfold prompt_new_config.
  apply releases_bind_quiet; [by emitting | intros desc_choice].
  apply releases_bind_quiet; [by emitting | intros _].
  apply releases_bind_quiet; [by emitting | intros _].
  apply releases_bind_quiet; [by emitting | intros user_lines].
  cbv zeta. destruct user_lines as [|l ls]; [|apply ask_default_releases].
  destruct (negb _).
  - apply releases_bind_quiet; [by emitting | intros _]. apply ask_default_releases.
  - apply (releases_map early_flow); [apply leave_switch_releases | done].
Qed.

Lemma choose_config_releases : releases_once_if early_choice choose_config.
Proof.
  unfold choose_config.
  apply releases_bind_quiet; [by emitting | intros st].
  destruct (prev_user_lines st) as [lines|]; [|apply prompt_new_config_releases].
  apply releases_bind_quiet; [by emitting | intros reuse_cfg].
  destruct (negb _); [|apply prompt_new_config_releases].
  apply releases_quiet; [by emitting|]. intros w a. rewrite ret_run. by intros [= <-].
Qed.

Lemma configure_releases (cdp_map : gmap string string)
  (interfaces : gmap string (list string)) :
  releases_once_if early_flow (configure cdp_map interfaces).
Proof.
  unfold configure. apply releases_bind_choice; [apply choose_config_releases|].
  intros [[do_desc user_lines] do_default].
  apply releases_bind_quiet; [by emitting | intros _].
  apply releases_bind_quiet; [by emitting | intros _].
  apply releases_bind_quiet; [by emitting | intros confirm].
  destruct (negb _); [apply leave_switch_releases|].
  apply releases_bind_quiet; [by emitting | intros _].
  apply releases_bind_quiet; [by emitting | intros _].
  apply releases_quiet; [by emitting|]. intros w a. rewrite ret_run. by intros [= <-].
Qed.

Lemma session_body_releases : releases_once_if early_flow session_body.
Proof.
  unfold session_body.
  apply releases_bind_quiet; [by emitting | intros output].
  destruct (find_aps_in_cdp output) as [|ap aps]; [apply leave_switch_releases|].
  apply releases_bind_quiet; [by emitting | intros cdp_map].
  apply releases_bind_quiet; [by emitting | intros _].
  apply releases_bind_quiet; [by emitting | intros proceed].
  destruct (negb _); [apply leave_switch_releases | apply configure_releases].
Qed.

Lemma release_run (w : world) : release w = (Val tt, called w, [EvDisconnect]).
Proof.
  unfold release, catch. rewrite disconnect_run.
  by destruct (w_device w (w_calls w)).
Qed.

Lemma session_scope_run (w : world) :
  session_scope w =
    (outcome (session_body w), called (final (session_body w)),
     events (session_body w) ++ [EvDisconnect]).
Proof.
  unfold session_scope, try_finally.
  destruct (session_body w) as [[r w1] t1]. by rewrite release_run.
Qed.

Lemma device_events_app (t1 t2 : list event) :
  device_events (t1 ++ t2) = device_events t1 ++ device_events t2.
Proof. apply filter_app. Qed.

Lemma offline_device_events (t : list event) :
  Forall (fun e => is_device_event e = false) t -> device_events t = [].
Proof.
  unfold device_events. induction 1 as [|e t He _ IH]; [done|].
  rewrite filter_cons_False; [done|]. by rewrite He.
Qed.

Lemma offline_run {A} (m : M A) (w : world) :
  holds offline m -> device_events (events (m w)) = [].
Proof. intros H. apply offline_device_events, H. Qed.

Lemma connect_run (ip username password : string) (w : world) :
  catch (ConnectHandler ip username password ;; mret None)
        (fun e => mret (Some e)) w =
    (Val (match w_device w (w_calls w) with
          | Reply _ => None
          | Raises e => Some e
          end),
     called w, [EvConnect ip username password]).
Proof.
  unfold catch, ConnectHandler. rewrite bind_run, device_unit_run.
  by destruct (w_device w (w_calls w)).
Qed.

Lemma input_offline (prompt : string) : holds offline (input prompt).
Proof. emitting. Qed.

Lemma obtain_credentials_offline : holds offline obtain_credentials.
Proof. emitting. Qed.

Lemma connection_failed_offline (e : exn) : holds offline (connection_failed e).
Proof. unfold connection_failed. destruct (exn_kind e); emitting. Qed.

Lemma closing_question_offline (fl : flow) :
  holds offline
    (match fl with
     | Next => ask_again "Configure another switch? [y/N]: "
     | _ => mret fl
     end).
Proof. destruct fl; emitting. Qed.

Lemma device_events_disconnect (t : list event) :
  device_events (t ++ [EvDisconnect]) = device_events t ++ [EvDisconnect].
Proof. by rewrite device_events_app. Qed.

Lemma session_then_question_devices (w : world) :
  device_events
    (events ((fl ← session_scope;
              match fl with
              | Next => ask_again "Configure another switch? [y/N]: "
              | _ => mret fl
              end) w)) =
    device_events (events (session_body w)) ++ [EvDisconnect].
Proof.
  rewrite bind_run, session_scope_run.
  destruct (session_body w) as [[[fl|e] w3] t3];
    unfold outcome, final, events; cbn [fst snd];
    [|apply device_events_disconnect].
  pose proof (offline_run _ (called w3) (closing_question_offline fl)) as Hoff.
  destruct fl; rewrite ?ret_run, ?ask_again_run in *;
    try (destruct (w_stdin (called w3))); unfold events in *; cbn [fst snd] in *;
    by rewrite device_events_app, Hoff, app_nil_r, device_events_disconnect.
Qed.

(** The calls on the device session during one turn of the loop: none, a
    connection attempt alone, or a connection followed by calls that end
    with a disconnect. *)
Lemma main_iteration_device_events (w : world) :
  device_events (events (main_iteration w)) = []
  \/ (exists ip username password,
        device_events (events (main_iteration w)) = [EvConnect ip username password])
  \/ (exists ip username password t,
        device_events (events (main_iteration w)) =
          EvConnect ip username password :: t ++ [EvDisconnect]).
Proof.
  unfold main_iteration. rewrite bind_run.
  pose proof (offline_run _ w (input_offline "Switch IP (blank to exit): ")) as Hip.
  destruct (input _ w) as [[[ip|e] w1] t1]; unfold events in *; cbn [snd] in *;
    [|by left].
  cbv zeta. destruct (Str.is_empty (Str.strip ip)).
  { left. rewrite bind_run, print_run, ret_run. cbn [snd].
    by rewrite device_events_app, Hip. }
  rewrite bind_run.
  pose proof (offline_run _ w1 obtain_credentials_offline) as Hcred.
  destruct (obtain_credentials w1) as [[[[username password]|e] w2] t2];
    unfold events in *; cbn [snd] in *.
  2:{ left. by rewrite device_events_app, Hip, Hcred. }
  rewrite bind_run, connect_run.
  destruct (w_device w2 (w_calls w2)) as [out|e].
  - right. right.
    pose proof (session_then_question_devices (called w2)) as Hs.
    unfold events in Hs.
    destruct ((session_scope ≫= _) (called w2)) as [[r' w5] t5].
    cbn [snd] in *.
    exists (Str.strip ip), username, password, (device_events (session_body (called w2)).2).
    rewrite !device_events_app, Hip, Hcred, Hs. by simpl.
  - right. left. exists (Str.strip ip), username, password.
    pose proof (offline_run _ (called w2) (connection_failed_offline e)) as Hf.
    destruct (connection_failed e (called w2)) as [[r' w5] t5].
    unfold events in *. cbn [snd] in *.
    rewrite !device_events_app, Hip, Hcred, Hf. by simpl.
Qed.

Lemma session_body_command_fails (w : world) (e : exn) :
  w_device w (w_calls w) = Raises e ->
  session_body w = (Raise e, called w, [EvSendCommand "show power inline"]).
Proof.
  intros H. unfold session_body, send_command.
  by rewrite bind_run, device_call_run, H.
Qed.

(** *** lldp_renamer.py *)

Lemma match_neighbors_emitting (P : event -> Prop) (policies : list device_policy)
  (neighbors : list neighbor) :
  (forall text, P (EvPrint text)) ->
  forall config_cmds, holds (emitting P) (match_neighbors policies neighbors config_cmds).
Proof.
  intros HP. induction neighbors as [|n rest IH]; intros config_cmds; cbn [match_neighbors].
  - apply holds_ret; apply _.
  - destruct (match_policy n policies); [|apply IH].
    apply holds_bind; [apply _ | by apply emitting_print | intros _; apply IH].
Qed.

Lemma disconnect_releases : releases_once_if (fun _ : unit => true) disconnect.
Proof.
  intros w. rewrite disconnect_run. unfold outcome, events, disconnects. cbn.
  destruct (w_device w (w_calls w)); simpl; lia.
Qed.

Lemma releases_then_quiet {A} (m : M unit) (f : unit -> M A) :
  releases_once_if (fun _ : unit => true) m -> (forall a, holds quiet (f a)) ->
  releases_once_if (fun _ : A => true) (m ≫= f).
Proof.
  intros Hm Hf w. rewrite bind_run. specialize (Hm w).
  destruct (m w) as [[[a|e] w1] t1]; unfold outcome, events in *;
    cbn [fst snd] in *; [|done].
  pose proof (quiet_run (f a) w1 (Hf a)) as Hq.
  destruct (f a w1) as [[r w2] t2]. unfold events in Hq. cbn [fst snd] in *.
  rewrite disconnects_app, Hm, Hq. destruct r; lia.
Qed.

Lemma lldp_session_releases : releases_once_if (fun _ : unit => true) lldp_session.
Proof.
  unfold lldp_session.
  apply releases_bind_quiet; [by emitting | intros _].
  apply releases_bind_quiet; [by emitting | intros lldp_output].
  destruct (parse_lldp_neighbors lldp_output) as [|n ns].
  { apply releases_bind_quiet; [by emitting | intros _]. apply disconnect_releases. }
  apply releases_bind_quiet; [by apply match_neighbors_emitting | intros config_cmds].
  destruct config_cmds as [|c cs].
  { apply releases_bind_quiet; [by emitting | intros _]. apply disconnect_releases. }
  do 4 (apply releases_bind_quiet; [by emitting | intros ?]).
  apply releases_then_quiet; [apply disconnect_releases | intros _; by emitting].
Qed.

Lemma lldp_session_command_fails (w : world) (e : exn) :
  w_device w (w_calls w) = Raises e ->
  lldp_session w =
    (Raise e, called w,
     [EvPrint "Collecting LLDP neighbors...";
      EvSendCommand "show lldp neighbors detail"]).
Proof.
  intros H. unfold lldp_session, send_command.
  rewrite bind_run, print_run, bind_run, device_call_run. cbn [w_device w_calls].
  by rewrite H.
Qed.

Lemma lldp_connected_releases (ip : string) :
  releases_once_if (fun _ : unit => true)
    (username ← input "Username: ";
     password ← getpass "Password: ";
     print (nl +:+ "Connecting to switch...") ;;
     ConnectHandler ip username password ;;
     lldp_session).
Proof.
  do 4 (apply releases_bind_quiet; [by emitting | intros ?]).
  apply lldp_session_releases.
Qed.

Lemma lldp_main_releases (w : world) :
  disconnects (events (lldp_main w)) <= 1
  /\ (outcome (lldp_main w) = Val tt ->
      (exists ip username password,
         EvConnect ip username password ∈ events (lldp_main w)) ->
      disconnects (events (lldp_main w)) = 1).
Proof.
  unfold lldp_main. rewrite bind_run.
  destruct (input _ w) as [[r0 w0] t0] eqn:Hin.
  unfold input in Hin.
  destruct (w_stdin w) as [|a rest]; injection Hin as <- <- <-.
  { unfold events, outcome. cbn [fst snd]. split; [vm_compute; lia | done]. }
  cbv zeta. destruct (Str.is_empty (Str.strip a)).
  { rewrite ret_run. unfold events, outcome. cbn [fst snd app].
    split; [vm_compute; lia|].
    intros _ (ip & u & p & Hin). apply list_elem_of_singleton in Hin. done. }
  pose proof (lldp_connected_releases (Str.strip a) (set_stdin w rest)) as Hr.
  destruct ((input "Username: " ≫= _) (set_stdin w rest)) as [[r w'] t].
  unfold outcome, events in *. cbn [fst snd] in *.
  change (disconnects ([EvInput "Switch IP (blank to exit): " (Some a)] ++ t))
    with (disconnects t).
  destruct r as [[]|e]; split; try done; lia.
Qed.

(** C7, as the code has it.  In ap_renamer.py the [try ... finally]
    statement that holds an open session always ends with a call of
    [disconnect], the clean-up of the [finally] clause, on every path:
    it is never skipped, also when the body raises.  The body itself has
    called [disconnect] before that exactly when it left through one of
    the early ways out (no neighbor found, the operator declines, nothing
    to do, the operator cancels), so [disconnect] is called twice on those
    paths and once when the apply loop has run or when discovery raised.
    In every turn of the loop the calls on the session, if any beyond a
    failed connection attempt, end with a [disconnect], so the session is
    released before the next target is asked for.  In lldp_renamer.py,
    which has no exception handling, [disconnect] is called once on every
    run of the session part that completes, and not at all when the first
    command on the session raises; over a whole run of its [main] it is
    called at most once, and once when the run connected and completed. *)
Theorem session_released_on_every_path :
  (forall w : world,
     let run := session_scope w in
     (exists t, events run = t ++ [EvDisconnect] /\ disconnects t <= 1)
     /\ (outcome run = Val Next -> disconnects (events run) = 1)
     /\ (outcome run = Val Continue \/ outcome run = Val Return ->
         disconnects (events run) = 2)
     /\ (forall e, w_device w (w_calls w) = Raises e ->
         outcome run = Raise e /\ disconnects (events run) = 1))
  /\ (forall w : world,
        device_events (events (main_iteration w)) = []
        \/ (exists ip username password,
              device_events (events (main_iteration w)) =
                [EvConnect ip username password])
        \/ (exists ip username password t,
              device_events (events (main_iteration w)) =
                EvConnect ip username password :: t ++ [EvDisconnect]))
  /\ (forall w : world,
        let run := lldp_session w in
        disconnects (events run) <= 1
        /\ (outcome run = Val tt -> disconnects (events run) = 1)
        /\ (forall e, w_device w (w_calls w) = Raises e ->
            outcome run = Raise e /\ disconnects (events run) = 0))
  /\ (forall w : world,
        let run := lldp_main w in
        disconnects (events run) <= 1
        /\ (outcome run = Val tt ->
            (exists ip username password,
               EvConnect ip username password ∈ events run) ->
            disconnects (events run) = 1)).
Proof.
  split; [|split; [|split; [|apply lldp_main_releases]]].
  - intros w run. subst run.
    pose proof (session_body_releases w) as Hbody.
    pose proof (session_body_command_fails w) as Hfails.
    rewrite session_scope_run.
    destruct (session_body w) as [[r w1] t1].
    unfold outcome, final, events in *. cbn [fst snd] in *.
    rewrite disconnects_app. change (disconnects [EvDisconnect]) with 1.
    split; [|split; [|split]].
    + exists t1. split; [done|]. destruct r as [fl|e]; [|done].
      rewrite Hbody. destruct (early_flow fl); lia.
    + intros ->. by rewrite Hbody.
    + intros [-> | ->]; by rewrite Hbody.
    + intros e He. by injection (Hfails e He) as -> _ ->.
  - apply main_iteration_device_events.
  - intros w run. subst run. pose proof (lldp_session_releases w) as Hs.
    split; [|split].
    + destruct (outcome (lldp_session w)); simpl in Hs; lia.
    + intros Ho. by rewrite Ho in Hs.
    + intros e He. by rewrite (lldp_session_command_fails w e He).
Qed.

(** C7 as stated fails: when no neighbor is found the body releases the
    session, asks the closing question, and the clean-up calls
    [disconnect] a second time. *)
Lemma session_released_twice_on_early_exit :
  outcome (session_scope world_no_neighbors) = Val Return
  /\ events (session_scope world_no_neighbors) =
       [ EvSendCommand "show power inline";
         EvPrint "No APs found with 'AIR-' or 'C91' in power inline.";
         EvDisconnect;
         EvInput "Configure another switch? [y/N]: " (Some "n");
         EvDisconnect ]
  /\ disconnects (events (session_scope world_no_neighbors)) = 2.
Proof. by vm_compute. Qed.

(** ** Persisted session state (C10) *)

Section Kept.

Context (R : world -> world -> list event -> Prop) `{!KeepsRel R}.

Lemma kept_print (text : string) : holds R (print text).
Proof. intros w. by apply keeps_rel. Qed.

Lemma kept_input (prompt : string) : holds R (input prompt).
Proof. intros w. apply keeps_rel. unfold input. by destruct (w_stdin w). Qed.

Lemma kept_getpass (prompt : string) : holds R (getpass prompt).
Proof. intros w. apply keeps_rel. unfold getpass. by destruct (w_stdin w). Qed.

Lemma kept_device_call (ev : event) : holds R (device_call ev).
Proof. intros w. apply keeps_rel. rewrite device_call_run. done. Qed.

Lemma kept_get_saved : holds R get_saved.
Proof. intros w. by apply keeps_rel. Qed.

Lemma kept_read_user_lines : holds R read_user_lines.
Proof.
  intros w. apply keeps_rel. unfold read_user_lines.
  by destruct (read_lines (w_stdin w)) as [[ls rest] evs].
Qed.

End Kept.

#[global] Instance config_saved_rel : TraceRel config_saved_on_request.
Proof.
  split; unfold config_saved_on_request.
  - intros w. by left.
  - intros w w1 w2 t1 t2 [H1 | (a & Ha & Hy)] [H2 | (b & Hb & Hy')].
    + left. congruence.
    + right. exists b. split; [|done]. apply elem_of_app. by right.
    + right. exists a. split; [|done]. apply elem_of_app. by left.
    + right. exists a. split; [|done]. apply elem_of_app. by left.
Qed.

#[global] Instance config_saved_keeps : KeepsRel config_saved_on_request.
Proof. intros w w' t H. left. by rewrite H. Qed.

#[global] Instance credentials_rel : TraceRel credentials_replaced_when_typed.
Proof.
  split; unfold credentials_replaced_when_typed.
  - intros w. by left.
  - intros w w1 w2 t1 t2 H1 H2.
    destruct H1 as [H1 | (Hc1 & u & p & Hu & Hp & Hs)];
      destruct H2 as [H2 | (Hc2 & u' & p' & Hu' & Hp' & Hs')].
    + left. congruence.
    + right. split.
      * destruct Hc2 as [Hnone | (a & Ha & Hn)]; [left; congruence|].
        right. exists a. split; [|done]. apply elem_of_app. by right.
      * exists u', p'. rewrite !elem_of_app. auto.
    + right. split.
      * destruct Hc1 as [Hnone | (a & Ha & Hn)]; [by left|].
        right. exists a. split; [|done]. apply elem_of_app. by left.
      * exists u, p. rewrite !elem_of_app. rewrite H2. auto.
    + right. split.
      * destruct Hc1 as [Hnone | (a & Ha & Hn)]; [by left|].
        right. exists a. split; [|done]. apply elem_of_app. by left.
      * exists u', p'. rewrite !elem_of_app. auto.
Qed.

#[global] Instance credentials_keeps : KeepsRel credentials_replaced_when_typed.
Proof. intros w w' t H. left. by rewrite H. Qed.

Lemma prompt_credentials_run (w : world) :
  prompt_credentials w =
    match w_stdin w with
    | [] => (Raise eof_error, w, [EvInput "Username: " None])
    | [u] =>
        (Raise eof_error, set_stdin w [],
         [EvInput "Username: " (Some u); EvGetpass "Password: " None])
    | u :: p :: rest =>
        (Val (Str.strip u, p),
         World rest (w_device w) (w_calls w)
               (SessionState (Some (Str.strip u, p))
                  (prev_user_lines (w_saved w)) (prev_do_default (w_saved w))
                  (prev_do_desc (w_saved w))),
         [EvInput "Username: " (Some u); EvGetpass "Password: " (Some p)])
    end.
Proof.
  unfold prompt_credentials. rewrite bind_run. unfold input.
  destruct (w_stdin w) as [|u [|p rest]]; [done| |];
    cbv zeta; rewrite bind_run; unfold getpass; cbn [w_stdin set_stdin]; done.
Qed.

Lemma save_for_reuse_run (do_desc : bool) (user_lines : list string)
  (do_default : option bool) (w : world) :
  save_for_reuse (do_desc, user_lines, do_default) w =
    match w_stdin w with
    | [] => (Raise eof_error, w, [EvInput save_prompt None])
    | a :: rest =>
        (Val tt,
         if String.eqb (Str.lower (Str.strip a)) "y" then
           World rest (w_device w) (w_calls w)
                 (SessionState (credentials (w_saved w)) (Some user_lines)
                    do_default (Some do_desc))
         else set_stdin w rest,
         [EvInput save_prompt (Some a)])
    end.
Proof.
  unfold save_for_reuse. rewrite bind_run, ask_run.
  destruct (w_stdin w) as [|a rest]; [done|].
  by destruct (String.eqb _ _).
Qed.

Lemma config_prompt_credentials : holds config_saved_on_request prompt_credentials.
Proof.
  intros w. rewrite prompt_credentials_run.
  destruct (w_stdin w) as [|u [|p rest]]; by left.
Qed.

Lemma config_save_for_reuse (cfg : config) :
  holds config_saved_on_request (save_for_reuse cfg).
Proof.
  intros w. destruct cfg as [[do_desc user_lines] do_default].
  rewrite save_for_reuse_run. destruct (w_stdin w) as [|a rest]; [by left|].
  destruct (String.eqb_spec (Str.lower (Str.strip a)) "y") as [Hy|Hn]; [|by left].
  right. exists a. split; [by left | done].
Qed.

Lemma credentials_save_for_reuse (cfg : config) :
  holds credentials_replaced_when_typed (save_for_reuse cfg).
Proof.
  intros w. destruct cfg as [[do_desc user_lines] do_default].
  rewrite save_for_reuse_run. destruct (w_stdin w) as [|a rest]; [by left|].
  by destruct (String.eqb _ _); left.
Qed.

Lemma credentials_obtain : holds credentials_replaced_when_typed obtain_credentials.
Proof.
  intros w. unfold obtain_credentials. rewrite bind_run. cbn [get_saved].
  destruct (credentials (w_saved w)) as [stored|] eqn:Hstored.
  - rewrite bind_run, ask_run. destruct (w_stdin w) as [|a rest] eqn:Hin; [by left|].
    destruct (String.eqb_spec (Str.lower (Str.strip a)) "n") as [Hn|Hy]; [|by left].
    rewrite prompt_credentials_run. cbn [set_stdin w_stdin].
    destruct rest as [|u [|p rest]]; [by left | by left |].
    right. split.
    + right. exists a. split; [by left | done].
    + exists u, p. unfold final, events. cbn. split; [|split; [|done]].
      * right. by left.
      * do 2 right. by left.
  - rewrite prompt_credentials_run.
    destruct (w_stdin w) as [|u [|p rest]]; [by left | by left |].
    right. split; [by left|]. exists u, p. unfold final, events. cbn.
    split; [by left|]. split; [right; by left | done].
Qed.

Create HintDb flows discriminated.
#[local] Hint Unfold main_iteration session_scope session_body release configure
  choose_config prompt_new_config leave_switch
  connection_failed ask ask_again send_command send_config_set disconnect
  ConnectHandler report_found preview apply_changes apply_interface : flows.

Lemma config_obtain : holds config_saved_on_request obtain_credentials.
Proof.
  unfold obtain_credentials.
  apply holds_bind; [apply _ | apply kept_get_saved; apply _ | intros st].
  destruct (credentials st); [|apply config_prompt_credentials].
  apply holds_bind; [apply _ | | intros use_creds].
  - unfold ask. apply holds_bind; [apply _ | apply kept_input; apply _ | intros a].
    apply holds_ret; apply _.
  - destruct (String.eqb use_creds "n"); [apply config_prompt_credentials|].
    apply holds_ret; apply _.
Qed.

Ltac kept_prim :=
  first [ apply config_obtain
        | apply config_prompt_credentials
        | apply config_save_for_reuse
        | apply credentials_obtain
        | apply credentials_save_for_reuse
        | apply kept_print; apply _
        | apply kept_input; apply _
        | apply kept_getpass; apply _
        | apply kept_device_call; apply _
        | apply kept_get_saved; apply _
        | apply kept_read_user_lines; apply _ ].

Ltac kept :=
  repeat holds_step_with kept_prim ltac:(progress autounfold with flows; cbv zeta).

Lemma main_iteration_config : holds config_saved_on_request main_iteration.
Proof. kept. Qed.

Lemma main_iteration_credentials : holds credentials_replaced_when_typed main_iteration.
Proof. kept. Qed.

(** C10, as the code has it.  Over one turn of the loop, whatever the
    operator types and the device replies: the stored configuration lines
    and the stored default and description toggles are the same after the
    turn as before it, unless the save prompt was answered with y during
    the turn; the stored credentials are the same after the turn as before
    it, unless none were stored or the operator answered n to the question
    about reusing them, in which case they are the user name and password
    typed at the prompts, with no confirmation asked. *)
Theorem saved_state_changes_only_as_prompted (w : world) :
  let run := main_iteration w in
  let before := w_saved w in
  let after := w_saved (final run) in
  ((prev_user_lines after, prev_do_default after, prev_do_desc after) =
   (prev_user_lines before, prev_do_default before, prev_do_desc before)
   \/ exists a,
        EvInput "Save these configuration lines for reuse on next switches? [y/N]: "
                (Some a) ∈ events run
        /\ Str.lower (Str.strip a) = "y")
  /\ (credentials after = credentials before
      \/ ((credentials before = None
           \/ exists a,
                EvInput "Use previous credentials? [Y/n]: " (Some a) ∈ events run
                /\ Str.lower (Str.strip a) = "n")
          /\ exists u p,
               EvInput "Username: " (Some u) ∈ events run /\
               EvGetpass "Password: " (Some p) ∈ events run /\
               credentials after = Some (Str.strip u, p))).
Proof.
  intros run before after. split.
  - exact (main_iteration_config w).
  - exact (main_iteration_credentials w).
Qed.

(** C10 as stated fails for the credentials: declining to reuse the stored
    credentials replaces them by the ones typed, in a turn where the save
    prompt is never reached. *)
Lemma credentials_replaced_without_save :
  credentials (w_saved world_new_credentials) = Some ("admin", "old-secret")
  /\ credentials (w_saved (final (main_iteration world_new_credentials))) =
       Some ("root", "new-secret")
  /\ events (main_iteration world_new_credentials) =
       [ EvInput "Switch IP (blank to exit): " (Some "10.0.0.1");
         EvInput "Use previous credentials? [Y/n]: " (Some "n");
         EvInput "Username: " (Some "root");
         EvGetpass "Password: " (Some "new-secret");
         EvConnect "10.0.0.1" "root" "new-secret";
         EvPrint "Connection error: timed out";
         EvInput "Try another switch? [y/N]: " (Some "n") ].
Proof. by vm_compute. Qed.

(** ** The loop over the switches ends *)

#[global] Instance input_consumed_rel : TraceRel input_consumed.
Proof.
  split; unfold input_consumed.
  - done.
  - intros w w1 w2 _ _ H1 H2. lia.
Qed.

Lemma read_lines_rest (stdin : list string) :
  length (read_lines stdin).1.2 <= length stdin.
Proof.
  induction stdin as [|line rest IH]; cbn [read_lines]; [done|].
  destruct (String.eqb (Str.strip line) "."); simpl; [lia|].
  destruct (read_lines rest) as [[ls rest'] evs]. simpl in *. lia.
Qed.

Lemma consumed_print (text : string) : holds input_consumed (print text).
Proof. intros w. unfold input_consumed. rewrite print_run. unfold final. simpl. lia. Qed.

Lemma consumed_input (prompt : string) : holds input_consumed (input prompt).
Proof.
  intros w. unfold input_consumed, input.
  destruct (w_stdin w) as [|a rest] eqn:Hin; unfold final; cbn; rewrite ?Hin; simpl; lia.
Qed.

Lemma consumed_getpass (prompt : string) : holds input_consumed (getpass prompt).
Proof.
  intros w. unfold input_consumed, getpass.
  destruct (w_stdin w) as [|a rest] eqn:Hin; unfold final; cbn; rewrite ?Hin; simpl; lia.
Qed.

Lemma consumed_device_call (ev : event) : holds input_consumed (device_call ev).
Proof.
  intros w. unfold input_consumed. rewrite device_call_run. unfold final. simpl. lia.
Qed.

Lemma consumed_get_saved : holds input_consumed get_saved.
Proof. intros w. unfold input_consumed, get_saved, final. simpl. lia. Qed.

Lemma consumed_put_saved (st : session_state) : holds input_consumed (put_saved st).
Proof. intros w. unfold input_consumed, put_saved, final. simpl. lia. Qed.

Lemma consumed_read_user_lines : holds input_consumed read_user_lines.
Proof.
  intros w. unfold input_consumed, read_user_lines.
  pose proof (read_lines_rest (w_stdin w)) as H.
  destruct (read_lines (w_stdin w)) as [[ls rest] evs]. exact H.
Qed.

Ltac consumed_prim :=
  first [ apply consumed_print | apply consumed_input | apply consumed_getpass
        | apply consumed_device_call | apply consumed_get_saved
        | apply consumed_put_saved | apply consumed_read_user_lines ].

#[local] Hint Unfold obtain_credentials prompt_credentials save_for_reuse : flows.

Lemma main_iteration_rest_consumed (ip : string) :
  holds input_consumed
    (let ip := Str.strip ip in
     if Str.is_empty ip then print "Exiting." ;; mret Return
     else
       '(username, password) ← obtain_credentials;
       ssh ← catch (ConnectHandler ip username password ;; mret None)
                   (fun e => mret (Some e));
       match ssh with
       | Some e => connection_failed e
       | None =>
           fl ← session_scope;
           match fl with
           | Next => ask_again "Configure another switch? [y/N]: "
           | _ => mret fl
           end
       end).
Proof.
  cbv zeta.
  repeat holds_step_with consumed_prim ltac:(progress autounfold with flows; cbv zeta).
Qed.

(** A turn that does not raise has read at least the switch address. *)
Lemma main_iteration_consumes (w : world) (fl : flow) :
  outcome (main_iteration w) = Val fl ->
  length (w_stdin (final (main_iteration w))) < length (w_stdin w).
Proof.
  unfold main_iteration. rewrite bind_run. unfold input.
  destruct (w_stdin w) as [|ip rest] eqn:Hin; [done|].
  pose proof (main_iteration_rest_consumed ip (set_stdin w rest)) as Hrest.
  unfold input_consumed in Hrest. cbn [set_stdin w_stdin] in Hrest.
  destruct (_ (set_stdin w rest)) as [[r w'] t]. unfold final, outcome in *.
  cbn [fst snd] in *. intros _. simpl. lia.
Qed.

(** Termination of the interactive loop: once the bound on the turns
    exceeds the number of input lines left, the run does not depend on the
    bound, so [main] never stops for lack of turns. *)
Theorem main_loop_terminates (turns : nat) (w : world) :
  length (w_stdin w) < turns -> main_loop turns w = main w.
Proof.
  unfold main.
  assert (H : forall n m w, length (w_stdin w) < n -> length (w_stdin w) < m ->
              main_loop n w = main_loop m w).
  { clear. induction n as [|n IH]; intros m w Hn Hm; [lia|].
    destruct m as [|m]; [lia|]. cbn [main_loop]. rewrite !bind_run.
    pose proof (main_iteration_consumes w) as Hc.
    destruct (main_iteration w) as [[[fl|e] w1] t1]; [|done].
    unfold outcome, final in Hc. cbn [fst snd] in Hc. specialize (Hc fl eq_refl).
    destruct fl; [|done|done]. rewrite (IH m w1); [done | lia | lia]. }
  intros Hlt. apply H; [done | lia].
Qed.

Lemma main_loop_terminates_witness :
  main_loop 7 world_new_credentials = main world_new_credentials.
Proof. apply main_loop_terminates. simpl. lia. Defined.

(** ** Whole runs *)

(** The scenario run of [main]: the failure of the first batch is reported,
    the second batch is still sent, and the session is closed once. *)
Example main_scenario_run :
  outcome (main world_first_batch_fails) = Val tt
  /\ device_events (events (main world_first_batch_fails)) =
       [EvConnect "10.0.0.1" "admin" "secret";
        EvSendCommand "show power inline";
        EvSendCommand "show cdp neighbors detail";
        EvSendConfigSet
          ["default interface GigabitEthernet1/0/1";
           "interface GigabitEthernet1/0/1"; "description lobby-ap";
           "switchport mode access"];
        EvSendConfigSet
          ["default interface GigabitEthernet1/0/2";
           "interface GigabitEthernet1/0/2"; "description C9115";
           "switchport mode access"];
        EvDisconnect]
  /\ EvPrint "Error configuring GigabitEthernet1/0/1: timed out"
       ∈ events (main world_first_batch_fails)
  /\ EvPrint "Applied 1 config lines to GigabitEthernet1/0/2"
       ∈ events (main world_first_batch_fails)
  /\ w_stdin (final (main world_first_batch_fails)) = [].
Proof.
  repeat split; try by vm_compute.
  all: apply list_elem_of_In; vm_compute; tauto.
Qed.

(** A run of the LLDP session whose first command raises: the exception
    leaves [main] and nothing closes the session. *)
Example lldp_session_failed_command_run :
  outcome (lldp_session world_command_fails)
    = Raise (Exn OtherException "timed out")
  /\ events (lldp_session world_command_fails) =
       [EvPrint "Collecting LLDP neighbors...";
        EvSendCommand "show lldp neighbors detail"].
Proof. by vm_compute. Qed.

(** * Further properties of the code *)

(** ** The rendering of a list of names, on samples *)

Example repr_samples :
  Repr.repr_list ["Gi1/0/1"; "Gi1/0/24"] = "['Gi1/0/1', 'Gi1/0/24']"
  /\ Repr.repr_list [] = "[]"
  /\ Repr.repr_str "x'y" = String Repr.double_quote ("x'y" +:+ String Repr.double_quote "")
  /\ Repr.repr_str (String "x" (String Repr.double_quote "y'z")) =
       String "'" (String "x" (String Repr.double_quote
         (String "y" (String Repr.backslash "'z'"))))
  /\ Repr.escape_all "'" (String "009" (String "127" (String "160" (String "255" "")))) =
       String Repr.backslash ("t" +:+ String Repr.backslash ("x7f"
         +:+ String Repr.backslash ("xa0" +:+ String "255" ""))).
Proof. repeat split; reflexivity. Qed.

(** ** Calls in a trace *)

Lemma device_events_prints (lines : list string) :
  device_events (map EvPrint lines) = [].
Proof. induction lines as [|l lines IH]; [done|]. by cbn. Qed.

Lemma device_events_cons (e : event) (t : list event) :
  device_events (e :: t) =
    (if is_device_event e then [e] else []) ++ device_events t.
Proof.
  unfold device_events. rewrite filter_cons.
  destruct (is_device_event e); [by rewrite decide_True | by rewrite decide_False].
Qed.

(** ** The normalizer on white space and on its canonical forms *)

Lemma strip_long_form (pfx nums : string) (c : ascii) :
  Chr.is_space c = false -> slot_path nums ->
  Str.strip (String c pfx +:+ nums) = String c pfx +:+ nums.
Proof.
  intros Hc Hn. unfold Str.strip.
  change (String c pfx +:+ nums) with (String c (pfx +:+ nums)).
  cbn [Str.lstrip]. rewrite Hc.
  change (String c (pfx +:+ nums)) with (String c pfx +:+ nums).
  apply rstrip_app_fixed; [by apply rstrip_slot_path|].
  destruct (slot_path_head _ Hn) as (d & r & -> & _). done.
Qed.

Lemma classify_prefix_stripped (low nums token : string) :
  slot_path nums -> Str.strip token = token ->
  Str.strip (classify_prefix low nums token) = classify_prefix low nums token.
Proof.
  intros Hn Ht. unfold classify_prefix.
  repeat match goal with
  | |- context [if ?b then _ else _] => destruct b
  end; try done; by apply strip_long_form.
Qed.

Lemma normalize_stripped (x : string) :
  Str.strip (normalize_interface_name x) = normalize_interface_name x.
Proof.
  rewrite normalize_unfold.
  destruct (Re.search_slot_path (Str.strip x)) as [nums|] eqn:Hs.
  - destruct (search_slot_path_sound _ _ Hs) as (_ & _ & _ & _ & Hn & _).
    apply classify_prefix_stripped; [done | apply strip_idemp].
  - apply strip_idemp.
Qed.

(** White space around a name plays no part, and none is returned: the
    normalizer gives the same result for a name and for the name with its
    surrounding white space removed, and its result has no white space at
    either end. *)
Theorem normalize_surrounding_whitespace (x : string) :
  normalize_interface_name (Str.strip x) = normalize_interface_name x
  /\ Str.strip (normalize_interface_name x) = normalize_interface_name x.
Proof.
  split.
  - by rewrite !normalize_unfold, strip_idemp.
  - apply normalize_stripped.
Qed.

Lemma normalize_empty_iff (x : string) :
  normalize_interface_name x = EmptyString <-> Str.strip x = EmptyString.
Proof.
  rewrite normalize_unfold.
  destruct (Re.search_slot_path (Str.strip x)) as [nums|] eqn:Hs; [|done].
  split.
  - unfold classify_prefix.
    repeat match goal with
    | |- context [if ?b then _ else _] => destruct b
    end; try done; intros H; simpl in H; discriminate.
  - intros H. rewrite H in Hs. discriminate.
Qed.

(** The normalizer returns the empty string exactly for the names that are
    empty or all white space. *)
Theorem normalize_empty_iff_blank (x : string) :
  normalize_interface_name x = EmptyString <-> Str.strip x = EmptyString.
Proof. apply normalize_empty_iff. Qed.

Lemma normalize_prefixed (pfx nums : string) (c : ascii) :
  Chr.is_space c = false -> digit_free (String c pfx) = true -> slot_path nums ->
  normalize_interface_name (String c pfx +:+ nums) =
    classify_prefix (Str.lower (String c pfx) +:+ nums) nums (String c pfx +:+ nums).
Proof.
  intros Hc Hd Hn. rewrite normalize_unfold, strip_long_form by done.
  rewrite search_long_form by done.
  by rewrite lower_app, (lower_slot_chars nums) by by apply slot_path_chars.
Qed.

(** The short names of the three classes are taken to their long names,
    and the long names of the GigabitEthernet and FastEthernet classes are
    kept, whatever the slot path. *)
Theorem normalize_short_and_long_names (nums : string) :
  slot_path nums ->
  normalize_interface_name ("Gi" +:+ nums) = "GigabitEthernet" +:+ nums
  /\ normalize_interface_name ("Te" +:+ nums) = "TenGigabitEthernet" +:+ nums
  /\ normalize_interface_name ("Fa" +:+ nums) = "FastEthernet" +:+ nums
  /\ normalize_interface_name ("GigabitEthernet" +:+ nums) = "GigabitEthernet" +:+ nums
  /\ normalize_interface_name ("FastEthernet" +:+ nums) = "FastEthernet" +:+ nums.
Proof.
  intros Hn. pose proof (slot_path_chars _ Hn) as Hc.
  destruct (normalize_long_forms nums Hn) as (Hgig & _ & Hfast).
  repeat split; try done.
  - rewrite normalize_prefixed by done. unfold classify_prefix.
    replace (Str.startswith "gi" (Str.lower "Gi" +:+ nums)) with true by done.
    by rewrite orb_true_r.
  - rewrite normalize_prefixed by done. unfold classify_prefix.
    assert (Hg : Str.contains "gig" (Str.lower "Te" +:+ nums) = false).
    { simpl. by rewrite ?contains_slot_chars, ?prefix_slot_chars by done. }
    replace (Str.startswith "te" (Str.lower "Te" +:+ nums)) with true by done.
    by rewrite Hg, orb_true_r.
  - rewrite normalize_prefixed by done. unfold classify_prefix.
    assert (Hg : Str.contains "gig" (Str.lower "Fa" +:+ nums) = false).
    { simpl. by rewrite ?contains_slot_chars, ?prefix_slot_chars by done. }
    assert (Ht : Str.contains "ten" (Str.lower "Fa" +:+ nums) = false).
    { simpl. by rewrite ?contains_slot_chars, ?prefix_slot_chars by done. }
    replace (Str.startswith "fa" (Str.lower "Fa" +:+ nums)) with true by done.
    by rewrite Hg, Ht, orb_true_r.
Qed.

Lemma slot_path_1_0_38 : slot_path "1/0/38".
Proof.
  apply slot_group; [done|]. apply slot_group; [done|].
  apply slot_digit; [done|]. by apply slot_last.
Qed.

Lemma normalize_short_and_long_names_witness :
  normalize_interface_name "Gi1/0/38" = "GigabitEthernet1/0/38"
  /\ normalize_interface_name "Te1/0/38" = "TenGigabitEthernet1/0/38"
  /\ normalize_interface_name "Fa1/0/38" = "FastEthernet1/0/38"
  /\ normalize_interface_name "GigabitEthernet1/0/38" = "GigabitEthernet1/0/38"
  /\ normalize_interface_name "FastEthernet1/0/38" = "FastEthernet1/0/38".
Proof. exact (normalize_short_and_long_names "1/0/38" slot_path_1_0_38). Defined.

(** ** Device tokens of the summary scan *)

Lemma space_lower (c : ascii) : Chr.is_space c = true -> Chr.lower c = c.
Proof. destruct c as [[] [] [] [] [] [] [] []]; by vm_compute. Qed.

Lemma no_space_app (a b : string) :
  no_space (a +:+ b) = no_space a && no_space b.
Proof.
  induction a as [|c a IH]; [done|].
  change (String c a +:+ b) with (String c (a +:+ b)).
  cbn [no_space]. rewrite IH. by rewrite andb_assoc.
Qed.

Lemma no_space_lower (s : string) :
  no_space (Str.lower s) = true -> no_space s = true.
Proof.
  induction s as [|c s IH]; [done|]. cbn [Str.lower no_space].
  intros [Hc Hs]%andb_true_iff. rewrite IH by done.
  destruct (Chr.is_space c) eqn:E; [|done].
  by rewrite (space_lower c E), E in Hc.
Qed.

Lemma take_nonspace_split (s : string) :
  exists post,
    s = Re.take_nonspace s +:+ post /\ token_ends post /\
    no_space (Re.take_nonspace s) = true.
Proof.
  induction s as [|c s (post & Hs & Hp & Hn)]; cbn [Re.take_nonspace].
  - exists EmptyString. split; [done|]. split; [by left | done].
  - destruct (Chr.is_space c) eqn:E.
    + exists (String c s). split; [done|]. split; [right; eauto | done].
    + exists post. split.
      * change (String c (Re.take_nonspace s) +:+ post)
          with (String c (Re.take_nonspace s +:+ post)). by rewrite <- Hs.
      * split; [done|]. cbn [no_space]. by rewrite E, Hn.
Qed.

Lemma iliteral_split (lit s rest : string) :
  Re.iliteral lit s = Some rest ->
  s = Str.take (String.length lit) s +:+ rest
  /\ Str.lower (Str.take (String.length lit) s) = lit.
Proof.
  revert s. induction lit as [|a lit IH]; intros s.
  - cbn. intros [= ->]. by destruct rest.
  - destruct s as [|c s]; [done|]. rewrite iliteral_cons.
    destruct (Ascii.eqb_spec (Chr.lower c) a) as [<-|]; [|done].
    intros (Hs & Hl)%IH. cbn [String.length Str.take Str.lower].
    rewrite Hl. split; [|done].
    change (String c (Str.take (String.length lit) s) +:+ rest)
      with (String c (Str.take (String.length lit) s +:+ rest)).
    by rewrite <- Hs.
Qed.

Lemma startswith_app (p s : string) : Str.startswith p (p +:+ s) = true.
Proof.
  induction p as [|a p IH]; [by destruct s|].
  change (String a p +:+ s) with (String a (p +:+ s)).
  rewrite startswith_cons, IH. by rewrite Ascii.eqb_refl.
Qed.

Lemma length_app_str (a b : string) :
  String.length (a +:+ b) = String.length a + String.length b.
Proof.
  induction a as [|c a IH]; [done|].
  change (String c a +:+ b) with (String c (a +:+ b)). cbn. by rewrite IH.
Qed.

Lemma lower_length (s : string) : String.length (Str.lower s) = String.length s.
Proof. induction s as [|c s IH]; [done|]. cbn. by rewrite IH. Qed.

(** What the device pattern matches at a position: a token without white
    space that runs up to the next white space and starts, in any case,
    with C91 or with AIR- and one more character. *)
Lemma dev_pat_at_token (s m : string) :
  dev_pat_at s = Some m ->
  (Str.startswith "c91" (Str.lower m) = true
   \/ (Str.startswith "air-" (Str.lower m) = true /\ 4 < String.length m))
  /\ no_space m = true
  /\ exists post, s = m +:+ post /\ token_ends post.
Proof.
  unfold dev_pat_at.
  destruct (Re.iliteral "c91" s) as [rest|] eqn:Hc.
  - intros H. apply (inj Some) in H. subst m.
    destruct (iliteral_split _ _ _ Hc) as (Hs & Hl).
    destruct (take_nonspace_split rest) as (post & Hr & Hp & Hn).
    change (String.length "c91") with 3 in *.
    split; [|split].
    + left. rewrite lower_app, Hl. apply startswith_app.
    + rewrite no_space_app, Hn, andb_true_r. apply no_space_lower. by rewrite Hl.
    + exists post. split; [|done]. by rewrite app_assoc_str, <- Hr.
  - destruct (Re.iliteral "air-" s) as [rest|] eqn:Ha; [|done].
    destruct (Str.is_empty (Re.take_nonspace rest)) eqn:He; [done|].
    intros H. apply (inj Some) in H. subst m.
    destruct (iliteral_split _ _ _ Ha) as (Hs & Hl).
    destruct (take_nonspace_split rest) as (post & Hr & Hp & Hn).
    change (String.length "air-") with 4 in *.
    split; [|split].
    + right. split; [rewrite lower_app, Hl; apply startswith_app|].
      rewrite length_app_str, <- (lower_length (Str.take 4 s)), Hl.
      destruct (Re.take_nonspace rest); [done | cbn; lia].
    + rewrite no_space_app, Hn, andb_true_r. apply no_space_lower. by rewrite Hl.
    + exists post. split; [|done]. by rewrite app_assoc_str, <- Hr.
Qed.

Lemma dev_pat_search_token (line m : string) :
  dev_pat_search line = Some m ->
  (Str.startswith "c91" (Str.lower m) = true
   \/ (Str.startswith "air-" (Str.lower m) = true /\ 4 < String.length m))
  /\ no_space m = true
  /\ exists pre post, line = pre +:+ m +:+ post /\ token_ends post.
Proof.
  induction line as [|c line IH]; cbn [dev_pat_search].
  - destruct (dev_pat_at EmptyString) as [m'|] eqn:H; [|done].
    intros [= ->]. destruct (dev_pat_at_token _ _ H) as (H1 & H2 & post & H3 & H4).
    split; [done|]. split; [done|]. by exists EmptyString, post.
  - destruct (dev_pat_at (String c line)) as [m'|] eqn:H.
    + intros [= ->]. destruct (dev_pat_at_token _ _ H) as (H1 & H2 & post & H3 & H4).
      split; [done|]. split; [done|]. by exists EmptyString, post.
    + intros (H1 & H2 & pre & post & H3 & H4)%IH.
      split; [done|]. split; [done|]. exists (String c pre), post.
      split; [|done]. by rewrite H3.
Qed.

Lemma rstrip_no_space (s : string) : no_space s = true -> Str.rstrip s = s.
Proof.
  induction s as [|c s IH]; [done|]. cbn [no_space Str.rstrip].
  intros [Hc Hs]%andb_true_iff. rewrite IH by done.
  by destruct (Chr.is_space c).
Qed.

Lemma strip_no_space (s : string) : no_space s = true -> Str.strip s = s.
Proof.
  intros H. unfold Str.strip.
  assert (Hl : Str.lstrip s = s).
  { destruct s as [|c s]; [done|]. cbn [no_space] in H. cbn [Str.lstrip].
    by destruct (Chr.is_space c). }
  rewrite Hl. by apply rstrip_no_space.
Qed.

Lemma take_nonspace_head (s : string) (c : ascii) (r : string) :
  Re.take_nonspace s = String c r -> Chr.is_space c = false.
Proof.
  destruct s as [|a s]; [done|]. cbn [Re.take_nonspace].
  destruct (Chr.is_space a) eqn:E; [done|]. by intros [= <- _].
Qed.

Lemma find_aps_line_interface (line dev intf : string) :
  find_aps_line line = Some (dev, intf) ->
  intf ≠ EmptyString /\ Str.strip intf = intf.
Proof.
  unfold find_aps_line. destruct (dev_pat_search line) as [m|]; [|done].
  intros H. apply (inj Some) in H. injection H as _ <-.
  split; [|apply normalize_stripped].
  rewrite normalize_empty_iff. unfold intf_pat_match.
  destruct (Re.take_nonspace (Str.lstrip line)) as [|c r] eqn:Htok; [done|].
  cbn [Str.is_empty]. apply strip_keeps_nonspace_head.
  by apply (take_nonspace_head _ _ _ Htok).
Qed.

(** Every pair the summary scan reports is well formed.  The device name
    is a token of one line of the output: it holds no white space, it runs
    up to the next white space or the end of the line, and it starts, in
    any case of the letters, with C91 or with AIR- followed by at least
    one character.  The interface name is not empty and has no white space
    around it. *)
Theorem find_aps_pairs_well_formed (output dev intf : string) :
  (dev, intf) ∈ find_aps_in_cdp output ->
  (Str.startswith "c91" (Str.lower dev) = true
   \/ (Str.startswith "air-" (Str.lower dev) = true /\ 4 < String.length dev))
  /\ no_space dev = true
  /\ (exists line pre post,
        line ∈ Str.splitlines output /\ line = pre +:+ dev +:+ post /\
        token_ends post)
  /\ intf ≠ EmptyString
  /\ Str.strip intf = intf.
Proof.
  unfold find_aps_in_cdp. intros (line & Hline & Hf)%list_elem_of_omap.
  destruct (find_aps_line_interface _ _ _ Hf) as [Hi Hs].
  unfold find_aps_line in Hf.
  destruct (dev_pat_search line) as [m|] eqn:Hm; [|done].
  destruct (dev_pat_search_token _ _ Hm) as (H1 & H2 & pre & post & H3 & H4).
  rewrite (strip_no_space m H2) in Hf. injection Hf as <- _.
  split; [done|]. split; [done|]. split; [by exists line, pre, post | done].
Qed.

Lemma find_aps_pairs_well_formed_witness :
  (Str.startswith "c91" (Str.lower "C9130AXI-B") = true
   \/ (Str.startswith "air-" (Str.lower "C9130AXI-B") = true
       /\ 4 < String.length "C9130AXI-B"))
  /\ no_space "C9130AXI-B" = true
  /\ (exists line pre post,
        line ∈ Str.splitlines "Gi1/0/7 auto on 15.4 C9130AXI-B 4 30.0" /\
        line = pre +:+ "C9130AXI-B" +:+ post /\ token_ends post)
  /\ "GigabitEthernet1/0/7" ≠ EmptyString
  /\ Str.strip "GigabitEthernet1/0/7" = "GigabitEthernet1/0/7".
Proof.
  apply (find_aps_pairs_well_formed
           "Gi1/0/7 auto on 15.4 C9130AXI-B 4 30.0" "C9130AXI-B"
           "GigabitEthernet1/0/7").
  vm_compute. apply list_elem_of_here.
Defined.

(** ** Lines the summary scan reports *)

Lemma dev_pat_search_app (pre rest : string) :
  is_Some (dev_pat_at rest) -> is_Some (dev_pat_search (pre +:+ rest)).
Proof.
  intros Hat. induction pre as [|c pre IH].
  - change (EmptyString +:+ rest) with rest.
    destruct rest as [|c rest]; cbn [dev_pat_search];
      by destruct (dev_pat_at _).
  - change (String c pre +:+ rest) with (String c (pre +:+ rest)).
    cbn [dev_pat_search]. by destruct (dev_pat_at (String c (pre +:+ rest))).
Qed.

Lemma dev_pat_at_c91 (c1 c2 c3 : ascii) (rest : string) :
  Str.startswith "c91" (Str.lower (String c1 (String c2 (String c3 rest)))) = true ->
  is_Some (dev_pat_at (String c1 (String c2 (String c3 rest)))).
Proof.
  unfold dev_pat_at. cbn [Str.lower]. rewrite !startswith_cons, !iliteral_cons.
  intros [H1 [H2 [H3 _]%andb_true_iff]%andb_true_iff]%andb_true_iff.
  apply Ascii.eqb_eq in H1, H2, H3. rewrite <- H1, <- H2, <- H3.
  rewrite !Ascii.eqb_refl. by eexists.
Qed.

Lemma dev_pat_at_air (c1 c2 c3 c4 c5 : ascii) (rest : string) :
  Str.startswith "air-"
    (Str.lower (String c1 (String c2 (String c3 (String c4 (String c5 rest))))))
    = true ->
  Chr.is_space c5 = false ->
  is_Some (dev_pat_at (String c1 (String c2 (String c3 (String c4 (String c5 rest)))))).
Proof.
  unfold dev_pat_at. cbn [Str.lower]. rewrite !startswith_cons, !iliteral_cons.
  intros [H1 [H2 [H3 [H4 _]%andb_true_iff]%andb_true_iff]%andb_true_iff]%andb_true_iff
    H5.
  apply Ascii.eqb_eq in H1, H2, H3, H4. rewrite <- H1, <- H2, <- H3, <- H4.
  destruct (Ascii.eqb_spec "a"%char "c"%char) as [|_]; [done|].
  rewrite !Ascii.eqb_refl. cbn [Re.iliteral Re.take_nonspace]. rewrite H5.
  cbn [Str.is_empty]. by eexists.
Qed.

(** No line with a device token is missed.  A line of the output that
    holds a token without white space starting, in any case of the
    letters, with C91 or with AIR- and one more character, wherever on the
    line, gives a pair: the scan reports a device for it. *)
Theorem find_aps_reports_token_lines (output line pre token post : string) :
  line ∈ Str.splitlines output ->
  line = pre +:+ token +:+ post ->
  no_space token = true ->
  Str.startswith "c91" (Str.lower token) = true
  \/ (Str.startswith "air-" (Str.lower token) = true /\ 4 < String.length token) ->
  exists dev intf,
    find_aps_line line = Some (dev, intf) /\ (dev, intf) ∈ find_aps_in_cdp output.
Proof.
  intros Hline -> Hns Htok.
  assert (Hat : is_Some (dev_pat_at (token +:+ post))).
  { destruct Htok as [Hc|[Ha Hlen]].
    - destruct token as [|c1 [|c2 [|c3 token]]];
        [ cbn [Str.lower] in Hc;
          rewrite ?startswith_cons, ?startswith_nil_r, ?andb_false_r in Hc;
          discriminate Hc .. |].
      by apply (dev_pat_at_c91 c1 c2 c3 (token +:+ post)).
    - destruct token as [|c1 [|c2 [|c3 [|c4 [|c5 token]]]]];
        try (cbn in Hlen; lia).
      apply (dev_pat_at_air c1 c2 c3 c4 c5 (token +:+ post)); [done|].
      cbn [no_space] in Hns.
      by destruct (Chr.is_space c1), (Chr.is_space c2), (Chr.is_space c3),
        (Chr.is_space c4), (Chr.is_space c5). }
  destruct (dev_pat_search_app pre _ Hat) as [m Hm].
  assert (Hf : exists dev intf,
             find_aps_line (pre +:+ token +:+ post) = Some (dev, intf)).
  { unfold find_aps_line. rewrite Hm. by eexists _, _. }
  destruct Hf as (dev & intf & Hf). exists dev, intf. split; [done|].
  unfold find_aps_in_cdp. apply list_elem_of_omap. by eexists.
Qed.

Lemma find_aps_reports_token_lines_witness :
  exists dev intf,
    find_aps_line "Gi1/0/7 auto on 15.4 air-ap2802i-b-k9 4 30.0" = Some (dev, intf)
    /\ (dev, intf) ∈ find_aps_in_cdp "Gi1/0/7 auto on 15.4 air-ap2802i-b-k9 4 30.0".
Proof.
  apply (find_aps_reports_token_lines
           "Gi1/0/7 auto on 15.4 air-ap2802i-b-k9 4 30.0"
           "Gi1/0/7 auto on 15.4 air-ap2802i-b-k9 4 30.0"
           "Gi1/0/7 auto on 15.4 " "air-ap2802i-b-k9" " 4 30.0").
  - vm_compute. apply list_elem_of_here.
  - reflexivity.
  - reflexivity.
  - right. split; [reflexivity | cbn; lia].
Defined.

(** ** Entries of the detail mapping *)

Lemma cdp_step_entries (P : string -> string -> Prop) (lines : list string) :
  (forall g d, d ≠ EmptyString -> Str.strip d = d ->
               P (normalize_interface_name (Str.strip g)) d) ->
  forall (results : gmap string string) (current_device : option string),
    (forall k v, results !! k = Some v -> P k v) ->
    (forall d, current_device = Some d -> Str.strip d = d) ->
    forall k v,
      (foldl cdp_step (results, current_device) lines).1 !! k = Some v -> P k v.
Proof.
  intros HP. induction lines as [|line lines IH]; intros results reg Hres Hreg.
  { done. }
  cbn [foldl]. unfold cdp_step at 2.
  destruct (device_re_match line) as [g|].
  { apply IH; [done|]. intros d [= <-]. apply strip_idemp. }
  destruct reg as [dev|]; [|by apply IH].
  destruct (Str.truthy dev) eqn:Ht; [|by apply IH].
  destruct (if_re_match line) as [g|]; [|by apply IH].
  apply IH; [|done]. intros k v.
  destruct (decide (normalize_interface_name (Str.strip g) = k)) as [<-|Hne].
  - rewrite lookup_insert_eq. intros [= <-]. apply HP; [|by apply Hreg].
    by apply truthy_true.
  - rewrite lookup_insert_ne by done. apply Hres.
Qed.

(** Every entry of the detail mapping is well formed: the hostname is not
    empty and has no white space around it, and the interface is a result
    of the normalizer, so it has no white space around it either and is
    found by a lookup with a normalized name. *)
Theorem cdp_map_entries_well_formed (output intf hostname : string) :
  parse_cdp_neighbors_detail output !! intf = Some hostname ->
  hostname ≠ EmptyString
  /\ Str.strip hostname = hostname
  /\ Str.strip intf = intf
  /\ exists name, intf = normalize_interface_name name.
Proof.
  unfold parse_cdp_neighbors_detail, cdp_run.
  apply (cdp_step_entries
           (fun k v => v ≠ EmptyString /\ Str.strip v = v /\ Str.strip k = k
                       /\ exists name, k = normalize_interface_name name)).
  - intros g d Hd Hs. split; [done|]. split; [done|].
    split; [apply normalize_stripped | eauto].
  - intros k v. by rewrite lookup_empty.
  - done.
Qed.

Lemma cdp_map_entries_well_formed_witness :
  "SW-CORE-1" ≠ EmptyString
  /\ Str.strip "SW-CORE-1" = "SW-CORE-1"
  /\ Str.strip "GigabitEthernet1/0/1" = "GigabitEthernet1/0/1"
  /\ exists name, "GigabitEthernet1/0/1" = normalize_interface_name name.
Proof.
  apply (cdp_map_entries_well_formed cdp_detail_example). by vm_compute.
Defined.

Lemma cdp_step_size (lines : list string) :
  forall (results : gmap string string) (current_device : option string),
    size (foldl cdp_step (results, current_device) lines).1
    + length (option_list (foldl cdp_step (results, current_device) lines).2)
    <= size results + length (option_list current_device)
       + length (filter (fun line => is_Some (device_re_match line)) lines).
Proof.
  induction lines as [|line lines IH]; intros results reg; [cbn; lia|].
  cbn [foldl]. unfold cdp_step at 2 4. rewrite filter_cons.
  destruct (device_re_match line) as [g|] eqn:Hd.
  { rewrite decide_True by eauto. etrans; [apply IH|].
    destruct reg; simpl; lia. }
  rewrite decide_False by (by intros [? ?]).
  destruct reg as [dev|]; [|apply IH].
  destruct (Str.truthy dev); [|apply IH].
  destruct (if_re_match line) as [g|]; [|apply IH].
  etrans; [apply IH|]. simpl.
  destruct (results !! normalize_interface_name (Str.strip g)) as [old|] eqn:Hk.
  - rewrite map_size_insert_Some by eauto. lia.
  - rewrite map_size_insert_None by done. lia.
Qed.

(** A device-id line serves for one entry at most: the mapping has no more
    entries than the text has device-id lines, and a text without such a
    line gives the empty mapping, whatever interface lines it holds. *)
Theorem cdp_map_one_entry_per_device_id (output : string) :
  size (parse_cdp_neighbors_detail output) <= length (device_id_lines output)
  /\ (device_id_lines output = [] -> parse_cdp_neighbors_detail output = ∅).
Proof.
  assert (H : size (parse_cdp_neighbors_detail output)
              <= length (device_id_lines output)).
  { unfold parse_cdp_neighbors_detail, cdp_run, device_id_lines.
    pose proof (cdp_step_size (Str.splitlines output) ∅ None) as H.
    rewrite map_size_empty in H. simpl in H. lia. }
  split; [done|]. intros Hnone. rewrite Hnone in H.
  apply map_size_empty_inv. cbn in H. lia.
Qed.

(** ** The report of the interfaces found *)

Lemma bind_app_perm {A B} (f g : A -> list B) (l : list A) :
  l ≫= (fun x => f x ++ g x) ≡ₚ (l ≫= f) ++ (l ≫= g).
Proof.
  induction l as [|x l IH]; [done|]. rewrite !bind_cons, IH.
  rewrite <- !(assoc_L (++)). f_equiv.
  rewrite !(assoc_L (++)). f_equiv. apply Permutation_app_comm.
Qed.

Lemma bind_only_at {B} (k0 : string) (y : B) (keys : list string) :
  NoDup keys -> k0 ∈ keys ->
  keys ≫= (fun k => if decide (k0 = k) then [y] else []) = [y].
Proof.
  induction keys as [|k keys IH]; intros Hnd Hin.
  { by apply elem_of_nil in Hin. }
  apply NoDup_cons in Hnd as [Hk Hnd]. rewrite bind_cons.
  destruct (decide (k0 = k)) as [->|Hne].
  - assert (H : keys ≫= (fun k' => if decide (k = k') then [y] else []) = []).
    { clear IH Hin Hnd. induction keys as [|k' keys IH]; [done|].
      rewrite bind_cons. apply not_elem_of_cons in Hk as [Hne Hk].
      rewrite decide_False by done. by apply IH. }
    by rewrite H.
  - apply elem_of_cons in Hin as [?|Hin]; [done|]. by rewrite IH.
Qed.

Lemma grouped_pairs_perm (aps : list (string * string)) (keys : list string) :
  NoDup keys -> (forall dev intf, (dev, intf) ∈ aps -> intf ∈ keys) ->
  keys ≫= (fun intf => (fun dev => (dev, intf)) <$> devices_seen aps intf) ≡ₚ aps.
Proof.
  intros Hnd. induction aps as [|[dev intf] aps IH]; intros Hcover.
  { clear. induction keys as [|k keys IH]; [done|]. by rewrite bind_cons, IH. }
  assert (Hstep : forall k,
    (fun d => (d, k)) <$> devices_seen ((dev, intf) :: aps) k =
    (if decide (intf = k) then [(dev, intf)] else [])
    ++ ((fun d => (d, k)) <$> devices_seen aps k)).
  { intros k. unfold devices_seen. rewrite filter_cons. cbn [snd].
    destruct (decide (intf = k)) as [->|]; [done|done]. }
  rewrite (list_bind_ext _ _ keys keys Hstep eq_refl), bind_app_perm.
  rewrite bind_only_at; [|done|apply (Hcover dev); apply list_elem_of_here].
  cbn [app]. f_equiv. apply IH. intros d i Hin. apply (Hcover d).
  by apply list_elem_of_further.
Qed.

Lemma group_by_interface_devices (aps : list (string * string)) (intf : string) :
  default [] (group_by_interface aps !! intf) = devices_seen aps intf.
Proof. rewrite group_by_interface_lookup. by destruct (devices_seen aps intf). Qed.

Lemma grouped_pairs_of_group (aps : list (string * string)) (keys : list string) :
  NoDup keys ->
  (forall intf, intf ∈ keys <-> is_Some (group_by_interface aps !! intf)) ->
  grouped_pairs (group_by_interface aps) keys ≡ₚ aps.
Proof.
  intros Hnd Hkeys. unfold grouped_pairs.
  rewrite (list_bind_ext _
             (fun intf => (fun dev => (dev, intf)) <$> devices_seen aps intf)
             keys keys); [|intros k; by rewrite group_by_interface_devices|done].
  apply grouped_pairs_perm; [done|]. intros dev intf Hin. apply Hkeys.
  rewrite group_by_interface_lookup.
  apply devices_seen_elem in Hin. destruct (devices_seen aps intf); [|eauto].
  by apply elem_of_nil in Hin.
Qed.

Lemma total_is_grouped_length (interfaces : gmap string (list string)) :
  sum_list (length <$> (map_to_list interfaces).*2) =
    length (grouped_pairs interfaces (map_to_list interfaces).*1).
Proof.
  unfold grouped_pairs.
  assert (H : forall l : list (string * list string),
    (forall kv, kv ∈ l -> interfaces !! kv.1 = Some kv.2) ->
    sum_list (length <$> l.*2) =
      length (l.*1 ≫= (fun intf => (fun dev => (dev, intf))
                                   <$> default [] (interfaces !! intf)))).
  { induction l as [|[k v] l IH]; intros Hl; [done|].
    rewrite !fmap_cons, bind_cons, length_app, length_fmap. cbn [fst snd].
    pose proof (Hl (k, v) ltac:(apply list_elem_of_here)) as Hk.
    cbn [fst snd] in Hk. rewrite Hk. cbn [default].
    change (sum_list (length v :: (length <$> l.*2)))
      with (length v + sum_list (length <$> l.*2)).
    rewrite IH; [done|]. intros kv Hin. apply Hl. by apply list_elem_of_further. }
  apply H. intros [k v] Hin. by apply elem_of_map_to_list in Hin.
Qed.

Lemma report_found_run (interfaces : gmap string (list string)) (w : world) :
  report_found interfaces w =
    (Val tt, w,
     EvPrint ("Found "
              +:+ Str.of_nat (sum_list (length <$> (map_to_list interfaces).*2))
              +:+ " AP(s).")
     :: EvPrint "Interfaces with APs:"
     :: map EvPrint (report_line <$> grouped_pairs interfaces (sorted_keys interfaces))).
Proof.
  unfold report_found. cbv zeta. rewrite bind_run, print_run. cbv beta iota.
  rewrite bind_run, print_run. cbv beta iota.
  rewrite (mfor_prints _ _
             (fun intf => (fun d => "  " +:+ intf +:+ " - " +:+ d)
                          <$> default [] (interfaces !! intf))).
  - cbn [app]. do 4 f_equal. unfold grouped_pairs.
    induction (sorted_keys interfaces) as [|k keys IH]; [done|].
    rewrite bind_cons, fmap_app, map_cons, concat_cons, IH. f_equal.
    by rewrite <- list_fmap_compose.
  - intros intf w'. by rewrite mfor_print_each.
Qed.

(** The report of the interfaces found gives the number of pairs of the
    summary scan, one for each line with a device, and lists every pair
    once: its lines are, up to their order, the pairs of the scan. *)
Theorem report_lists_every_pair_once (aps : list (string * string)) (w : world) :
  exists listing,
    report_found (group_by_interface aps) w =
      (Val tt, w,
       EvPrint ("Found " +:+ Str.of_nat (length aps) +:+ " AP(s).")
       :: EvPrint "Interfaces with APs:"
       :: map EvPrint listing)
    /\ listing ≡ₚ report_line <$> aps.
Proof.
  exists (report_line <$> grouped_pairs (group_by_interface aps)
                          (sorted_keys (group_by_interface aps))).
  split.
  - rewrite report_found_run, total_is_grouped_length.
    rewrite grouped_pairs_of_group; [done|apply NoDup_fst_map_to_list|].
    intros intf. rewrite <- sorted_keys_elem. unfold sorted_keys.
    by rewrite merge_sort_Permutation.
  - f_equiv. apply grouped_pairs_of_group; [apply sorted_keys_NoDup|].
    apply sorted_keys_elem.
Qed.

(** ** The preview and the batches sent *)

Lemma shows_four (cmds : list string) :
  Forall2 shows (map (fun l => "    " +:+ l) cmds) cmds.
Proof. induction cmds as [|c cmds IH]; constructor; [by right | done]. Qed.

Lemma preview_lines_show_commands (cdp_map : gmap string string)
  (interfaces : gmap string (list string)) (do_desc : bool)
  (user_lines : list string) (do_default : option bool) (intf : string) :
  intf ≠ unknown_interface ->
  Forall2 shows
    (preview_lines cdp_map interfaces (do_desc, user_lines, do_default) intf)
    (cfg_commands cdp_map interfaces do_default do_desc user_lines intf).
Proof.
  intros Hne. unfold preview_lines, cfg_commands.
  rewrite eqb_unknown, bool_decide_eq_false_2 by done.
  apply Forall2_app.
  { destruct (flag_on do_default); [|constructor].
    constructor; [by left | constructor]. }
  constructor; [by left|].
  apply Forall2_app; apply shows_four.
Qed.

(** The preview shows what will be sent.  After its heading the preview
    goes through the interfaces in sorted order; for every interface but
    the sentinel it prints the very commands of the batch the apply loop
    sends for that interface, in their order, each after two or four
    spaces, and for the sentinel it prints the notice that it is skipped. *)
Theorem preview_shows_the_batches (cdp_map : gmap string string)
  (interfaces : gmap string (list string)) (do_desc : bool)
  (user_lines : list string) (do_default : option bool) (w : world) :
  exists shown : string -> list string,
    preview cdp_map interfaces (do_desc, user_lines, do_default) w =
      (Val tt, w,
       map EvPrint ((nl +:+ "Planned changes for each interface:")
                    :: concat (map shown (sorted_keys interfaces))))
    /\ shown unknown_interface = ["  Skipping unknown interface"]
    /\ forall intf,
         intf ≠ unknown_interface ->
         Forall2 shows (shown intf)
           (cfg_commands cdp_map interfaces do_default do_desc user_lines intf).
Proof.
  exists (preview_lines cdp_map interfaces (do_desc, user_lines, do_default)).
  split; [apply preview_run|]. split; [done|].
  intros intf. apply preview_lines_show_commands.
Qed.

(** ** Reading the configuration lines *)

Lemma read_lines_until_period (stdin : list string) :
  exists kept,
    (read_lines stdin).1.1 = Str.rstrip <$> kept
    /\ Forall (fun l => Str.strip l ≠ ".") kept
    /\ ((stdin = kept /\ (read_lines stdin).1.2 = [])
        \/ exists period,
             Str.strip period = "." /\
             stdin = kept ++ period :: (read_lines stdin).1.2).
Proof.
  induction stdin as [|line rest (kept & Hl & Hk & Hr)]; cbn [read_lines].
  { exists []. split; [done|]. split; [done|]. by left. }
  destruct (String.eqb_spec (Str.strip line) ".") as [Hp|Hp].
  { exists []. split; [done|]. split; [done|]. right. by exists line. }
  destruct (read_lines rest) as [[ls rest'] evs]. cbn [fst snd] in *.
  exists (line :: kept). rewrite Hl. split; [done|].
  split; [by constructor|].
  destruct Hr as [[-> ->]|(period & Hper & ->)]; [by left|].
  right. by exists period.
Qed.

(** Reading the configuration lines never raises.  The lines returned are
    the lines typed before the first line that is a lone period, each
    without its trailing white space, blank lines included; the period is
    consumed and what follows it is left to be read.  At the end of input
    the lines typed so far are returned. *)
Theorem read_user_lines_until_period (w : world) :
  exists kept,
    outcome (read_user_lines w) = Val (Str.rstrip <$> kept)
    /\ Forall (fun l => Str.strip l ≠ ".") kept
    /\ ((w_stdin w = kept /\ w_stdin (final (read_user_lines w)) = [])
        \/ exists period,
             Str.strip period = "." /\
             w_stdin w = kept ++ period :: w_stdin (final (read_user_lines w))).
Proof.
  destruct (read_lines_until_period (w_stdin w)) as (kept & Hl & Hk & Hr).
  exists kept. unfold read_user_lines, outcome, final.
  destruct (read_lines (w_stdin w)) as [[ls rest] evs]. cbn [fst snd] in *.
  by rewrite Hl.
Qed.

(** ** Nothing is sent without the operator's consent *)

#[global] Instance confirmed_by_rel (prompt : string) : TraceRel (confirmed_by prompt).
Proof.
  split; unfold confirmed_by, confirmed_at.
  - intros _ i cmds H. by rewrite lookup_nil in H.
  - intros _ _ _ t1 t2 H1 H2 i cmds Hi.
    apply lookup_app_Some in Hi as [Hi|[Hle Hi]].
    + destruct (H1 i cmds Hi) as (j & a & Hj & Hlook & Ha).
      exists j, a. split; [done|]. split; [|done]. by apply lookup_app_l_Some.
    + destruct (H2 _ cmds Hi) as (j & a & Hj & Hlook & Ha).
      exists (length t1 + j), a. split; [lia|]. split; [|done].
      rewrite lookup_app_r by lia. by replace (length t1 + j - length t1) with j by lia.
Qed.

#[global] Instance confirmed_on_switch_rel (prompt : string) :
  TraceRel (confirmed_on_switch prompt).
Proof.
  split; unfold confirmed_on_switch, confirmed_since_connect.
  - intros _ i cmds H. by rewrite lookup_nil in H.
  - intros _ _ _ t1 t2 H1 H2 i cmds Hi.
    apply lookup_app_Some in Hi as [Hi|[Hle Hi]].
    + destruct (H1 i cmds Hi) as (c & j & a & Hcj & (ip & u & p & Hc) & Hno & Hj & Ha).
      pose proof (lookup_lt_Some _ _ _ Hi) as Hlt.
      exists c, j, a. split; [done|]. split; [|split; [|split; [|done]]].
      * exists ip, u, p. by apply lookup_app_l_Some.
      * intros k e Hk. rewrite lookup_app_l by lia. by apply Hno.
      * by apply lookup_app_l_Some.
    + destruct (H2 _ cmds Hi) as (c & j & a & Hcj & (ip & u & p & Hc) & Hno & Hj & Ha).
      exists (length t1 + c), (length t1 + j), a. split; [lia|].
      split; [|split; [|split; [|done]]].
      * exists ip, u, p. rewrite lookup_app_r by lia.
        by replace (length t1 + c - length t1) with c by lia.
      * intros k e Hk. rewrite lookup_app_r by lia. apply Hno. lia.
      * rewrite lookup_app_r by lia.
        by replace (length t1 + j - length t1) with j by lia.
Qed.

Lemma silent_no_batch (t : list event) (i : nat) (cmds : list string) :
  Forall (fun e => is_config_set e = false) t ->
  t !! i = Some (EvSendConfigSet cmds) -> False.
Proof.
  intros Hall Hi. by pose proof (Forall_lookup_1 _ _ _ _ Hall Hi).
Qed.

Lemma silent_confirmed (prompt : string) {A} (m : M A) :
  holds silent m -> holds (confirmed_by prompt) m.
Proof. intros H w i cmds Hi. by destruct (silent_no_batch _ _ _ (H w) Hi). Qed.

Lemma silent_confirmed_on_switch (prompt : string) {A} (m : M A) :
  holds silent m -> holds (confirmed_on_switch prompt) m.
Proof. intros H w i cmds Hi. by destruct (silent_no_batch _ _ _ (H w) Hi). Qed.

(** The shape of a confirmation: what follows the question is silent
    unless the answer was y. *)
Lemma confirmed_ask {A} (prompt : string) (declined accepted : M A) :
  holds silent declined ->
  holds (confirmed_by prompt)
    (answer ← ask prompt;
     if negb (String.eqb answer "y") then declined else accepted).
Proof.
  intros Hd w i cmds. rewrite bind_run, ask_run.
  destruct (w_stdin w) as [|a rest].
  { unfold events. cbn [snd]. intros Hi. by destruct i. }
  destruct (String.eqb_spec (Str.lower (Str.strip a)) "y") as [Hy|Hn]; cbn [negb].
  - destruct (accepted _) as [[r w2] t2]. unfold events. cbn [snd app].
    intros Hi. destruct i as [|i]; [done|].
    exists 0, a. split; [lia|]. by split.
  - specialize (Hd (set_stdin w rest)).
    destruct (declined _) as [[r w2] t2]. unfold events, emitting in *.
    cbn [snd app] in *. intros Hi. destruct i as [|i]; [done|].
    by destruct (silent_no_batch _ _ _ Hd Hi).
Qed.

Lemma leave_switch_silent (notice : string) : holds silent (leave_switch notice).
Proof. unfold leave_switch. emitting. Qed.

Create HintDb bodies discriminated.
#[local] Hint Unfold session_body configure choose_config prompt_new_config : bodies.

Ltac silent_prim :=
  first [ apply leave_switch_silent | by emitting ].

Ltac confirmed_step :=
  first
    [ apply confirmed_ask; silent_prim
    | holds_step_with
        ltac:(first [ apply silent_confirmed; silent_prim ])
        ltac:(progress autounfold with bodies; cbv zeta) ].

Lemma session_body_confirmed_configure :
  holds (confirmed_by configure_prompt) session_body.
Proof. unfold configure_prompt. repeat confirmed_step. Qed.

Lemma session_body_confirmed_proceed :
  holds (confirmed_by proceed_prompt) session_body.
Proof. unfold proceed_prompt. repeat confirmed_step. Qed.

Ltac flows_emitting :=
  repeat holds_step_with emitting_prim ltac:(progress autounfold with flows; cbv zeta).

Lemma session_scope_confirmed (prompt : string) :
  holds (confirmed_by prompt) session_body ->
  holds (confirmed_by prompt) session_scope.
Proof.
  intros H. unfold session_scope.
  apply holds_try_finally; [apply _ | done |].
  apply silent_confirmed. unfold release. emitting.
Qed.

Lemma session_scope_connectionless : holds connectionless session_scope.
Proof. flows_emitting. Qed.

(** After the connection is opened: what follows is one switch. *)
Lemma confirmed_after_connect {A} (prompt ip username password : string)
  (f : option exn -> M A) :
  (forall a, holds (confirmed_by prompt) (f a)) ->
  (forall a, holds connectionless (f a)) ->
  holds (confirmed_on_switch prompt)
    (catch (ConnectHandler ip username password ;; mret None)
           (fun e => mret (Some e)) ≫= f).
Proof.
  intros Hconf Hconn w i cmds. rewrite bind_run, connect_run.
  set (a := match w_device w (w_calls w) with Reply _ => None | Raises e => Some e end).
  specialize (Hconf a (called w)). specialize (Hconn a (called w)).
  destruct (f a (called w)) as [[r w2] t2].
  unfold events, confirmed_by, emitting in *. cbn [snd app] in *.
  intros Hi. destruct i as [|i]; [done|]. cbn [lookup list_lookup] in Hi.
  destruct (Hconf i cmds Hi) as (j & ans & Hj & Hlook & Hans).
  exists 0, (S j), ans. split; [lia|]. split; [by exists ip, username, password|].
  split; [|by split].
  intros k e Hk Hlk. destruct k as [|k]; [lia|].
  by apply (Forall_lookup_1 _ _ _ _ Hconn Hlk).
Qed.

Lemma after_session_confirmed (prompt : string) (a : option exn) :
  holds (confirmed_by prompt) session_body ->
  holds (confirmed_by prompt)
    (match a with
     | Some e => connection_failed e
     | None =>
         fl ← session_scope;
         match fl with
         | Next => ask_again "Configure another switch? [y/N]: "
         | _ => mret fl
         end
     end).
Proof.
  intros H. destruct a as [e|].
  - apply silent_confirmed. unfold connection_failed. destruct (exn_kind e); emitting.
  - apply holds_bind; [apply _ | by apply session_scope_confirmed | intros fl].
    apply silent_confirmed. destruct fl; emitting.
Qed.

Lemma after_session_connectionless (a : option exn) :
  holds connectionless
    (match a with
     | Some e => connection_failed e
     | None =>
         fl ← session_scope;
         match fl with
         | Next => ask_again "Configure another switch? [y/N]: "
         | _ => mret fl
         end
     end).
Proof.
  destruct a as [e|].
  - unfold connection_failed. destruct (exn_kind e); emitting.
  - apply holds_bind; [apply _ | apply session_scope_connectionless | intros fl].
    destruct fl; emitting.
Qed.

Lemma main_iteration_confirmed (prompt : string) :
  holds (confirmed_by prompt) session_body ->
  holds (confirmed_on_switch prompt) main_iteration.
Proof.
  intros H. unfold main_iteration.
  apply holds_bind; [apply _ | apply silent_confirmed_on_switch; emitting | intros ip].
  cbv zeta. destruct (Str.is_empty (Str.strip ip)).
  { apply silent_confirmed_on_switch. emitting. }
  apply holds_bind;
    [apply _ | apply silent_confirmed_on_switch; emitting | intros [username password]].
  apply confirmed_after_connect; intros a.
  - by apply after_session_confirmed.
  - apply after_session_connectionless.
Qed.

Lemma main_loop_holds (R : world -> world -> list event -> Prop) `{!TraceRel R}
  (turns : nat) :
  holds R main_iteration -> holds R (main_loop turns).
Proof.
  intros H. induction turns as [|k IH]; cbn [main_loop].
  - apply holds_ret; apply _.
  - apply holds_bind; [apply _ | done | intros fl].
    destruct fl; [done | apply holds_ret; apply _ | apply holds_ret; apply _].
Qed.

(** Nothing is configured without the operator's consent.  In every run
    of [main], every batch of configuration commands sent to a switch
    comes after the connection to that switch was opened and, since then,
    after a y at the question whether to configure the interfaces found
    and a y at the question whether to proceed with the changes shown. *)
Theorem configuration_needs_consent (w : world) :
  confirmed_since_connect configure_prompt (events (main w))
  /\ confirmed_since_connect proceed_prompt (events (main w)).
Proof.
  unfold main. split.
  - apply (main_loop_holds (confirmed_on_switch configure_prompt)).
    apply main_iteration_confirmed, session_body_confirmed_configure.
  - apply (main_loop_holds (confirmed_on_switch proceed_prompt)).
    apply main_iteration_confirmed, session_body_confirmed_proceed.
Qed.

(** The scenario run shows the two confirmations before its batches. *)
Example scenario_run_is_confirmed :
  events (main world_first_batch_fails) !! 29 =
    Some (EvSendConfigSet
            ["default interface GigabitEthernet1/0/1";
             "interface GigabitEthernet1/0/1"; "description lobby-ap";
             "switchport mode access"])
  /\ events (main world_first_batch_fails) !! 10 =
       Some (EvInput configure_prompt (Some "y"))
  /\ events (main world_first_batch_fails) !! 27 =
       Some (EvInput proceed_prompt (Some "y")).
Proof. by vm_compute. Qed.

(** ** What [main] asks of a session *)

Lemma main_iteration_read_only : holds (emitting read_only_call) main_iteration.
Proof.
  repeat holds_step_with
    ltac:(first [ emitting_prim
                | apply emitting_device_call; cbn; by eauto ])
    ltac:(progress autounfold with flows; cbv zeta).
Qed.

(** [main] of ap_renamer.py never saves the configuration of a switch, and
    the only commands it sends besides the batches are the two show
    commands: what it applies stays in the running configuration. *)
Theorem main_never_saves_config (w : world) :
  (EvSaveConfig ∉ events (main w))
  /\ forall cmd,
       EvSendCommand cmd ∈ events (main w) ->
       cmd = "show power inline" \/ cmd = "show cdp neighbors detail".
Proof.
  pose proof (main_loop_holds (emitting read_only_call) (S (length (w_stdin w)))
                main_iteration_read_only w) as H.
  unfold emitting in H. rewrite Forall_forall in H. split.
  - intros Hin. apply (H _ Hin).
  - intros cmd Hin. apply (H _ Hin).
Qed.

(** ** The stored state from one switch to the next *)

Create HintDb steps discriminated.
#[local] Hint Unfold session_scope release leave_switch connection_failed ask
  ask_again send_command send_config_set disconnect ConnectHandler report_found
  preview apply_changes apply_interface : steps.

#[global] Instance credentials_kept_rel : TraceRel credentials_kept.
Proof.
  split; unfold credentials_kept; [done|].
  intros w w1 w2 _ _ H1 H2. congruence.
Qed.

#[global] Instance credentials_kept_keeps : KeepsRel credentials_kept.
Proof. intros w w' t H. unfold credentials_kept. by rewrite H. Qed.

#[global] Instance toggles_kept_rel : TraceRel toggles_kept.
Proof. split; unfold toggles_kept; [done | auto]. Qed.

#[global] Instance toggles_kept_keeps : KeepsRel toggles_kept.
Proof. intros w w' t H. unfold toggles_kept. by rewrite H. Qed.

Ltac kept_basic :=
  first [ apply kept_print; apply _
        | apply kept_input; apply _
        | apply kept_getpass; apply _
        | apply kept_device_call; apply _
        | apply kept_get_saved; apply _
        | apply kept_read_user_lines; apply _ ].

Ltac kept_with prim :=
  repeat holds_step_with ltac:(first [ prim | kept_basic ])
                         ltac:(progress autounfold with steps; cbv zeta).

Lemma returns_ret {A} (Q : A -> Prop) (a : A) : Q a -> returns Q (mret a).
Proof. by intros H w. Qed.

Lemma returns_bind {A B} (Q : B -> Prop) (m : M A) (f : A -> M B) :
  (forall a, returns Q (f a)) -> returns Q (m ≫= f).
Proof.
  intros Hf w. rewrite bind_run. destruct (m w) as [[[a|e] w1] t1]; [|done].
  specialize (Hf a w1). by destruct (f a w1) as [[r w2] t2].
Qed.

(** *** Credentials *)

Lemma credentials_kept_save_for_reuse (cfg : config) :
  holds credentials_kept (save_for_reuse cfg).
Proof.
  intros w. destruct cfg as [[do_desc user_lines] do_default].
  rewrite save_for_reuse_run. destruct (w_stdin w) as [|a rest]; [done|].
  by destruct (String.eqb _ _).
Qed.

Lemma credentials_kept_session_body : holds credentials_kept session_body.
Proof.
  unfold session_body, configure, choose_config, prompt_new_config.
  kept_with ltac:(apply credentials_kept_save_for_reuse).
Qed.

Lemma credentials_kept_after_connect (a : option exn) :
  holds credentials_kept
    (match a with
     | Some e => connection_failed e
     | None =>
         fl ← session_scope;
         match fl with
         | Next => ask_again "Configure another switch? [y/N]: "
         | _ => mret fl
         end
     end).
Proof. kept_with ltac:(apply credentials_kept_session_body). Qed.

Lemma obtain_credentials_stored (w : world) :
  match outcome (obtain_credentials w) with
  | Val up => credentials (w_saved (final (obtain_credentials w))) = Some up
  | Raise _ => True
  end.
Proof.
  unfold obtain_credentials. rewrite bind_run. cbn [get_saved].
  destruct (credentials (w_saved w)) as [stored|] eqn:Hstored.
  - rewrite bind_run, ask_run. destruct (w_stdin w) as [|a rest]; [done|].
    destruct (String.eqb _ "n"); [|done].
    rewrite prompt_credentials_run. cbn [set_stdin w_stdin].
    by destruct rest as [|u [|p rest]].
  - rewrite prompt_credentials_run. by destruct (w_stdin w) as [|u [|p rest]].
Qed.

Lemma obtain_credentials_connectionless : holds connectionless obtain_credentials.
Proof. emitting. Qed.

Lemma connectionless_no_connect (t : list event) (ip username password : string) :
  Forall (fun e => is_connect e = false) t ->
  EvConnect ip username password ∈ t -> False.
Proof. rewrite Forall_forall. intros H Hin. by specialize (H _ Hin). Qed.

(** The credentials a connection was opened with are the stored ones:
    after a turn of the loop in which [main] called [ConnectHandler], the
    user name and password it passed are the credentials kept for the next
    switch, whether the connection succeeded or not and whatever was done
    on the switch. *)
Theorem connection_credentials_are_stored (w : world)
  (ip username password : string) :
  EvConnect ip username password ∈ events (main_iteration w) ->
  credentials (w_saved (final (main_iteration w))) = Some (username, password).
Proof.
  unfold main_iteration. rewrite bind_run.
  pose proof (input_offline "Switch IP (blank to exit): " w) as Hin.
  assert (Hin' : Forall (fun e => is_connect e = false)
                   (events (input "Switch IP (blank to exit): " w))).
  { unfold input. destruct (w_stdin w); by repeat constructor. }
  destruct (input _ w) as [[[a|e] w1] t1]; unfold events, final in *;
    cbn [fst snd] in *; [|intros H; by destruct (connectionless_no_connect _ _ _ _ Hin' H)].
  cbv zeta. destruct (Str.is_empty (Str.strip a)).
  { rewrite bind_run, print_run, ret_run. cbn [fst snd]. rewrite elem_of_app.
    intros [H|H]; [by destruct (connectionless_no_connect _ _ _ _ Hin' H)|].
    apply elem_of_app in H as [H|H]; [|by apply elem_of_nil in H].
    apply list_elem_of_singleton in H. done. }
  rewrite bind_run.
  pose proof (obtain_credentials_stored w1) as Hst.
  pose proof (obtain_credentials_connectionless w1) as Hoc.
  destruct (obtain_credentials w1) as [[[[u p]|e] w2] t2];
    unfold outcome, final, events, emitting in *; cbn [fst snd] in *.
  2:{ rewrite elem_of_app. intros [H|H];
        [by destruct (connectionless_no_connect _ _ _ _ Hin' H)
        |by destruct (connectionless_no_connect _ _ _ _ Hoc H)]. }
  rewrite bind_run, connect_run.
  set (r := match w_device w2 (w_calls w2) with Reply _ => None | Raises e => Some e end).
  pose proof (credentials_kept_after_connect r (called w2)) as Hkept.
  pose proof (after_session_connectionless r (called w2)) as Hconn.
  destruct (_ (called w2)) as [[fl w3] t3] eqn:Hrun in Hkept, Hconn |- *.
  unfold credentials_kept, final, events, emitting in *. cbn [fst snd] in *.
  change ([EvConnect (Str.strip a) u p] ++ t3)
    with (EvConnect (Str.strip a) u p :: t3).
  rewrite !elem_of_app, elem_of_cons. intros [H|[H|[H|H]]].
  - by destruct (connectionless_no_connect _ _ _ _ Hin' H).
  - by destruct (connectionless_no_connect _ _ _ _ Hoc H).
  - injection H as H1 H2 H3.
    rewrite Hkept. cbn [called w_saved]. rewrite Hst. congruence.
  - by destruct (connectionless_no_connect _ _ _ _ Hconn H).
Qed.

Lemma connection_credentials_are_stored_witness :
  credentials (w_saved (final (main_iteration world_new_credentials))) =
    Some ("root", "new-secret").
Proof.
  apply (connection_credentials_are_stored world_new_credentials "10.0.0.1").
  vm_compute. do 4 right. left.
Defined.

(** *** Stored lines come with stored toggles *)

Lemma toggles_kept_prompt_credentials : holds toggles_kept prompt_credentials.
Proof.
  intros w. rewrite prompt_credentials_run.
  destruct (w_stdin w) as [|u [|p rest]]; unfold toggles_kept, toggles_stored;
    by cbn.
Qed.

Lemma toggles_kept_obtain_credentials : holds toggles_kept obtain_credentials.
Proof.
  unfold obtain_credentials.
  kept_with ltac:(apply toggles_kept_prompt_credentials).
Qed.

Lemma prompt_new_config_default : returns default_chosen prompt_new_config.
Proof.
  unfold prompt_new_config. cbv zeta.
  apply returns_bind; intros desc_choice.
  do 3 (apply returns_bind; intros ?).
  assert (Hd : forall d l, returns default_chosen
            (default_choice ← ask "Default interfaces before applying config? [y/N]: ";
             mret (inr (d, l, Some (String.eqb default_choice "y"))))).
  { intros d l. apply returns_bind; intros c. apply returns_ret. by eexists. }
  destruct a1; [|apply Hd].
  destruct (negb _); [apply returns_bind; intros ?; apply Hd|].
  apply returns_bind; intros fl. by apply returns_ret.
Qed.

Lemma prompt_new_config_saved (w : world) :
  w_saved (final (prompt_new_config w)) = w_saved w.
Proof.
  assert (H : holds (fun w w' _ => w_saved w' = w_saved w) prompt_new_config).
  { assert (TraceRel (fun w w' (_ : list event) => w_saved w' = w_saved w)).
    { split; [done|]. intros ? ? ? ? ? H1 H2. congruence. }
    assert (KeepsRel (fun w w' (_ : list event) => w_saved w' = w_saved w)).
    { by intros ? ? ? ?. }
    unfold prompt_new_config. kept_with fail. }
  apply H.
Qed.

Lemma choose_config_default (w : world) :
  toggles_stored (w_saved w) ->
  w_saved (final (choose_config w)) = w_saved w
  /\ match outcome (choose_config w) with
     | Val chosen => default_chosen chosen
     | Raise _ => True
     end.
Proof.
  intros Hinv. unfold choose_config. rewrite bind_run. cbn [get_saved].
  pose proof (prompt_new_config_default) as Hnew.
  destruct (prev_user_lines (w_saved w)) as [lines|] eqn:Hlines.
  - rewrite bind_run, ask_run. destruct (w_stdin w) as [|a rest]; [done|].
    destruct (negb _).
    + rewrite ret_run. unfold final, outcome. cbn [fst snd set_stdin w_saved].
      split; [done|]. apply Hinv. by rewrite Hlines.
    + specialize (Hnew (set_stdin w rest)).
      pose proof (prompt_new_config_saved (set_stdin w rest)) as Hs.
      destruct (prompt_new_config _) as [[r w2] t2].
      unfold final, outcome in *. by cbn [fst snd set_stdin w_saved] in *.
  - specialize (Hnew w). pose proof (prompt_new_config_saved w) as Hs.
    destruct (prompt_new_config w) as [[r w2] t2].
    unfold final, outcome in *. by cbn [fst snd] in *.
Qed.

Lemma toggles_kept_configure (cdp_map : gmap string string)
  (interfaces : gmap string (list string)) :
  holds toggles_kept (configure cdp_map interfaces).
Proof.
  intros w Hinv. unfold configure. rewrite bind_run.
  destruct (choose_config_default w Hinv) as [Hs Hd].
  destruct (choose_config w) as [[[chosen|e] w1] t1];
    unfold final, outcome in *; cbn [fst snd] in *; [|by rewrite Hs].
  destruct chosen as [fl|[[do_desc user_lines] do_default]].
  { rewrite ret_run. cbn [fst snd]. by rewrite Hs. }
  rewrite bind_run, save_for_reuse_run.
  destruct (w_stdin w1) as [|a rest]; [cbn [fst snd]; by rewrite Hs|].
  match goal with
  | |- context [ (?rest_of ≫= ?k) ?w2 ] =>
      assert (Hrest : holds toggles_kept (rest_of ≫= k))
  end.
  { kept_with fail. }
  match goal with
  | |- context [ (?rest_of ≫= ?k) ?w2 ] =>
      specialize (Hrest w2); destruct ((rest_of ≫= k) w2) as [[r w3] t3]
  end.
  unfold final in *. cbn [fst snd] in *. apply Hrest.
  destruct (String.eqb _ "y"); cbn [w_saved set_stdin]; [|by rewrite Hs].
  intros _. cbn. split; [done | by eexists].
Qed.

Lemma toggles_kept_session_body : holds toggles_kept session_body.
Proof.
  unfold session_body. kept_with ltac:(apply toggles_kept_configure).
Qed.

Lemma toggles_kept_main_iteration : holds toggles_kept main_iteration.
Proof.
  unfold main_iteration.
  kept_with ltac:(first [ apply toggles_kept_obtain_credentials
                        | apply toggles_kept_session_body ]).
Qed.

(** Stored configuration lines always come with both stored toggles: the
    property holds before the first switch, and every turn of the loop
    keeps it, hence so does every run of [main].  So when the operator
    reuses the stored lines, the description preference is the stored one
    (the fallback to no description never applies) and the default toggle
    is a stored yes or no. *)
Theorem stored_lines_come_with_toggles (w : world) :
  toggles_stored (w_saved w) ->
  toggles_stored (w_saved (final (main_iteration w)))
  /\ toggles_stored (w_saved (final (main w)))
  /\ forall lines a rest,
       prev_user_lines (w_saved w) = Some lines ->
       w_stdin w = a :: rest -> Str.lower (Str.strip a) ≠ "n" ->
       exists do_desc do_default,
         prev_do_desc (w_saved w) = Some do_desc
         /\ prev_do_default (w_saved w) = Some do_default
         /\ outcome (choose_config w) = Val (inr (do_desc, lines, Some do_default)).
Proof.
  intros Hinv. split; [by apply toggles_kept_main_iteration|].
  split; [by apply (main_loop_holds toggles_kept _ toggles_kept_main_iteration)|].
  intros lines a rest Hlines Hin Ha.
  destruct Hinv as [[dd Hdd] [ds Hds]]; [by rewrite Hlines|].
  exists ds, dd. split; [done|]. split; [done|].
  unfold choose_config. rewrite bind_run. cbn [get_saved]. rewrite Hlines.
  rewrite bind_run, ask_run, Hin.
  destruct (String.eqb_spec (Str.lower (Str.strip a)) "n") as [|_]; [done|].
  cbn [negb]. rewrite ret_run. unfold outcome. cbn [fst]. by rewrite Hds, Hdd.
Qed.

Lemma stored_lines_come_with_toggles_witness :
  toggles_stored (w_saved (final (main_iteration world_stored_config)))
  /\ toggles_stored (w_saved (final (main world_stored_config)))
  /\ forall lines a rest,
       prev_user_lines (w_saved world_stored_config) = Some lines ->
       w_stdin world_stored_config = a :: rest ->
       Str.lower (Str.strip a) ≠ "n" ->
       exists do_desc do_default,
         prev_do_desc (w_saved world_stored_config) = Some do_desc
         /\ prev_do_default (w_saved world_stored_config) = Some do_default
         /\ outcome (choose_config world_stored_config) =
              Val (inr (do_desc, lines, Some do_default)).
Proof.
  apply (stored_lines_come_with_toggles world_stored_config).
  intros _. split; by eexists.
Defined.

(** ** A connection that cannot be opened *)

#[global] Instance session_untouched_rel : TraceRel session_untouched.
Proof.
  split; unfold session_untouched; [done|].
  intros w w1 w2 _ _ [H1 H2] [H3 H4]. split; congruence.
Qed.






(** ** A failed detail command *)

Lemma same_from_refl (w : world) : same_from w w.
Proof. by repeat split. Qed.

Lemma uniform_ret {A} (a : A) : uniform (mret a : M A).
Proof. intros w1 w2 H. by rewrite !ret_run. Qed.

Lemma uniform_bind {A B} (m : M A) (f : A -> M B) :
  uniform m -> (forall a, uniform (f a)) -> uniform (m ≫= f).
Proof.
  intros Hm Hf w1 w2 H. rewrite !bind_run.
  destruct (Hm w1 w2 H) as (Ho & He & Hw).
  destruct (m w1) as [[r1 w1'] t1], (m w2) as [[r2 w2'] t2].
  unfold outcome, events, final in *. cbn [fst snd] in *. subst r2 t2.
  destruct r1 as [a|e]; [|done].
  destruct (Hf a w1' w2' Hw) as (Ho' & He' & Hw').
  destruct (f a w1') as [[r1 w1''] u1], (f a w2') as [[r2 w2''] u2].
  unfold outcome, events, final in *. cbn [fst snd] in *. by subst.
Qed.

Lemma uniform_catch {A} (m : M A) (handler : exn -> M A) :
  uniform m -> (forall e, uniform (handler e)) -> uniform (catch m handler).
Proof.
  intros Hm Hh w1 w2 H. unfold catch.
  destruct (Hm w1 w2 H) as (Ho & He & Hw).
  destruct (m w1) as [[r1 w1'] t1], (m w2) as [[r2 w2'] t2].
  unfold outcome, events, final in *. cbn [fst snd] in *. subst r2 t2.
  destruct r1 as [a|e]; [done|].
  destruct (Hh e w1' w2' Hw) as (Ho' & He' & Hw').
  destruct (handler e w1') as [[r1 w1''] u1], (handler e w2') as [[r2 w2''] u2].
  unfold outcome, events, final in *. cbn [fst snd] in *. by subst.
Qed.

Lemma uniform_try_finally {A} (m : M A) (cleanup : M unit) :
  uniform m -> uniform cleanup -> uniform (try_finally m cleanup).
Proof.
  intros Hm Hc w1 w2 H. unfold try_finally.
  destruct (Hm w1 w2 H) as (Ho & He & Hw).
  destruct (m w1) as [[r1 w1'] t1], (m w2) as [[r2 w2'] t2].
  unfold outcome, events, final in *. cbn [fst snd] in *. subst r2 t2.
  destruct (Hc w1' w2' Hw) as (Ho' & He' & Hw').
  destruct (cleanup w1') as [[c1 w1''] u1], (cleanup w2') as [[c2 w2''] u2].
  unfold outcome, events, final in *. cbn [fst snd] in *. subst c2 u2.
  by destruct c1.
Qed.

Lemma uniform_mfor {A} (xs : list A) (body : A -> M unit) :
  (forall x, uniform (body x)) -> uniform (mfor xs body).
Proof.
  intros Hb. induction xs as [|x xs IH]; cbn [mfor].
  - apply uniform_ret.
  - apply uniform_bind; [apply Hb | by intros _].
Qed.

Ltac same_worlds :=
  unfold same_from, outcome, events, final in *; cbn in *;
  repeat split;
  first [ done | congruence
        | match goal with
          | H : forall k, _ -> w_device _ k = w_device _ k |- _ =>
              intros; apply H; lia
          end ].

Lemma uniform_print (text : string) : uniform (print text).
Proof. by intros w1 w2 H. Qed.

Lemma uniform_input (prompt : string) : uniform (input prompt).
Proof.
  intros w1 w2 (Hin & Hc & Hs & Hd). unfold input. rewrite <- Hin.
  destruct (w_stdin w1) eqn:E; same_worlds.
Qed.

Lemma uniform_getpass (prompt : string) : uniform (getpass prompt).
Proof.
  intros w1 w2 (Hin & Hc & Hs & Hd). unfold getpass. rewrite <- Hin.
  destruct (w_stdin w1) eqn:E; same_worlds.
Qed.

Lemma uniform_device_call (ev : event) : uniform (device_call ev).
Proof.
  intros w1 w2 (Hin & Hc & Hs & Hd). rewrite !device_call_run.
  unfold outcome, events, final. cbn [fst snd].
  rewrite <- Hc, <- (Hd (w_calls w1)) by done.
  split; [done|]. split; [done|].
  repeat split; cbn [called w_stdin w_calls w_saved w_device]; try done;
    [by rewrite Hc|]. intros k Hk. apply Hd. lia.
Qed.

Lemma uniform_get_saved : uniform get_saved.
Proof.
  intros w1 w2 (Hin & Hc & Hs & Hd). unfold get_saved, outcome, events, final.
  cbn [fst snd]. by rewrite Hs.
Qed.

Lemma uniform_put_saved (st : session_state) : uniform (put_saved st).
Proof. intros w1 w2 (Hin & Hc & Hs & Hd). same_worlds. Qed.

Lemma uniform_read_user_lines : uniform read_user_lines.
Proof.
  intros w1 w2 (Hin & Hc & Hs & Hd). unfold read_user_lines. rewrite <- Hin.
  destruct (read_lines (w_stdin w1)) as [[ls rest] evs] eqn:E. same_worlds.
Qed.

Create HintDb wholes discriminated.
#[local] Hint Unfold session_scope session_body release configure choose_config
  prompt_new_config leave_switch connection_failed ask ask_again send_command
  send_config_set save_config disconnect ConnectHandler report_found preview
  apply_changes apply_interface save_for_reuse prompt_credentials
  obtain_credentials : wholes.

Ltac uniform_step :=
  lazymatch goal with
  | |- uniform (mret _) => apply uniform_ret
  | |- uniform (_ ≫= _) => apply uniform_bind; [ | intros ?]
  | |- uniform (catch _ _) => apply uniform_catch; [ | intros ?]
  | |- uniform (try_finally _ _) => apply uniform_try_finally
  | |- uniform (mfor _ _) => apply uniform_mfor; intros ?
  | |- uniform (if ?b then _ else _) => destruct b
  | |- uniform (match ?x with _ => _ end) => destruct x
  | |- uniform _ =>
      first [ apply uniform_print | apply uniform_input | apply uniform_getpass
            | apply uniform_device_call | apply uniform_get_saved
            | apply uniform_put_saved | apply uniform_read_user_lines
            | progress autounfold with wholes; cbv zeta ]
  end.

Lemma with_reply_same_from (w : world) (call : nat) (r : reply) (calls : nat) :
  call < calls ->
  same_from (World (w_stdin w) (w_device w) calls (w_saved w))
            (World (w_stdin w) (w_device (with_reply w call r)) calls (w_saved w)).
Proof.
  intros Hlt. repeat split. intros k Hk. cbn [w_calls w_device with_reply] in *.
  rewrite decide_False by lia. done.
Qed.

(** A failure of the detail command is tolerated.  When the summary names
    at least one device and the command for the neighbor detail raises,
    the [try] block and its clean-up go on exactly as when the command
    returns an empty text: the same prompts, notices and calls, and the
    same result. *)
Theorem detail_failure_is_tolerated (w : world) (output : string) (e : exn) :
  w_device w (w_calls w) = Reply output ->
  find_aps_in_cdp output ≠ [] ->
  w_device w (S (w_calls w)) = Raises e ->
  let w' := with_reply w (S (w_calls w)) (Reply EmptyString) in
  outcome (session_scope w) = outcome (session_scope w')
  /\ events (session_scope w) = events (session_scope w').
Proof.
  intros Hout Haps Hfail w'.
  assert (Hout' : w_device w' (w_calls w') = Reply output).
  { unfold w'. cbn [with_reply w_device w_calls]. rewrite decide_False by lia. done. }
  assert (Hfail' : w_device w' (S (w_calls w')) = Reply EmptyString).
  { unfold w'. cbn [with_reply w_device w_calls]. by rewrite decide_True. }
  rewrite !session_scope_run. unfold outcome, events. cbn [fst snd].
  cut (outcome (session_body w) = outcome (session_body w')
       /\ events (session_body w) = events (session_body w')).
  { unfold outcome, events. by intros [-> ->]. }
  unfold session_body. rewrite !bind_run. unfold send_command.
  rewrite !device_call_run, Hout, Hout'. cbv beta iota zeta.
  destruct (find_aps_in_cdp output) as [|ap aps]; [done|].
  rewrite !bind_run. unfold catch. rewrite !bind_run, !device_call_run.
  cbn [called w_calls w_device]. rewrite Hfail, Hfail'. cbv beta iota.
  rewrite !ret_run. cbv beta iota.
  change (parse_cdp_neighbors_detail EmptyString) with (∅ : gmap string string).
  match goal with
  | |- context [ (report_found ?i ≫= ?k) (called (called w)) ] =>
      assert (Hk : uniform (report_found i ≫= k)) by repeat uniform_step;
      destruct (Hk (called (called w)) (called (called w'))) as (Ho & He & _);
        [ apply (with_reply_same_from w (S (w_calls w)) (Reply EmptyString)
                   (S (S (w_calls w))));
          lia
        | destruct ((report_found i ≫= k) (called (called w))) as [[r1 w1] t1];
          destruct ((report_found i ≫= k) (called (called w'))) as [[r2 w2] t2] ]
  end.
  unfold outcome, events in *. cbn [fst snd] in *. by subst.
Qed.

Lemma detail_failure_is_tolerated_witness :
  outcome (session_scope world_detail_fails) =
    outcome (session_scope (with_reply world_detail_fails 1 (Reply EmptyString)))
  /\ events (session_scope world_detail_fails) =
       events (session_scope (with_reply world_detail_fails 1 (Reply EmptyString))).
Proof.
  apply (detail_failure_is_tolerated world_detail_fails scenario_summary
           (Exn OtherException "timed out")).
  - reflexivity.
  - vm_compute. discriminate.
  - reflexivity.
Defined.

(** ** The failures that end a session *)

Lemma only_eof_ret {A} (a : A) : only_eof (mret a : M A).
Proof. by intros w e. Qed.

Lemma only_eof_bind {A B} (m : M A) (f : A -> M B) :
  only_eof m -> (forall a, only_eof (f a)) -> only_eof (m ≫= f).
Proof.
  intros Hm Hf w e. rewrite bind_run. specialize (Hm w).
  destruct (m w) as [[[a|e0] w1] t1]; unfold outcome in *; cbn [fst] in *.
  - specialize (Hf a w1 e). destruct (f a w1) as [[r w2] t2]. apply Hf.
  - intros [= <-]. by apply Hm.
Qed.

Lemma only_eof_catch {A} (m : M A) (handler : exn -> M A) :
  (forall e, only_eof (handler e)) -> only_eof (catch m handler).
Proof.
  intros Hh w e. unfold catch.
  destruct (m w) as [[[a|e0] w1] t1]; [done|].
  specialize (Hh e0 w1 e). destruct (handler e0 w1) as [[r w2] t2]. apply Hh.
Qed.

Lemma only_eof_mfor {A} (xs : list A) (body : A -> M unit) :
  (forall x, only_eof (body x)) -> only_eof (mfor xs body).
Proof.
  intros Hb. induction xs as [|x xs IH]; cbn [mfor].
  - apply only_eof_ret.
  - apply only_eof_bind; [apply Hb | by intros _].
Qed.

Lemma only_eof_print (text : string) : only_eof (print text).
Proof. by intros w e. Qed.

Lemma only_eof_input (prompt : string) : only_eof (input prompt).
Proof. intros w e. unfold input. destruct (w_stdin w); by intros [= <-]. Qed.

Lemma only_eof_get_saved : only_eof get_saved.
Proof. by intros w e. Qed.

Lemma only_eof_put_saved (st : session_state) : only_eof (put_saved st).
Proof. by intros w e. Qed.

Lemma only_eof_read_user_lines : only_eof read_user_lines.
Proof.
  intros w e. unfold read_user_lines.
  by destruct (read_lines (w_stdin w)) as [[ls rest] evs].
Qed.

Ltac only_eof_step :=
  lazymatch goal with
  | |- only_eof (mret _) => apply only_eof_ret
  | |- only_eof (catch _ _) => apply only_eof_catch; intros ?
  | |- only_eof (_ ≫= _) => apply only_eof_bind; [ | intros ?]
  | |- only_eof (mfor _ _) => apply only_eof_mfor; intros ?
  | |- only_eof (if ?b then _ else _) => destruct b
  | |- only_eof (match ?x with _ => _ end) => destruct x
  | |- only_eof _ =>
      first [ apply only_eof_print | apply only_eof_input
            | apply only_eof_get_saved | apply only_eof_put_saved
            | apply only_eof_read_user_lines
            | progress autounfold with wholes; cbv zeta ]
  end.

#[global] Instance calls_counted_rel : TraceRel calls_counted.
Proof.
  split; unfold calls_counted.
  - intros w. split; [done | cbn; lia].
  - intros w w1 w2 t1 t2 [Hd1 Hc1] [Hd2 Hc2].
    rewrite device_events_app, length_app. split; [congruence | lia].
Qed.

Ltac count_calls :=
  unfold calls_counted, final, events; cbn [fst snd];
  rewrite ?device_events_cons; split; [done | cbn; lia].

Lemma counted_print (text : string) : holds calls_counted (print text).
Proof. intros w. unfold print. count_calls. Qed.

Lemma counted_input (prompt : string) : holds calls_counted (input prompt).
Proof. intros w. unfold input. destruct (w_stdin w); count_calls. Qed.

Lemma counted_device_call (ev : event) :
  is_device_event ev = true -> holds calls_counted (device_call ev).
Proof.
  intros Hev w. rewrite device_call_run. unfold calls_counted, final, events.
  cbn [fst snd called w_device w_calls]. rewrite device_events_cons, Hev.
  split; [done | cbn; lia].
Qed.

Lemma counted_get_saved : holds calls_counted get_saved.
Proof. intros w. unfold get_saved. count_calls. Qed.

Lemma counted_put_saved (st : session_state) : holds calls_counted (put_saved st).
Proof. intros w. unfold put_saved. count_calls. Qed.

Lemma counted_read_user_lines : holds calls_counted read_user_lines.
Proof.
  intros w. unfold read_user_lines, calls_counted, final, events.
  pose proof (read_lines_inputs (fun e => is_device_event e = false) (w_stdin w))
    as Hin.
  destruct (read_lines (w_stdin w)) as [[ls rest] evs]. cbn [fst snd] in *.
  split; [done|]. cbn [set_stdin w_calls].
  assert (Hnone : device_events evs = []).
  { specialize (Hin ltac:(done)). unfold device_events.
    induction Hin as [|x l Hx _ IH]; [done|].
    rewrite filter_cons, decide_False; [done | by rewrite Hx]. }
  rewrite Hnone. cbn. lia.
Qed.

Ltac counted :=
  repeat holds_step_with
    ltac:(first [ apply counted_print | apply counted_input
                | apply counted_device_call; done | apply counted_get_saved
                | apply counted_put_saved | apply counted_read_user_lines ])
    ltac:(progress autounfold with wholes; cbv zeta).

Lemma aborts_of_only_eof {A} (m : M A) : only_eof m -> aborts_on_fatal m.
Proof. intros H w e He. left. by apply (H w). Qed.

Lemma aborts_bind {A B} (m : M A) (f : A -> M B) :
  holds calls_counted m -> aborts_on_fatal m ->
  (forall a, aborts_on_fatal (f a)) -> aborts_on_fatal (m ≫= f).
Proof.
  intros Hc Hm Hf w e. rewrite bind_run.
  specialize (Hc w). specialize (Hm w).
  destruct (m w) as [[[a|e0] w1] t1];
    unfold outcome, events, final, calls_counted in *; cbn [fst snd] in *.
  - destruct Hc as [Hdev Hcalls]. specialize (Hf a w1).
    destruct (f a w1) as [[r w2] t2]. unfold outcome, events in *.
    cbn [fst snd] in *. intros Hr.
    destruct (Hf e Hr) as [->|(t & ev & -> & Hev & Hraise)]; [by left|].
    right. exists (t1 ++ t), ev. split; [by rewrite (assoc_L (++))|].
    split; [done|].
    rewrite device_events_app, length_app, Nat.add_assoc, <- Hcalls, <- Hdev.
    done.
  - intros [= <-]. by apply Hm.
Qed.

Lemma aborts_fatal_call (ev : event) :
  fatal_call ev -> aborts_on_fatal (device_call ev).
Proof.
  intros Hev w e. rewrite device_call_run. unfold outcome, events. cbn [fst snd].
  destruct (w_device w (w_calls w)) as [out|e0] eqn:Hreply; [done|].
  intros [= <-]. right. exists [], ev. split; [done|]. split; [done|].
  cbn. by rewrite Nat.add_0_r.
Qed.

Lemma aborts_disconnect : aborts_on_fatal disconnect.
Proof.
  unfold disconnect.
  apply aborts_bind; [counted | apply aborts_fatal_call; by right | intros _].
  apply aborts_of_only_eof, only_eof_ret.
Qed.

Lemma aborts_leave_switch (notice : string) : aborts_on_fatal (leave_switch notice).
Proof.
  unfold leave_switch.
  apply aborts_bind;
    [counted | apply aborts_of_only_eof, only_eof_print | intros _].
  apply aborts_bind; [counted | apply aborts_disconnect | intros _].
  apply aborts_of_only_eof. repeat only_eof_step.
Qed.

Ltac aborts_step :=
  lazymatch goal with
  | |- aborts_on_fatal (leave_switch _) => apply aborts_leave_switch
  | |- aborts_on_fatal (_ ≫= _) => apply aborts_bind; [counted | | intros ?]
  | |- aborts_on_fatal (if ?b then _ else _) => destruct b
  | |- aborts_on_fatal (match ?x with _ => _ end) => destruct x
  | |- aborts_on_fatal _ =>
      first [ apply aborts_of_only_eof; solve [repeat only_eof_step]
            | apply aborts_fatal_call; by left
            | progress autounfold with bodies; cbv zeta ]
  end.

Lemma aborts_session_body : aborts_on_fatal session_body.
Proof.
  unfold session_body, send_command at 1. repeat aborts_step.
Qed.

(** The failures that end a session.  The [try] block passes on, besides
    the end of input, only what the session raised at the summary command
    or at a disconnect the block calls itself on an early way out; a
    failure of the detail command or of a batch never leaves it.  The call
    that failed is then the last one before the disconnect of the
    [finally] clause, which is still made. *)
Theorem session_ends_on_fatal_calls_only (w : world) (e : exn) :
  outcome (session_scope w) = Raise e ->
  e = eof_error
  \/ exists t ev,
       events (session_scope w) = t ++ [ev; EvDisconnect] /\ fatal_call ev /\
       w_device w (w_calls w + length (device_events t)) = Raises e.
Proof.
  rewrite session_scope_run. unfold outcome at 1, events at 1. cbn [fst snd].
  intros [->|(t & ev & Ht & Hev & Hraise)]%aborts_session_body; [by left|].
  right. exists t, ev. rewrite Ht, <- (assoc_L (++)). by split.
Qed.

Lemma session_ends_on_fatal_calls_only_witness :
  Exn OtherException "timed out" = eof_error
  \/ exists t ev,
       events (session_scope world_command_fails) = t ++ [ev; EvDisconnect]
       /\ fatal_call ev
       /\ w_device world_command_fails
            (w_calls world_command_fails + length (device_events t)) =
          Raises (Exn OtherException "timed out").
Proof.
  apply (session_ends_on_fatal_calls_only world_command_fails). reflexivity.
Defined.

(** ** The LLDP tool: records, matching loop and calls *)

Lemma strip_empty : Str.strip EmptyString = EmptyString.
Proof. done. Qed.

Lemma field_after_stripped (label line : string) :
  Str.strip (field_after label line) = field_after label line.
Proof.
  unfold field_after. destruct (Str.split label line) as [|x [|value rest]];
    [done | done | apply strip_idemp].
Qed.

Lemma next_nonempty_stripped (following : list string) (d : string) :
  next_nonempty following = Some d -> Str.strip d = d /\ d ≠ EmptyString.
Proof.
  induction following as [|l rest IH]; [done|]. cbn [next_nonempty].
  destruct (Str.truthy (Str.strip l)) eqn:Ht; [|done].
  intros [= <-]. split; [apply strip_idemp | by apply truthy_true].
Qed.

Lemma lldp_scan_stripped (lines : list string) (vars : lldp_vars) :
  (forall i, v_local_intf vars = Some i -> Str.strip i = i) ->
  Str.strip (v_system_name vars) = v_system_name vars ->
  Str.strip (v_system_desc vars) = v_system_desc vars ->
  (forall i, v_local_intf (lldp_scan lines vars) = Some i -> Str.strip i = i)
  /\ Str.strip (v_system_name (lldp_scan lines vars)) =
       v_system_name (lldp_scan lines vars)
  /\ Str.strip (v_system_desc (lldp_scan lines vars)) =
       v_system_desc (lldp_scan lines vars).
Proof.
  revert vars. induction lines as [|l following IH]; intros vars Hi Hn Hd; [done|].
  cbn [lldp_scan]. apply IH.
  - repeat match goal with
    | |- context [if ?b then _ else _] => destruct b
    | |- context [match next_nonempty ?f with _ => _ end] =>
        destruct (next_nonempty f)
    end; cbn [v_local_intf]; try done.
    intros i [= <-]. apply field_after_stripped.
  - repeat match goal with
    | |- context [if ?b then _ else _] => destruct b
    | |- context [match next_nonempty ?f with _ => _ end] =>
        destruct (next_nonempty f)
    end; cbn [v_system_name]; try done. apply field_after_stripped.
  - repeat match goal with
    | |- context [if ?b then _ else _] => destruct b
    end; cbn [v_system_desc]; try done.
    destruct (next_nonempty following) as [d|] eqn:Hnext; [|done].
    cbn [v_system_desc]. by apply next_nonempty_stripped in Hnext as [? _].
Qed.

Lemma lldp_scan1_stripped (lines : list string) (vars : option string * string) :
  (forall i, vars.1 = Some i -> Str.strip i = i) ->
  Str.strip vars.2 = vars.2 ->
  (forall i, (ApRenamer1.lldp_scan1 lines vars).1 = Some i -> Str.strip i = i)
  /\ Str.strip (ApRenamer1.lldp_scan1 lines vars).2 =
       (ApRenamer1.lldp_scan1 lines vars).2.
Proof.
  revert vars. induction lines as [|l following IH]; intros vars Hi Hd; [done|].
  cbn [ApRenamer1.lldp_scan1]. apply IH.
  - repeat match goal with
    | |- context [if ?b then _ else _] => destruct b
    | |- context [match next_nonempty ?f with _ => _ end] =>
        destruct (next_nonempty f)
    end; cbn [fst]; try done.
    intros i [= <-]. apply field_after_stripped.
  - repeat match goal with
    | |- context [if ?b then _ else _] => destruct b
    end; cbn [snd]; try done.
    destruct (next_nonempty following) as [d|] eqn:Hnext; [|done].
    cbn [snd]. by apply next_nonempty_stripped in Hnext as [? _].
Qed.

Lemma omap_length_le {A B} (f : A -> option B) (l : list A) :
  length (omap f l) <= length l.
Proof.
  induction l as [|x l IH]; [done|]. cbn [omap list_omap].
  destruct (f x); cbn [length]; lia.
Qed.

(** Every record of the LLDP parsers is well formed: the interface is not
    empty, and interface, system name and description have no white space
    around them; a record of the earlier parser also has a description that
    is not empty.  There are no more records than blocks. *)
Theorem lldp_records_well_formed (output : string) :
  (forall r, r ∈ parse_lldp_neighbors output ->
     local_intf r ≠ EmptyString
     /\ Str.strip (local_intf r) = local_intf r
     /\ Str.strip (system_name r) = system_name r
     /\ Str.strip (system_description r) = system_description r)
  /\ (forall r, r ∈ ApRenamer1.parse_lldp_neighbors1 output ->
        ApRenamer1.local_intf1 r ≠ EmptyString
        /\ ApRenamer1.system_description1 r ≠ EmptyString
        /\ Str.strip (ApRenamer1.local_intf1 r) = ApRenamer1.local_intf1 r
        /\ Str.strip (ApRenamer1.system_description1 r) =
             ApRenamer1.system_description1 r)
  /\ length (parse_lldp_neighbors output)
       <= length (Str.split lldp_separator output)
  /\ length (ApRenamer1.parse_lldp_neighbors1 output)
       <= length (Str.split lldp_separator output).
Proof.
  split; [|split; [|split; apply omap_length_le]].
  - intros r (block & _ & Hb)%list_elem_of_omap. unfold lldp_block in Hb.
    destruct (lldp_scan_stripped (lldp_block_lines block) lldp_vars_init)
      as (Hi & Hn & Hd); [done..|].
    destruct (v_local_intf _) as [intf|] eqn:Hintf; [|done].
    destruct (Str.truthy intf) eqn:Ht; [|done]. injection Hb as <-.
    cbn [local_intf system_name system_description].
    split; [by apply truthy_true|]. split; [by apply Hi | done].
  - intros r (block & _ & Hb)%list_elem_of_omap. unfold ApRenamer1.lldp_block1 in Hb.
    destruct (lldp_scan1_stripped (lldp_block_lines block) (None, EmptyString))
      as (Hi & Hd); [done..|].
    destruct (_.1) as [intf|] eqn:Hintf; [|done].
    destruct (Str.truthy intf) eqn:Ht; [|done].
    destruct (Str.truthy _) eqn:Htd in Hb; [|done].
    cbn [andb] in Hb. injection Hb as <-.
    cbn [ApRenamer1.local_intf1 ApRenamer1.system_description1].
    split; [by apply truthy_true|]. split; [by apply truthy_true|].
    split; [by apply Hi | done].
Qed.

(** *** The matching loop *)

Lemma build_config_cmds_from (policies : list device_policy)
  (neighbors : list neighbor) (config_cmds : list string) :
  foldl (fun cmds n => cmds ++ neighbor_cmds policies n) config_cmds neighbors =
    config_cmds ++ build_config_cmds policies neighbors.
Proof.
  rewrite build_config_cmds_concat. revert config_cmds.
  induction neighbors as [|n rest IH]; intros config_cmds; cbn [foldl map concat].
  - by rewrite app_nil_r.
  - by rewrite IH, <- (assoc_L (++)).
Qed.

Lemma match_neighbors_run (policies : list device_policy)
  (neighbors : list neighbor) (config_cmds : list string) (w : world) :
  match_neighbors policies neighbors config_cmds w =
    (Val (config_cmds ++ build_config_cmds policies neighbors), w,
     map EvPrint (match_notices policies neighbors)).
Proof.
  rewrite build_config_cmds_concat. revert config_cmds.
  induction neighbors as [|n rest IH]; intros config_cmds;
    cbn [match_neighbors map concat].
  { by rewrite ret_run, app_nil_r. }
  unfold match_notices, neighbor_cmds. cbn [omap list_omap].
  destruct (match_policy n policies) as [policy|]; cbn [fmap option_fmap option_map].
  - rewrite bind_run, print_run. cbv beta iota. rewrite IH.
    by rewrite <- (assoc_L (++)).
  - by rewrite IH.
Qed.

Lemma neighbor_cmds_nil (policies : list device_policy) (n : neighbor) :
  neighbor_cmds policies n = [] <-> match_policy n policies = None.
Proof. unfold neighbor_cmds. by destruct (match_policy n policies). Qed.

(** The matching loop makes no call and never raises.  It prints one
    notice for each neighbor that some policy matches, in the order of the
    neighbors, and returns the blocks of those neighbors one after the
    other; the commands are empty exactly when no policy matches any
    neighbor, the case in which nothing is sent. *)
Theorem matching_loop_blocks_and_notices (policies : list device_policy)
  (neighbors : list neighbor) (w : world) :
  match_neighbors policies neighbors [] w =
    (Val (concat (map (neighbor_cmds policies) neighbors)), w,
     map EvPrint (match_notices policies neighbors))
  /\ length (match_notices policies neighbors) =
       length (filter (fun n => is_Some (match_policy n policies)) neighbors)
  /\ (concat (map (neighbor_cmds policies) neighbors) = [] <->
      Forall (fun n => match_policy n policies = None) neighbors).
Proof.
  split; [|split].
  - by rewrite match_neighbors_run, build_config_cmds_concat.
  - unfold match_notices. induction neighbors as [|n rest IH]; [done|].
    cbn [omap list_omap]. rewrite filter_cons.
    destruct (match_policy n policies) as [policy|];
      cbn [fmap option_fmap option_map].
    + rewrite decide_True by eauto. cbn [length]. by rewrite IH.
    + rewrite decide_False by (by intros [? ?]). done.
  - induction neighbors as [|n rest IH]; [done|]. cbn [map concat].
    rewrite Forall_cons, <- IH, <- neighbor_cmds_nil. split.
    + by intros [? ?]%app_eq_nil.
    + by intros [-> ->].
Qed.

(** *** The calls of a session *)

Lemma send_and_save_calls (config_cmds : list string) (w : world) :
  device_events (events (send_and_save config_cmds w))
    `prefix_of` [EvSendConfigSet config_cmds; EvSaveConfig; EvDisconnect]
  /\ (outcome (send_and_save config_cmds w) = Val tt ->
      device_events (events (send_and_save config_cmds w)) =
        [EvSendConfigSet config_cmds; EvSaveConfig; EvDisconnect]).
Proof.
  unfold send_and_save, send_config_set, save_config, disconnect.
  rewrite bind_run, print_run. cbv beta iota.
  rewrite bind_run, device_call_run.
  destruct (w_device w (w_calls w)) as [out|e].
  2:{ unfold events, outcome. cbn. split; [by eexists | done]. }
  rewrite bind_run, print_run. cbv beta iota.
  rewrite bind_run, device_unit_run.
  destruct (w_device (called w) (w_calls (called w))) as [out1|e].
  2:{ unfold events, outcome. cbn. split; [by eexists | done]. }
  rewrite bind_run, device_unit_run.
  destruct (w_device (called (called w)) (w_calls (called (called w)))) as [out2|e].
  2:{ unfold events, outcome. cbn. split; [by eexists | done]. }
  rewrite print_run. unfold events, outcome. cbn. split; [by exists [] | done].
Qed.

Lemma disconnect_calls (notice : string) (w : world) :
  device_events (events ((print notice ;; disconnect) w)) = [EvDisconnect].
Proof.
  rewrite bind_run, print_run. cbv beta iota. rewrite disconnect_run. by cbn.
Qed.

Lemma session_calls_after (whole : list event) (cmds : list string)
  (r : result unit) (t : list event) :
  device_events whole =
    EvSendCommand "show lldp neighbors detail" :: device_events t ->
  (match cmds with
   | [] => device_events t = [EvDisconnect]
   | _ :: _ =>
       device_events t `prefix_of` [EvSendConfigSet cmds; EvSaveConfig; EvDisconnect]
       /\ (r = Val tt ->
           device_events t = [EvSendConfigSet cmds; EvSaveConfig; EvDisconnect])
   end) ->
  device_events whole `prefix_of` session_calls cmds
  /\ (r = Val tt -> device_events whole = session_calls cmds).
Proof.
  intros Hp Ht. rewrite Hp. unfold session_calls.
  destruct cmds as [|c cs].
  - rewrite Ht. split; [by exists [] | done].
  - destruct Ht as [[k Hk] Hfull]. split.
    + exists k. cbn [app]. by rewrite Hk.
    + intros Hr. by rewrite (Hfull Hr).
Qed.

Ltac session_prefix :=
  cbn [app];
  rewrite ?device_events_cons, ?device_events_app, ?device_events_prints;
  by cbn.

(** The calls of the LLDP tool on an open session.  Given the reply to the
    neighbor command, the commands to send are the policy blocks of the
    neighbors parsed from it.  The session is asked for the neighbors,
    then, if there is nothing to send, only closed; otherwise the batch is
    sent, the configuration is saved and the session is closed, in this
    order.  A run that raises stops somewhere along this sequence, and a
    run that completes has made exactly these calls: nothing is saved
    that was not sent, and nothing is sent when no policy matches. *)
Theorem lldp_session_calls (w : world) (output : string) :
  w_device w (w_calls w) = Reply output ->
  let cmds := build_config_cmds DEVICE_POLICIES (parse_lldp_neighbors output) in
  device_events (events (lldp_session w)) `prefix_of` session_calls cmds
  /\ (outcome (lldp_session w) = Val tt ->
      device_events (events (lldp_session w)) = session_calls cmds).
Proof.
  intros Hout cmds. unfold lldp_session, send_command.
  rewrite bind_run, print_run. cbv beta iota.
  rewrite bind_run, device_call_run, Hout. cbv beta iota zeta.
  destruct (parse_lldp_neighbors output) as [|n ns] eqn:Hparse.
  { pose proof (disconnect_calls "No LLDP neighbors found." (called w)) as Hd.
    destruct ((print _ ;; disconnect) (called w)) as [[r w'] t] eqn:Hrun.
    unfold events, outcome in *. cbn [fst snd] in *.
    apply (session_calls_after _ cmds r t); [session_prefix | by subst cmds]. }
  rewrite bind_run, match_neighbors_run. cbv beta iota. cbn [app].
  fold cmds. destruct cmds as [|c cs] eqn:Hcmds.
  { pose proof (disconnect_calls "No matching device policies found." (called w))
      as Hd.
    destruct ((print _ ;; disconnect) (called w)) as [[r w'] t] eqn:Hrun.
    unfold events, outcome in *. cbn [fst snd] in *.
    apply (session_calls_after _ [] r t); [session_prefix | done]. }
  pose proof (send_and_save_calls (c :: cs) (called w)) as Hs.
  unfold send_and_save in Hs.
  destruct ((print _ ;; _) (called w)) as [[r w'] t] eqn:Hrun in Hs |- *.
  unfold events, outcome in *. cbn [fst snd] in *.
  apply (session_calls_after _ (c :: cs) r t); [session_prefix | done].
Qed.

Lemma lldp_session_calls_witness :
  device_events (events (lldp_session world_lldp_leaf))
    `prefix_of`
    session_calls (build_config_cmds DEVICE_POLICIES
                     (parse_lldp_neighbors lldp_leaf_output))
  /\ (outcome (lldp_session world_lldp_leaf) = Val tt ->
      device_events (events (lldp_session world_lldp_leaf)) =
        session_calls (build_config_cmds DEVICE_POLICIES
                         (parse_lldp_neighbors lldp_leaf_output))).
Proof. exact (lldp_session_calls world_lldp_leaf lldp_leaf_output eq_refl). Defined.

(** ** The earlier tool (ap_renamer1.py) *)

Lemma ap1_config_cmds_concat (ap_interfaces : list string) :
  ap1_config_cmds ap_interfaces = concat (map ap1_block ap_interfaces).
Proof.
  unfold ap1_config_cmds.
  assert (H : forall acc,
    foldl (fun cmds intf => cmds ++ ap1_block intf) acc ap_interfaces =
      acc ++ concat (map ap1_block ap_interfaces)).
  { induction ap_interfaces as [|i rest IH]; intros acc; cbn [foldl map concat].
    - by rewrite app_nil_r.
    - by rewrite IH, <- (assoc_L (++)). }
  apply (H []).
Qed.

Lemma ap1_config_cmds_length (ap_interfaces : list string) :
  length (ap1_config_cmds ap_interfaces) = 8 * length ap_interfaces.
Proof.
  rewrite ap1_config_cmds_concat.
  induction ap_interfaces as [|i rest IH]; [done|].
  cbn [map concat]. rewrite length_app, IH. cbn [ap1_block length]. lia.
Qed.

(** The calls of the earlier tool on an open session.  Given the reply to
    the neighbor command, the interfaces configured are those of the
    records whose description names the access-point model, and the batch
    holds the same eight commands for each of them, the first one entering
    the interface and the last one leaving it.  The session is asked for
    the neighbors, then, if no such interface is found, only closed;
    otherwise the batch is sent, the configuration is saved and the
    session is closed, in this order.  A run that raises stops somewhere
    along this sequence, and a run that completes has made exactly these
    calls. *)
Theorem ap1_session_calls (w : world) (output : string) :
  w_device w (w_calls w) = Reply output ->
  let ap_interfaces := ap1_interfaces (ApRenamer1.parse_lldp_neighbors1 output) in
  let cmds := ap1_config_cmds ap_interfaces in
  cmds = concat (map ap1_block ap_interfaces)
  /\ length cmds = 8 * length ap_interfaces
  /\ device_events (events (ap1_session w)) `prefix_of` session_calls cmds
  /\ (outcome (ap1_session w) = Val tt ->
      device_events (events (ap1_session w)) = session_calls cmds).
Proof.
  intros Hout ap_interfaces cmds.
  split; [apply ap1_config_cmds_concat|]. split; [apply ap1_config_cmds_length|].
  unfold ap1_session, send_command.
  rewrite bind_run, print_run. cbv beta iota.
  rewrite bind_run, device_call_run, Hout. cbv beta iota zeta.
  fold ap_interfaces. subst cmds. destruct ap_interfaces as [|i rest].
  { pose proof (disconnect_calls "No Arista APs found via LLDP." (called w)) as Hd.
    destruct ((print _ ;; disconnect) (called w)) as [[r w'] t] eqn:Hrun.
    unfold events, outcome in *. cbn [fst snd] in *.
    apply (session_calls_after _ [] r t); [session_prefix | done]. }
  rewrite bind_run, print_run. cbv beta iota.
  pose proof (send_and_save_calls (ap1_config_cmds (i :: rest)) (called w)) as Hs.
  unfold send_and_save in Hs.
  destruct ((print (nl +:+ "Applying configuration...") ;; _) (called w))
    as [[r w'] t] eqn:Hrun in Hs |- *.
  unfold events, outcome in *. cbn [fst snd] in *.
  pose proof (ap1_config_cmds_length (i :: rest)) as Hlen.
  destruct (ap1_config_cmds (i :: rest)) as [|c cs] eqn:Hc; [done|].
  apply (session_calls_after _ (c :: cs) r t); [session_prefix | done].
Qed.

Lemma ap1_session_calls_witness :
  let ap_interfaces :=
    ap1_interfaces (ApRenamer1.parse_lldp_neighbors1 lldp_leaf_output) in
  let cmds := ap1_config_cmds ap_interfaces in
  cmds = concat (map ap1_block ap_interfaces)
  /\ length cmds = 8 * length ap_interfaces
  /\ device_events (events (ap1_session world_lldp_leaf))
       `prefix_of` session_calls cmds
  /\ (outcome (ap1_session world_lldp_leaf) = Val tt ->
      device_events (events (ap1_session world_lldp_leaf)) = session_calls cmds).
Proof. exact (ap1_session_calls world_lldp_leaf lldp_leaf_output eq_refl). Defined.

(** *** The two tools on the same output *)

Lemma startswith_prefix (p q s : string) :
  Str.startswith (p +:+ q) s = true -> Str.startswith p s = true.
Proof.
  revert s. induction p as [|a p IH]; intros s; [by destruct s|].
  change (String a p +:+ q) with (String a (p +:+ q)).
  destruct s as [|c s]; [done|]. rewrite !startswith_cons.
  intros [-> H]%andb_true_iff. by rewrite (IH _ H).
Qed.

Lemma contains_prefix (p q s : string) :
  Str.contains (p +:+ q) s = true -> Str.contains p s = true.
Proof.
  induction s as [|c s IH]; cbn [Str.contains].
  - rewrite !orb_false_r. apply startswith_prefix.
  - intros [H|H]%orb_true_iff.
    + by rewrite (startswith_prefix _ _ _ H).
    + rewrite (IH H). apply orb_true_r.
Qed.

Lemma omap_omap {A B C} (f : A -> option B) (g : B -> option C) (l : list A) :
  omap g (omap f l) = omap (fun x => f x ≫= g) l.
Proof.
  induction l as [|x l IH]; [done|]. cbn [omap list_omap].
  destruct (f x) as [y|]; cbn [omap list_omap mbind option_bind]; [|done].
  by destruct (g y); rewrite IH.
Qed.

Lemma earlier_parser_records (output : string) :
  ApRenamer1.parse_lldp_neighbors1 output =
    omap earlier_record (parse_lldp_neighbors output).
Proof.
  unfold ApRenamer1.parse_lldp_neighbors1, parse_lldp_neighbors.
  rewrite omap_omap. apply omap_pointwise. intros block.
  rewrite lldp_block1_record, lldp_block_record. unfold block_record1.
  by destruct (block_record (lldp_block_lines block)).
Qed.

Lemma ap1_interfaces_of_records (neighbors : list neighbor) :
  ap1_interfaces (omap earlier_record neighbors) =
    local_intf <$>
      filter (fun n => Str.contains "ARISTA AP C-130" (system_description n) = true)
             neighbors.
Proof.
  unfold ap1_interfaces. induction neighbors as [|n rest IH]; [done|].
  cbn [omap list_omap]. unfold earlier_record at 1. rewrite (filter_cons _ n).
  destruct (Str.truthy (system_description n)) eqn:Ht.
  - rewrite filter_cons. cbn [ApRenamer1.system_description1].
    destruct (decide (Str.contains _ (system_description n) = true)).
    + rewrite !fmap_cons. cbn [ApRenamer1.local_intf1]. by rewrite IH.
    + done.
  - rewrite decide_False; [done|].
    destruct (system_description n); [done | discriminate Ht].
Qed.

Lemma plain_neighbor_cmds (n : neighbor) :
  plain_neighbor n ->
  neighbor_cmds DEVICE_POLICIES n =
    if decide (Str.contains "ARISTA AP C-130" (system_description n) = true)
    then ap1_block (local_intf n) else [].
Proof.
  intros [Hname Hap]. unfold neighbor_cmds, DEVICE_POLICIES.
  cbn [match_policy policy_match].
  destruct (String.eqb_spec (system_name n) "LEAF1") as [|_]; [done|].
  destruct (Str.contains "ARISTA AP" (system_description n)) eqn:Hc.
  - by rewrite decide_True by auto.
  - rewrite decide_False; [done|]. intros H.
    apply (contains_prefix "ARISTA AP" " C-130") in H. congruence.
Qed.

(** The two LLDP tools send the same commands when every neighbor is
    plain: on an output none of whose neighbors is named as the leaf
    switch, and whose access points are all of the model the earlier tool
    looks for, the commands of the policy tool are those of the earlier
    tool. *)
Theorem lldp_tools_agree_on_plain_neighbors (output : string) :
  Forall plain_neighbor (parse_lldp_neighbors output) ->
  build_config_cmds DEVICE_POLICIES (parse_lldp_neighbors output) =
    ap1_config_cmds (ap1_interfaces (ApRenamer1.parse_lldp_neighbors1 output)).
Proof.
  rewrite earlier_parser_records, ap1_interfaces_of_records.
  rewrite build_config_cmds_concat, ap1_config_cmds_concat.
  induction (parse_lldp_neighbors output) as [|n rest IH]; [done|].
  intros [Hn Hrest]%Forall_cons. cbn [map concat].
  rewrite (plain_neighbor_cmds n Hn), (IH Hrest), filter_cons.
  by destruct (decide _).
Qed.

Lemma lldp_tools_agree_on_plain_neighbors_witness :
  build_config_cmds DEVICE_POLICIES (parse_lldp_neighbors lldp_block_example) =
    ap1_config_cmds
      (ap1_interfaces (ApRenamer1.parse_lldp_neighbors1 lldp_block_example)).
Proof.
  apply (lldp_tools_agree_on_plain_neighbors lldp_block_example).
  change (parse_lldp_neighbors lldp_block_example)
    with [Neighbor "Gi1/0/24" "AP-ROOF-3" "ARISTA AP C-130"].
  constructor; [|constructor]. split; [discriminate | done].
Defined.

(** ** A failed run of an LLDP tool *)

Lemma send_and_save_left_open (config_cmds : list string) (w : world) (e : exn) :
  outcome (send_and_save config_cmds w) = Raise e ->
  left_open w e (send_and_save config_cmds w).
Proof.
  unfold send_and_save, send_config_set, save_config, disconnect, left_open.
  rewrite bind_run, print_run. cbv beta iota.
  rewrite bind_run, device_call_run.
  destruct (w_device w (w_calls w)) as [out|e0] eqn:H0.
  2:{ unfold events, outcome. cbn. intros _ [|[|k]] Hk; by cbn in Hk. }
  rewrite bind_run, print_run. cbv beta iota.
  rewrite bind_run, device_unit_run. cbn [called w_device w_calls].
  destruct (w_device w (S (w_calls w))) as [out1|e1] eqn:H1.
  2:{ unfold events, outcome. cbn. intros _ [|[|[|k]]] Hk; by cbn in Hk. }
  rewrite bind_run, device_unit_run. cbn [called w_device w_calls].
  destruct (w_device w (S (S (w_calls w)))) as [out2|e2] eqn:H2.
  2:{ unfold events, outcome. cbn. intros [= <-] [|[|[|k]]] Hk; cbn in Hk; try done.
      by replace (w_calls w + 2) with (S (S (w_calls w))) by lia. }
  rewrite print_run. unfold outcome. by cbn.
Qed.

Lemma disconnect_left_open (notice : string) (w : world) (e : exn) :
  outcome ((print notice ;; disconnect) w) = Raise e ->
  left_open w e ((print notice ;; disconnect) w).
Proof.
  unfold left_open. rewrite bind_run, print_run. cbv beta iota.
  rewrite disconnect_run. unfold outcome, events. cbn [fst snd].
  destruct (w_device w (w_calls w)) as [out|e0] eqn:H0; [done|].
  intros [= <-] [|k] Hk; cbn in Hk; [|done]. by rewrite Nat.add_0_r.
Qed.

Lemma left_open_after (whole : list event) (w : world) (e : exn)
  (r : result unit) (w' : world) (t : list event) :
  device_events whole =
    EvSendCommand "show lldp neighbors detail" :: device_events t ->
  left_open (called w) e (r, w', t) ->
  forall k,
    device_events whole !! k = Some EvDisconnect ->
    w_device w (w_calls w + k) = Raises e.
Proof.
  intros Hwhole Hopen k. rewrite Hwhole. destruct k as [|k]; [done|].
  cbn [lookup list_lookup]. intros Hk. specialize (Hopen k Hk).
  cbn [called w_device w_calls] in Hopen.
  by replace (w_calls w + S k) with (S (w_calls w) + k) by lia.
Qed.

(** A failed run of an LLDP tool leaves the session open.  When the part
    of either tool that works on the open session raises, no disconnect
    has succeeded: the only disconnect such a run can hold is the very
    call that raised.  The tools have no clean-up for this case. *)
Theorem failed_lldp_run_leaves_session_open (w : world) (e : exn) :
  (outcome (lldp_session w) = Raise e -> left_open w e (lldp_session w))
  /\ (outcome (ap1_session w) = Raise e -> left_open w e (ap1_session w)).
Proof.
  split.
  - unfold lldp_session, send_command, left_open.
    rewrite bind_run, print_run. cbv beta iota.
    rewrite bind_run, device_call_run.
    destruct (w_device w (w_calls w)) as [output|e0] eqn:Hout.
    2:{ unfold outcome, events. cbn. intros _ [|[|k]] Hk; by cbn in Hk. }
    cbv beta iota zeta.
    destruct (parse_lldp_neighbors output) as [|n ns].
    { pose proof (disconnect_left_open "No LLDP neighbors found." (called w) e) as Hd.
      destruct ((print _ ;; disconnect) (called w)) as [[r w'] t] eqn:Hrun.
      unfold events, outcome in *. cbn [fst snd] in *. intros Hr.
      apply (left_open_after _ w e r w' t); [session_prefix | by apply Hd]. }
    rewrite bind_run, match_neighbors_run. cbv beta iota. cbn [app].
    destruct (build_config_cmds DEVICE_POLICIES (n :: ns)) as [|c cs].
    { pose proof (disconnect_left_open "No matching device policies found."
                    (called w) e) as Hd.
      destruct ((print _ ;; disconnect) (called w)) as [[r w'] t] eqn:Hrun.
      unfold events, outcome in *. cbn [fst snd] in *. intros Hr.
      apply (left_open_after _ w e r w' t); [session_prefix | by apply Hd]. }
    pose proof (send_and_save_left_open (c :: cs) (called w) e) as Hs.
    unfold send_and_save in Hs.
    destruct ((print _ ;; _) (called w)) as [[r w'] t] eqn:Hrun in Hs |- *.
    unfold events, outcome in *. cbn [fst snd] in *. intros Hr.
    apply (left_open_after _ w e r w' t); [session_prefix | by apply Hs].
  - unfold ap1_session, send_command, left_open.
    rewrite bind_run, print_run. cbv beta iota.
    rewrite bind_run, device_call_run.
    destruct (w_device w (w_calls w)) as [output|e0] eqn:Hout.
    2:{ unfold outcome, events. cbn. intros _ [|[|k]] Hk; by cbn in Hk. }
    cbv beta iota zeta.
    destruct (ap1_interfaces _) as [|i rest].
    { pose proof (disconnect_left_open "No Arista APs found via LLDP." (called w) e)
        as Hd.
      destruct ((print _ ;; disconnect) (called w)) as [[r w'] t] eqn:Hrun.
      unfold events, outcome in *. cbn [fst snd] in *. intros Hr.
      apply (left_open_after _ w e r w' t); [session_prefix | by apply Hd]. }
    rewrite bind_run, print_run. cbv beta iota.
    pose proof (send_and_save_left_open (ap1_config_cmds (i :: rest)) (called w) e)
      as Hs.
    unfold send_and_save in Hs.
    destruct ((print (nl +:+ "Applying configuration...") ;; _) (called w))
      as [[r w'] t] eqn:Hrun in Hs |- *.
    unfold events, outcome in *. cbn [fst snd] in *. intros Hr.
    apply (left_open_after _ w e r w' t); [session_prefix | by apply Hs].
Qed.

(** A run in which the batch is refused: it raises, and holds no
    disconnect. *)
Example batch_refused_run :
  outcome (lldp_session world_batch_refused) = Raise (Exn OtherException "timed out")
  /\ device_events (events (lldp_session world_batch_refused)) =
       [EvSendCommand "show lldp neighbors detail";
        EvSendConfigSet
          (build_config_cmds DEVICE_POLICIES (parse_lldp_neighbors lldp_leaf_output))]
  /\ outcome (ap1_session world_batch_refused) = Raise (Exn OtherException "timed out").
Proof. by vm_compute. Qed.
